(** * Bill-of-Lading field extraction: a shallow embedding of [app.py]

    The development follows the layout of the program.

    Definitions:
    - [PyStr]   : the [str] operations the program uses (strip, upper,
                  split, join, [in], count);
    - [Re]      : the fragment of Python's [re] the pattern catalog is
                  written in: a parser for the pattern syntax and a
                  backtracking matcher with [search], [findall], [sub];
    - [FieldPatterns], [PDFProcessor], [TableParser], [BOLDataExtractor] :
                  the classes of [app.py], method by method, exceptions
                  included;
    - [ExcelExporter], [BOLOCRApp] : the frame [create_dataframe]
                  builds, the counts of the summary sheet, and the
                  processing of one file and of a batch;
    - [Plain], [Spec], [Cover] : plain list functions the
                  regular-expression calls are proved equal to, syntactic
                  analyses of patterns, and the vocabulary in which the
                  properties are stated.

    Proofs: the quality assessor and the method selector; failure
    containment in [extract_all_fields]; pattern order in [extract_field];
    the matcher on sets of characters and the three substitutions of
    [clean_field_data]; idempotence of cleaning; what matches consume and
    capture; leftmost matches; weight routing; parties and the sample
    record; then the page loops of the two text extractions, what
    [extract_all_fields] leaves alone, the description columns of the
    tables, the whole extraction with the methods of the class, the
    application and its summary, the exported frame, what the groups of
    the catalog can hold, and the form of a cleaned text.

    Text is modelled as a list of 8-bit characters and the model is meant
    for ASCII text.  Inside the ASCII range the character classes are those
    of CPython (white space is 9-13, 28-31 and 32); characters above 127
    are carried along as caseless symbols that are neither blank nor
    digits. *)

From Stdlib Require Import List String Ascii Bool Arith NArith ZArith Lia.
Import ListNotations.


(* ================================================================= *)
(** ** Python strings *)

Module PyStr.

Definition str := list ascii.

(** [raw "..."] is a Python raw literal [r"..."]: every character stands
    for itself. *)
Definition raw (s : string) : str := list_ascii_of_string s.

Definition nl : ascii := "010"%char.
Definition tab : ascii := "009"%char.
Definition cr : ascii := "013"%char.
Definition backslash : ascii := "\"%char.

(** [py "..."] is an ordinary Python literal: the escapes [\n], [\t], [\r]
    and [\\] are decoded. *)
Fixpoint unescape (s : str) : str :=
  match s with
  | [] => []
  | c :: t =>
      if Ascii.eqb c backslash then
        match t with
        | d :: t' =>
            if Ascii.eqb d "n" then nl :: unescape t'
            else if Ascii.eqb d "t" then tab :: unescape t'
            else if Ascii.eqb d "r" then cr :: unescape t'
            else if Ascii.eqb d backslash then backslash :: unescape t'
            else c :: unescape t
        | [] => [c]
        end
      else c :: unescape t
  end.

Definition py (s : string) : str := unescape (raw s).

Definition code (c : ascii) : N := N_of_ascii c.

Definition in_range (lo hi : N) (c : ascii) : bool :=
  (N.leb lo (code c) && N.leb (code c) hi)%bool.

(** [str.isspace] on one character. *)
Definition isspace (c : ascii) : bool := in_range 9 13 c || in_range 28 32 c.
Definition isdigit (c : ascii) : bool := in_range 48 57 c.
Definition isupper (c : ascii) : bool := in_range 65 90 c.
Definition islower (c : ascii) : bool := in_range 97 122 c.

Definition upper_char (c : ascii) : ascii :=
  if islower c then ascii_of_N (code c - 32) else c.
Definition lower_char (c : ascii) : ascii :=
  if isupper c then ascii_of_N (code c + 32) else c.

(** [s.upper()] *)
Definition upper (s : str) : str := map upper_char s.

Fixpoint dropwhile (p : ascii -> bool) (s : str) : str :=
  match s with
  | [] => []
  | c :: t => if p c then dropwhile p t else s
  end.

Fixpoint takewhile (p : ascii -> bool) (s : str) : str :=
  match s with
  | [] => []
  | c :: t => if p c then c :: takewhile p t else []
  end.

(** [s] without its longest tail of characters that pass [p]: the cut is
    at the first place from which every character passes. *)
Fixpoint drop_trailing (p : ascii -> bool) (s : str) : str :=
  match s with
  | [] => []
  | c :: t => if forallb p s then [] else c :: drop_trailing p t
  end.

Definition lstrip (s : str) : str := dropwhile isspace s.
Definition rstrip (s : str) : str := drop_trailing isspace s.
(** [s.strip()] *)
Definition strip (s : str) : str := rstrip (lstrip s).

(** Truth value of a string: [if s:]. *)
Definition truthy (s : str) : bool :=
  match s with [] => false | _ :: _ => true end.

Definition str_eqb (a b : str) : bool :=
  if list_eq_dec ascii_dec a b then true else false.

Fixpoint startswith (p s : str) : bool :=
  match p, s with
  | [], _ => true
  | a :: p', b :: s' => Ascii.eqb a b && startswith p' s'
  | _ :: _, [] => false
  end.

(** [needle in hay] *)
Fixpoint contains (needle hay : str) : bool :=
  startswith needle hay ||
  match hay with
  | [] => false
  | _ :: t => contains needle t
  end.

(** [s.count(c)] for a one-character argument. *)
Fixpoint count (c : ascii) (s : str) : nat :=
  match s with
  | [] => 0
  | d :: t => (if Ascii.eqb d c then 1 else 0) + count c t
  end.

(** [s.split(c)] for a one-character separator: never the empty list. *)
Fixpoint split (c : ascii) (s : str) : list str :=
  match s with
  | [] => [[]]
  | d :: t =>
      if Ascii.eqb d c then [] :: split c t
      else match split c t with
           | l :: ls => (d :: l) :: ls
           | [] => [[d]]
           end
  end.

(** [sep.join(parts)] *)
Fixpoint join (sep : str) (parts : list str) : str :=
  match parts with
  | [] => []
  | [p] => p
  | p :: ps => p ++ sep ++ join sep ps
  end.

End PyStr.
Import PyStr.

(* ================================================================= *)
(** ** Exceptions *)

(** A raised exception (an instance of [Exception]): its class and what
    [str(e)] prints. *)
Record exn := Exn { exn_class : string; exn_str : str }.

Inductive res (A : Type) : Type :=
| Ok (a : A)
| Raise (e : exn).
Arguments Ok {A} a.
Arguments Raise {A} e.

Definition bind {A B} (m : res A) (f : A -> res B) : res B :=
  match m with
  | Ok a => f a
  | Raise e => Raise e
  end.

Notation "x <- m ;; k" := (bind m (fun x => k))
  (at level 61, m at next level, right associativity).
Notation "' pat <- m ;; k" := (bind m (fun x => match x with pat => k end))
  (at level 61, pat pattern, m at next level, right associativity).

Definition is_ok {A} (m : res A) : bool :=
  match m with Ok _ => true | Raise _ => false end.

(* ================================================================= *)
(** ** The [re] module *)

Module Re.

(** The flags the program passes to [re]. *)
Record flags := Flags { IGNORECASE : bool; MULTILINE : bool; DOTALL : bool }.

(** One member of a bracketed set. *)
Inductive citem :=
| CLit (c : ascii)
| CRange (lo hi : ascii)
| CSpace                     (* \s *)
| CDigit.                    (* \d *)

(** Parsed patterns.  A sequence [abc] is the right-nested
    [RSeq a (RSeq b (RSeq c REmpty))]; [(?:...)] leaves no node of its own.
    Patterns with more than one capturing group are outside the fragment. *)
Inductive regex :=
| REmpty
| RLit (c : ascii)
| RAny                                   (* .        *)
| RSet (neg : bool) (items : list citem) (* [...] [^...] \s \d *)
| RBol                                   (* ^        *)
| REol                                   (* $        *)
| RSeq (a b : regex)
| RAlt (a b : regex)                     (* a|b      *)
| RRep (greedy : bool) (lo : nat) (hi : option nat) (a : regex)
| RGroup (a : regex)                     (* (...)    *)
| RLook (a : regex).                     (* (?=...)  *)

(** *** Parsing the pattern syntax *)

Definition is_char (x : string) (c : ascii) : bool :=
  match x with
  | String d EmptyString => Ascii.eqb c d
  | _ => false
  end.

Definition is_alnum (c : ascii) : bool := isdigit c || isupper c || islower c.

Definition digit_val (c : ascii) : nat := N.to_nat (code c - 48).

Fixpoint parse_nat_acc (acc : nat) (p : str) : nat * str :=
  match p with
  | c :: t => if isdigit c then parse_nat_acc (10 * acc + digit_val c) t
              else (acc, p)
  | [] => (acc, p)
  end.

(** A number, if the input starts with a digit. *)
Definition parse_nat (p : str) : option (nat * str) :=
  match p with
  | c :: _ => if isdigit c then Some (parse_nat_acc 0 p) else None
  | [] => None
  end.

(** The character after a backslash, inside or outside a set. *)
Definition parse_escape (c : ascii) : option citem :=
  if is_char "s" c then Some CSpace
  else if is_char "d" c then Some CDigit
  else if is_char "n" c then Some (CLit nl)
  else if is_char "t" c then Some (CLit tab)
  else if is_char "r" c then Some (CLit cr)
  else if is_alnum c then None
  else Some (CLit c).

(** One set member that is not a range: a character or an escape. *)
Definition parse_set_atom (p : str) : option (citem * str) :=
  match p with
  | [] => None
  | c :: t =>
      if Ascii.eqb c backslash then
        match t with
        | d :: t' => match parse_escape d with
                     | Some it => Some (it, t')
                     | None => None
                     end
        | [] => None
        end
      else Some (CLit c, t)
  end.

(** The members of a set up to the closing bracket. *)
Fixpoint parse_set_items (n : nat) (p : str) : option (list citem * str) :=
  match n with
  | 0 => None
  | S n' =>
      match p with
      | [] => None
      | c :: t =>
          if is_char "]" c then Some ([], t)
          else
            match parse_set_atom p with
            | None => None
            | Some (lo, p1) =>
                match p1 with
                | d :: e :: p2 =>
                    if is_char "-" d && negb (is_char "]" e) then
                      match lo, parse_set_atom (e :: p2) with
                      | CLit l, Some (CLit h, p3) =>
                          if N.leb (code l) (code h) then
                            match parse_set_items n' p3 with
                            | Some (its, r) => Some (CRange l h :: its, r)
                            | None => None
                            end
                          else None
                      | _, _ => None
                      end
                    else
                      match parse_set_items n' p1 with
                      | Some (its, r) => Some (lo :: its, r)
                      | None => None
                      end
                | _ =>
                    match parse_set_items n' p1 with
                    | Some (its, r) => Some (lo :: its, r)
                    | None => None
                    end
                end
            end
      end
  end.

Definition parse_set_body (neg : bool) (p : str) : option (regex * str) :=
  match p with
  | c :: _ =>
      if is_char "]" c then None
      else
        match parse_set_items (S (List.length p)) p with
        | Some (its, r) => Some (RSet neg its, r)
        | None => None
        end
  | [] => None
  end.

Definition parse_set (p : str) : option (regex * str) :=
  match p with
  | c :: t => if is_char "^" c then parse_set_body true t
              else parse_set_body false p
  | [] => None
  end.

(** A quantifier after an atom, if there is one: bounds and greediness. *)
Definition parse_bounds (p : str) : option (nat * option nat * str) :=
  match p with
  | c :: t =>
      if is_char "*" c then Some (0, None, t)
      else if is_char "+" c then Some (1, None, t)
      else if is_char "?" c then Some (0, Some 1, t)
      else if is_char "{" c then
        match parse_nat t with
        | Some (lo, t1) =>
            match t1 with
            | d :: t2 =>
                if is_char "}" d then Some (lo, Some lo, t2)
                else if is_char "," d then
                  match parse_nat t2 with
                  | Some (hi, t3) =>
                      match t3 with
                      | e :: t4 => if is_char "}" e && Nat.leb lo hi
                                   then Some (lo, Some hi, t4) else None
                      | [] => None
                      end
                  | None =>
                      match t2 with
                      | e :: t4 => if is_char "}" e then Some (lo, None, t4)
                                   else None
                      | [] => None
                      end
                  end
                else None
            | [] => None
            end
        | None => None
        end
      else None
  | [] => None
  end.

Definition parse_quant (a : regex) (p : str) : regex * str :=
  match parse_bounds p with
  | Some (lo, hi, t) =>
      match t with
      | c :: t' => if is_char "?" c then (RRep false lo hi a, t')
                   else (RRep true lo hi a, t)
      | [] => (RRep true lo hi a, t)
      end
  | None => (a, p)
  end.

(** Recursive descent: alternatives, sequences, quantified atoms.  The
    first argument bounds the depth and is taken larger than the pattern. *)
Fixpoint parse_alt (n : nat) (p : str) : option (regex * str) :=
  match n with
  | 0 => None
  | S n' =>
      match parse_seq n' p with
      | Some (a, r) =>
          match r with
          | c :: t =>
              if is_char "|" c then
                match parse_alt n' t with
                | Some (b, r') => Some (RAlt a b, r')
                | None => None
                end
              else Some (a, r)
          | [] => Some (a, r)
          end
      | None => None
      end
  end
with parse_seq (n : nat) (p : str) : option (regex * str) :=
  match n with
  | 0 => None
  | S n' =>
      match p with
      | [] => Some (REmpty, p)
      | c :: _ =>
          if is_char "|" c || is_char ")" c then Some (REmpty, p)
          else
            match parse_atom n' p with
            | Some (a, r) =>
                let (q, r1) := parse_quant a r in
                match parse_seq n' r1 with
                | Some (b, r2) => Some (RSeq q b, r2)
                | None => None
                end
            | None => None
            end
      end
  end
with parse_atom (n : nat) (p : str) : option (regex * str) :=
  match n with
  | 0 => None
  | S n' =>
      match p with
      | [] => None
      | c :: t =>
          if is_char "(" c then
            match t with
            | q :: k :: t' =>
                if is_char "?" q then
                  if is_char ":" k then
                    match parse_alt n' t' with
                    | Some (a, d :: r) =>
                        if is_char ")" d then Some (a, r) else None
                    | _ => None
                    end
                  else if is_char "=" k then
                    match parse_alt n' t' with
                    | Some (a, d :: r) =>
                        if is_char ")" d then Some (RLook a, r) else None
                    | _ => None
                    end
                  else None
                else
                  match parse_alt n' t with
                  | Some (a, d :: r) =>
                      if is_char ")" d then Some (RGroup a, r) else None
                  | _ => None
                  end
            | _ =>
                match parse_alt n' t with
                | Some (a, d :: r) =>
                    if is_char ")" d then Some (RGroup a, r) else None
                | _ => None
                end
            end
          else if is_char "[" c then parse_set t
          else if is_char "." c then Some (RAny, t)
          else if is_char "^" c then Some (RBol, t)
          else if is_char "$" c then Some (REol, t)
          else if Ascii.eqb c backslash then
            match t with
            | d :: t' =>
                match parse_escape d with
                | Some (CLit x) => Some (RLit x, t')
                | Some it => Some (RSet false [it], t')
                | None => None
                end
            | [] => None
            end
          else if is_char "*" c || is_char "+" c || is_char "?" c
                  || is_char "{" c || is_char "}" c || is_char "]" c
          then None
          else Some (RLit c, t)
      end
  end.

Fixpoint count_groups (r : regex) : nat :=
  match r with
  | RSeq a b | RAlt a b => count_groups a + count_groups b
  | RRep _ _ _ a | RLook a => count_groups a
  | RGroup a => S (count_groups a)
  | _ => 0
  end.

Definition re_error (msg : string) : exn := Exn "re.error" (raw msg).

(** [re.compile(pattern)]; a pattern that does not parse raises. *)
Definition compile (pattern : str) : res regex :=
  match parse_alt (3 * List.length pattern + 3) pattern with
  | Some (r, []) =>
      if Nat.leb (count_groups r) 1 then Ok r
      else Raise (re_error "more than one capturing group")
  | _ => Raise (re_error "bad pattern")
  end.

(** *** Matching *)

(** A position in the subject: the character just before it, what is left
    of the subject, and what group 1 has captured so far. *)
Record mstate := MState { m_prev : option ascii; m_rest : str; m_cap : option str }.

Definition item_match (it : citem) (c : ascii) : bool :=
  match it with
  | CLit x => Ascii.eqb x c
  | CRange lo hi => N.leb (code lo) (code c) && N.leb (code c) (code hi)
  | CSpace => isspace c
  | CDigit => isdigit c
  end.

(** Under IGNORECASE a set member is hit by either case of the character. *)
Definition set_match (fl : flags) (neg : bool) (items : list citem) (c : ascii) : bool :=
  xorb neg
    (existsb (fun it =>
       item_match it c ||
       (IGNORECASE fl && (item_match it (lower_char c) || item_match it (upper_char c))))
     items).

Definition lit_match (fl : flags) (x c : ascii) : bool :=
  if IGNORECASE fl then Ascii.eqb (lower_char x) (lower_char c) else Ascii.eqb x c.

Definition any_match (fl : flags) (c : ascii) : bool :=
  DOTALL fl || negb (Ascii.eqb c nl).

(** One character, if it passes the test. *)
Definition eat (p : ascii -> bool) (s : mstate) : list mstate :=
  match m_rest s with
  | c :: t => if p c then [MState (Some c) t (m_cap s)] else []
  | [] => []
  end.

Definition at_bol (fl : flags) (s : mstate) : bool :=
  match m_prev s with
  | None => true
  | Some c => MULTILINE fl && Ascii.eqb c nl
  end.

Definition at_eol (fl : flags) (s : mstate) : bool :=
  match m_rest s with
  | [] => true
  | c :: t => Ascii.eqb c nl && (MULTILINE fl || match t with [] => true | _ => false end)
  end.

(** The characters between two positions [a] and [b] of the same subject,
    given as what is left of it at each. *)
Definition between (a b : str) : str := firstn (List.length a - List.length b) a.

Definition shorter (s s' : mstate) : bool :=
  Nat.ltb (List.length (m_rest s')) (List.length (m_rest s)).

Definition hi_pred (hi : option nat) : option nat :=
  match hi with Some h => Some (Nat.pred h) | None => None end.

Definition hi_zero (hi : option nat) : bool :=
  match hi with Some 0 => true | _ => false end.

(** A repetition of [step]: the [lo] compulsory rounds first, then as many
    as [hi] allows; each optional round must consume something.  A greedy
    repetition tries one more round before stopping, a lazy one stops
    first.  [fuel] exceeds the number of rounds there can be. *)
Fixpoint repeat_loop (step : mstate -> list mstate) (greedy : bool)
    (fuel lo : nat) (hi : option nat) (s : mstate) : list mstate :=
  match fuel with
  | 0 => []
  | S fuel' =>
      match lo with
      | S lo' => flat_map (repeat_loop step greedy fuel' lo' (hi_pred hi)) (step s)
      | 0 =>
          if hi_zero hi then [s]
          else
            let more :=
              flat_map (repeat_loop step greedy fuel' 0 (hi_pred hi))
                       (filter (shorter s) (step s)) in
            if greedy then more ++ [s] else s :: more
      end
  end.

(** All the ways [r] matches at position [s], in the order a backtracking
    matcher tries them: the head of the list is the match [re] reports. *)
Fixpoint run (fl : flags) (r : regex) (s : mstate) : list mstate :=
  match r with
  | REmpty => [s]
  | RLit x => eat (lit_match fl x) s
  | RAny => eat (any_match fl) s
  | RSet neg items => eat (set_match fl neg items) s
  | RBol => if at_bol fl s then [s] else []
  | REol => if at_eol fl s then [s] else []
  | RSeq a b => flat_map (run fl b) (run fl a s)
  | RAlt a b => run fl a s ++ run fl b s
  | RRep greedy lo hi a =>
      repeat_loop (run fl a) greedy (S (lo + List.length (m_rest s))) lo hi s
  | RGroup a =>
      map (fun s' => MState (m_prev s') (m_rest s')
                            (Some (between (m_rest s) (m_rest s'))))
          (run fl a s)
  | RLook a =>
      match run fl a s with
      | s' :: _ => [MState (m_prev s) (m_rest s) (m_cap s')]
      | [] => []
      end
  end.

(** A match object: where the match starts and where it ends. *)
Record match_obj := Match { mo_start : str; mo_end : mstate }.

(** [m.group(0)] and [m.group(1)]; the latter is [None] when the group
    took no part in the match. *)
Definition group0 (m : match_obj) : str := between (mo_start m) (m_rest (mo_end m)).
Definition group1 (m : match_obj) : option str := m_cap (mo_end m).

(** [m.start()], for a match found in [text]. *)
Definition start (text : str) (m : match_obj) : nat :=
  List.length text - List.length (mo_start m).

(** The leftmost match at or after a position.  When [adv] is set, a match
    that starts at the first position must not be empty (this is how
    [findall] and [sub] restart after an empty match). *)
Fixpoint search_from (fl : flags) (r : regex) (adv : bool)
    (prev : option ascii) (t : str) : option match_obj :=
  let s := MState prev t None in
  match (if adv then filter (shorter s) (run fl r s) else run fl r s) with
  | e :: _ => Some (Match t e)
  | [] =>
      match t with
      | [] => None
      | c :: t' => search_from fl r false (Some c) t'
      end
  end.

(** What [findall] lists for one match: group 1 when the pattern has a
    group (the empty string if it took no part), else the whole match. *)
Definition findall_item (r : regex) (m : match_obj) : str :=
  match count_groups r with
  | 0 => group0 m
  | _ => match group1 m with Some g => g | None => [] end
  end.

Definition empty_match (m : match_obj) : bool :=
  Nat.eqb (List.length (mo_start m)) (List.length (m_rest (mo_end m))).

(** The successive non-overlapping matches, left to right. *)
Fixpoint findall_from (fuel : nat) (fl : flags) (r : regex) (adv : bool)
    (prev : option ascii) (t : str) : list str :=
  match fuel with
  | 0 => []
  | S fuel' =>
      match search_from fl r adv prev t with
      | None => []
      | Some m =>
          findall_item r m ::
          findall_from fuel' fl r (empty_match m)
                       (m_prev (mo_end m)) (m_rest (mo_end m))
      end
  end.

(** The subject with every match replaced by [repl]. *)
Fixpoint sub_from (fuel : nat) (fl : flags) (r : regex) (repl : str)
    (adv : bool) (prev : option ascii) (t : str) : str :=
  match fuel with
  | 0 => t
  | S fuel' =>
      match search_from fl r adv prev t with
      | None => t
      | Some m =>
          between t (mo_start m) ++ repl ++
          sub_from fuel' fl r repl (empty_match m)
                   (m_prev (mo_end m)) (m_rest (mo_end m))
      end
  end.

(** Two rounds per position are enough for either loop. *)
Definition scan_fuel (t : str) : nat := 2 * List.length t + 3.

Definition no_flags : flags := Flags false false false.

(** [re.search(pattern, text, flags)] *)
Definition search (pattern text : str) (fl : flags) : res (option match_obj) :=
  r <- compile pattern ;;
  Ok (search_from fl r false None text).

(** [re.findall(pattern, text, flags)] *)
Definition findall (pattern text : str) (fl : flags) : res (list str) :=
  r <- compile pattern ;;
  Ok (findall_from (scan_fuel text) fl r false None text).

(** [re.sub(pattern, repl, text)] for a replacement without backslashes. *)
Definition sub (pattern repl text : str) : res str :=
  r <- compile pattern ;;
  Ok (sub_from (scan_fuel text) no_flags r repl false None text).

End Re.

Open Scope string_scope.
Open Scope list_scope.

(* ================================================================= *)
(** ** [class BOLData] *)

Record BOLData := mkBOLData {
  filename : str;
  bol_number : str;
  shipper_name : str;
  shipper_address : str;
  consignee_name : str;
  consignee_address : str;
  notify_party_name : str;
  notify_party_address : str;
  vessel_name : str;
  voyage_number : str;
  port_of_load : str;
  port_of_discharge : str;
  description_of_goods : str;
  quantity_packages : str;
  gross_weight : str;
  net_weight : str;
  freight_terms : str;
  date_of_issue : str;
  extraction_method : string;
  extraction_confidence : string;
  processing_notes : str;
  extraction_failed : bool
}.

(** [BOLData()]: the dataclass defaults. *)
Definition BOLData_new : BOLData :=
  mkBOLData [] [] [] [] [] [] [] [] [] [] [] [] [] [] [] [] [] []
            "" "medium" [] false.

(** Attribute assignment, one function per attribute the program writes. *)
Definition set_filename (v : str) (b : BOLData) : BOLData :=
  let (_, a1, a2, a3, a4, a5, a6, a7, a8, a9, a10, a11, a12, a13, a14, a15,
       a16, a17, a18, a19, a20, a21) := b in
  mkBOLData v a1 a2 a3 a4 a5 a6 a7 a8 a9 a10 a11 a12 a13 a14 a15 a16 a17 a18
            a19 a20 a21.
Definition set_bol_number (v : str) (b : BOLData) : BOLData :=
  let (a0, _, a2, a3, a4, a5, a6, a7, a8, a9, a10, a11, a12, a13, a14, a15,
       a16, a17, a18, a19, a20, a21) := b in
  mkBOLData a0 v a2 a3 a4 a5 a6 a7 a8 a9 a10 a11 a12 a13 a14 a15 a16 a17 a18
            a19 a20 a21.
Definition set_parties (v : str * str * str * str * str * str) (b : BOLData)
  : BOLData :=
  let '(sn, sa, cn, ca, nn, na) := v in
  let (a0, a1, _, _, _, _, _, _, a8, a9, a10, a11, a12, a13, a14, a15,
       a16, a17, a18, a19, a20, a21) := b in
  mkBOLData a0 a1 sn sa cn ca nn na a8 a9 a10 a11 a12 a13 a14 a15 a16 a17 a18
            a19 a20 a21.
Definition set_vessel_info (v : str * str) (b : BOLData) : BOLData :=
  let '(vn, vy) := v in
  let (a0, a1, a2, a3, a4, a5, a6, a7, _, _, a10, a11, a12, a13, a14, a15,
       a16, a17, a18, a19, a20, a21) := b in
  mkBOLData a0 a1 a2 a3 a4 a5 a6 a7 vn vy a10 a11 a12 a13 a14 a15 a16 a17 a18
            a19 a20 a21.
Definition set_ports (v : str * str) (b : BOLData) : BOLData :=
  let '(pl, pd) := v in
  let (a0, a1, a2, a3, a4, a5, a6, a7, a8, a9, _, _, a12, a13, a14, a15,
       a16, a17, a18, a19, a20, a21) := b in
  mkBOLData a0 a1 a2 a3 a4 a5 a6 a7 a8 a9 pl pd a12 a13 a14 a15 a16 a17 a18
            a19 a20 a21.
Definition set_description_of_goods (v : str) (b : BOLData) : BOLData :=
  let (a0, a1, a2, a3, a4, a5, a6, a7, a8, a9, a10, a11, _, a13, a14, a15,
       a16, a17, a18, a19, a20, a21) := b in
  mkBOLData a0 a1 a2 a3 a4 a5 a6 a7 a8 a9 a10 a11 v a13 a14 a15 a16 a17 a18
            a19 a20 a21.
Definition set_weights_quantities (v : str * str * str) (b : BOLData) : BOLData :=
  let '(gw, nw, q) := v in
  let (a0, a1, a2, a3, a4, a5, a6, a7, a8, a9, a10, a11, a12, _, _, _,
       a16, a17, a18, a19, a20, a21) := b in
  mkBOLData a0 a1 a2 a3 a4 a5 a6 a7 a8 a9 a10 a11 a12 q gw nw a16 a17 a18
            a19 a20 a21.
Definition set_freight_terms (v : str) (b : BOLData) : BOLData :=
  let (a0, a1, a2, a3, a4, a5, a6, a7, a8, a9, a10, a11, a12, a13, a14, a15,
       _, a17, a18, a19, a20, a21) := b in
  mkBOLData a0 a1 a2 a3 a4 a5 a6 a7 a8 a9 a10 a11 a12 a13 a14 a15 v a17 a18
            a19 a20 a21.
Definition set_date_of_issue (v : str) (b : BOLData) : BOLData :=
  let (a0, a1, a2, a3, a4, a5, a6, a7, a8, a9, a10, a11, a12, a13, a14, a15,
       a16, _, a18, a19, a20, a21) := b in
  mkBOLData a0 a1 a2 a3 a4 a5 a6 a7 a8 a9 a10 a11 a12 a13 a14 a15 a16 v a18
            a19 a20 a21.
Definition set_processing_notes (v : str) (b : BOLData) : BOLData :=
  let (a0, a1, a2, a3, a4, a5, a6, a7, a8, a9, a10, a11, a12, a13, a14, a15,
       a16, a17, a18, a19, _, a21) := b in
  mkBOLData a0 a1 a2 a3 a4 a5 a6 a7 a8 a9 a10 a11 a12 a13 a14 a15 a16 a17 a18
            a19 v a21.
Definition set_extraction_failed (v : bool) (b : BOLData) : BOLData :=
  let (a0, a1, a2, a3, a4, a5, a6, a7, a8, a9, a10, a11, a12, a13, a14, a15,
       a16, a17, a18, a19, a20, _) := b in
  mkBOLData a0 a1 a2 a3 a4 a5 a6 a7 a8 a9 a10 a11 a12 a13 a14 a15 a16 a17 a18
            a19 a20 v.

Definition set_extraction_method (v : string) (b : BOLData) : BOLData :=
  let (a0, a1, a2, a3, a4, a5, a6, a7, a8, a9, a10, a11, a12, a13, a14, a15,
       a16, a17, _, a19, a20, a21) := b in
  mkBOLData a0 a1 a2 a3 a4 a5 a6 a7 a8 a9 a10 a11 a12 a13 a14 a15 a16 a17 v
            a19 a20 a21.
Definition set_extraction_confidence (v : string) (b : BOLData) : BOLData :=
  let (a0, a1, a2, a3, a4, a5, a6, a7, a8, a9, a10, a11, a12, a13, a14, a15,
       a16, a17, a18, _, a20, a21) := b in
  mkBOLData a0 a1 a2 a3 a4 a5 a6 a7 a8 a9 a10 a11 a12 a13 a14 a15 a16 a17 a18
            v a20 a21.

(* ================================================================= *)
(** ** [class FieldPatterns] *)

Module FieldPatterns.

(** [self.patterns]: the catalog, in the order of the source. *)
Definition patterns : list (string * list str) :=
  [ ("bol_number",
      [ raw "(?:B/L\s*(?:No|Number|#)\.?\s*:?\s*)([A-Z0-9\-]+)";
        raw "(?:BOL\s*(?:No|Number|#)\.?\s*:?\s*)([A-Z0-9\-]+)";
        raw "(?:Bill\s*of\s*Lading\s*(?:No|Number|#)\.?\s*:?\s*)([A-Z0-9\-]+)";
        raw "(?:Document\s*(?:No|Number)\.?\s*:?\s*)([A-Z0-9\-]+)" ]);
    ("shipper",
      [ raw "(?:SHIPPER\.?\s*:?\s*)(.*?)(?=\n\s*(?:CONSIGNEE|Consignee|\n\n))";
        raw "(?:Shipper\.?\s*:?\s*)(.*?)(?=\n\s*(?:CONSIGNEE|Consignee|\n\n))";
        raw "(?:FROM\.?\s*:?\s*)(.*?)(?=\n\s*(?:TO|CONSIGNEE|\n\n))" ]);
    ("consignee",
      [ raw "(?:CONSIGNEE\.?\s*:?\s*)(.*?)(?=\n\s*(?:NOTIFY|Notify|VESSEL|\n\n))";
        raw "(?:Consignee\.?\s*:?\s*)(.*?)(?=\n\s*(?:NOTIFY|Notify|VESSEL|\n\n))";
        raw "(?:TO\.?\s*:?\s*)(.*?)(?=\n\s*(?:NOTIFY|Notify|VESSEL|\n\n))" ]);
    ("notify_party",
      [ raw "(?:NOTIFY\s*PARTY\.?\s*:?\s*)(.*?)(?=\n\s*(?:VESSEL|PORT|GOODS|\n\n))";
        raw "(?:Notify\s*Party\.?\s*:?\s*)(.*?)(?=\n\s*(?:VESSEL|PORT|GOODS|\n\n))";
        raw "(?:ALSO\s*NOTIFY\.?\s*:?\s*)(.*?)(?=\n\s*(?:VESSEL|PORT|GOODS|\n\n))" ]);
    ("vessel",
      [ raw "(?:VESSEL\.?\s*:?\s*)([^\n]+)";
        raw "(?:Vessel\.?\s*:?\s*)([^\n]+)";
        raw "(?:SHIP\s*NAME\.?\s*:?\s*)([^\n]+)" ]);
    ("voyage",
      [ raw "(?:VOYAGE\.?\s*:?\s*)([A-Z0-9\-]+)";
        raw "(?:Voyage\.?\s*:?\s*)([A-Z0-9\-]+)";
        raw "(?:VOY\.?\s*:?\s*)([A-Z0-9\-]+)" ]);
    ("port_of_load",
      [ raw "(?:PORT\s*OF\s*(?:LOADING|LOAD)\.?\s*:?\s*)([^\n]+)";
        raw "(?:Port\s*of\s*(?:Loading|Load)\.?\s*:?\s*)([^\n]+)";
        raw "(?:LOAD\s*PORT\.?\s*:?\s*)([^\n]+)" ]);
    ("port_of_discharge",
      [ raw "(?:PORT\s*OF\s*(?:DISCHARGE|DEST)\.?\s*:?\s*)([^\n]+)";
        raw "(?:Port\s*of\s*(?:Discharge|Dest)\.?\s*:?\s*)([^\n]+)";
        raw "(?:DISCHARGE\s*PORT\.?\s*:?\s*)([^\n]+)" ]);
    ("freight_terms",
      [ raw "(?:FREIGHT\.?\s*:?\s*)(PREPAID|COLLECT|PAYABLE)";
        raw "(?:Freight\.?\s*:?\s*)(PREPAID|COLLECT|PAYABLE)";
        raw "(?:TERMS\.?\s*:?\s*)(PREPAID|COLLECT|PAYABLE)" ]);
    ("date_patterns",
      [ raw "(\d{1,2}[/-]\d{1,2}[/-]\d{2,4})";
        raw "(\d{1,2}\s+(?:Jan|Feb|Mar|Apr|May|Jun|Jul|Aug|Sep|Oct|Nov|Dec)[a-z]*\s+\d{2,4})";
        raw "((?:Jan|Feb|Mar|Apr|May|Jun|Jul|Aug|Sep|Oct|Nov|Dec)[a-z]*\s+\d{1,2},?\s+\d{2,4})" ]);
    ("weight_patterns",
      [ raw "(?:GROSS\s*WEIGHT\.?\s*:?\s*)([0-9,.\s]+(?:KG|LBS|MT|TON))";
        raw "(?:NET\s*WEIGHT\.?\s*:?\s*)([0-9,.\s]+(?:KG|LBS|MT|TON))";
        raw "(?:WEIGHT\.?\s*:?\s*)([0-9,.\s]+(?:KG|LBS|MT|TON))" ]);
    ("quantity_patterns",
      [ raw "(?:PACKAGES\.?\s*:?\s*)([0-9,.\s]+)";
        raw "(?:QUANTITY\.?\s*:?\s*)([0-9,.\s]+)";
        raw "(?:QTY\.?\s*:?\s*)([0-9,.\s]+)" ]) ].

(** [self.patterns.get(field_type, [])] *)
Definition get_patterns (field_type : string) : list str :=
  match find (fun kv => String.eqb (fst kv) field_type) patterns with
  | Some kv => snd kv
  | None => []
  end.

End FieldPatterns.

(* ================================================================= *)
(** ** [class PDFProcessor] *)

(** What the collaborators answer for one uploaded file: whether
    [import fitz] works, what [pdfplumber.open] and each page's
    [extract_text()] give ([None] for a page without text), and what
    [pdfplumber.open], [to_image] and [image_to_string] give per page.
    Any of them may raise. *)
Record pdf_file := PdfFile {
  import_fitz : res unit;
  plumber_text : res (list (res (option str)));
  plumber_ocr : res (list (res str))
}.

(** The collaborator calls a run makes, in order. *)
Inductive call := CallText | CallOCR.

Module PDFProcessor.

Record t := Build { min_text_threshold : Z }.

(** [PDFProcessor()] *)
Definition new : t := Build 100.

Definition len (s : str) : Z := Z.of_nat (List.length s).

(** The page loop of [extract_text_pdfplumber]. *)
Fixpoint text_pages (pages : list (res (option str))) (text_content : str)
  : res str :=
  match pages with
  | [] => Ok text_content
  | page :: rest =>
      page_text <- page ;;
      match page_text with
      | Some txt =>
          if truthy txt then text_pages rest (text_content ++ txt ++ [nl])
          else text_pages rest text_content
      | None => text_pages rest text_content
      end
  end.

Definition extract_text_pdfplumber (self : t) (pdf : pdf_file) : str * bool :=
  match (pages <- plumber_text pdf ;; text_pages pages []) with
  | Ok text_content =>
      let success := Z.geb (len (strip text_content)) (min_text_threshold self) in
      (text_content, success)
  | Raise _ => ([], false)
  end.

(** The page loop of [extract_text_ocr]. *)
Fixpoint ocr_pages (pages : list (res str)) (text_content : str) : res str :=
  match pages with
  | [] => Ok text_content
  | page :: rest =>
      ocr_text <- page ;;
      ocr_pages rest (text_content ++ ocr_text ++ [nl])
  end.

Definition extract_text_ocr (self : t) (pdf : pdf_file) : str * bool :=
  match (_ <- import_fitz pdf ;;
         pages <- plumber_ocr pdf ;;
         ocr_pages pages []) with
  | Ok text_content =>
      let success := Z.geb (len (strip text_content)) (min_text_threshold self) in
      (text_content, success)
  | Raise _ => ([], false)
  end.

Definition keywords : list str :=
  [raw "SHIPPER"; raw "CONSIGNEE"; raw "VESSEL"; raw "B/L"; raw "BOL"].

Definition has_structured_fields (text : str) : bool :=
  existsb (fun keyword => contains keyword (upper text)) keywords.

Definition has_addresses (text : str) : bool := Nat.ltb 5 (count nl text).

Definition assess_text_quality (text : str) : string :=
  if Nat.ltb (List.length (strip text)) 50 then "low"
  else if has_structured_fields text && has_addresses text then "high"
  else if has_structured_fields text || has_addresses text then "medium"
  else "low".

(** [process_pdf]: the text, the method label and the confidence label,
    together with the collaborator calls that were made. *)
Definition process_pdf (self : t) (pdf : pdf_file)
  : (str * string * string) * list call :=
  let '(text_content, text_success) := extract_text_pdfplumber self pdf in
  let extraction_method := "text" in
  let confidence := assess_text_quality text_content in
  if negb text_success || String.eqb confidence "low" then
    let '(ocr_text, ocr_success) := extract_text_ocr self pdf in
    if ocr_success then
      ((ocr_text, "ocr", assess_text_quality ocr_text), [CallText; CallOCR])
    else if truthy text_content then
      ((text_content, "text_fallback", confidence), [CallText; CallOCR])
    else
      ((text_content, extraction_method, confidence), [CallText; CallOCR])
  else
    ((text_content, extraction_method, confidence), [CallText]).

End PDFProcessor.

(* ================================================================= *)
(** ** [class TableParser] *)

(** A [DataFrame] as the program reads it: its columns in order, each with
    the text of its label ([str(col)]) and its cells, [None] for a missing
    cell, else the text [astype(str)] gives. *)
Definition data_frame := list (str * list (option str)).

Module TableParser.

Definition column_keywords : list str :=
  [raw "DESCRIPTION"; raw "GOODS"; raw "CARGO"; raw "COMMODITY"].

Definition is_description (col : str) : bool :=
  existsb (fun keyword => contains keyword (upper col)) column_keywords.

Fixpoint dropna (cells : list (option str)) : list str :=
  match cells with
  | [] => []
  | Some c :: rest => c :: dropna rest
  | None :: rest => dropna rest
  end.

(** [table[col].dropna().astype(str).tolist()]: a label carried by one
    column selects its cells; a label carried by several selects a frame,
    which has no [tolist]. *)
Definition column_values (table : data_frame) (col : str) : res (list str) :=
  match filter (fun c => str_eqb (fst c) col) table with
  | [c] => Ok (dropna (snd c))
  | [] => Raise (Exn "KeyError" col)
  | _ => Raise (Exn "AttributeError"
                 (raw "'DataFrame' object has no attribute 'tolist'"))
  end.

Fixpoint extend_columns (table : data_frame) (cols : list str)
    (cargo_descriptions : list str) : res (list str) :=
  match cols with
  | [] => Ok cargo_descriptions
  | col :: rest =>
      descriptions <- column_values table col ;;
      extend_columns table rest (cargo_descriptions ++ descriptions)
  end.

Fixpoint scan_tables (tables : list data_frame) (cargo_descriptions : list str)
  : res (list str) :=
  match tables with
  | [] => Ok cargo_descriptions
  | table :: rest =>
      let description_columns := filter is_description (map fst table) in
      acc <- extend_columns table description_columns cargo_descriptions ;;
      scan_tables rest acc
  end.

Definition parse_cargo_description_table (tables : list data_frame) : res str :=
  cargo_descriptions <- scan_tables tables [] ;;
  Ok (join (raw "; ") cargo_descriptions).

(** [extract_tables], given what [tabula.read_pdf] answers for the file. *)
Definition extract_tables (answer : res (list data_frame)) : list data_frame :=
  match answer with
  | Ok tables =>
      match tables with
      | _ :: _ => tables
      | [] => []
      end
  | Raise _ => []
  end.

End TableParser.

(* ================================================================= *)
(** ** [class BOLDataExtractor] *)

Module BOLDataExtractor.

(** [re.IGNORECASE | re.MULTILINE | re.DOTALL] and [re.IGNORECASE]. *)
Definition field_flags : Re.flags := Re.Flags true true true.
Definition ignorecase : Re.flags := Re.Flags true false false.

(** [x.strip()] where [x] may be [None]. *)
Definition strip_of (x : option str) : res str :=
  match x with
  | Some s => Ok (strip s)
  | None => Raise (Exn "AttributeError"
                     (raw "'NoneType' object has no attribute 'strip'"))
  end.

Definition clean_field_data (data : str) : res str :=
  cleaned <- Re.sub (raw "\s+") (raw " ") (strip data) ;;
  cleaned <- Re.sub (raw "^[:\-\s]+") (raw "") cleaned ;;
  cleaned <- Re.sub (raw "[:\-\s]+$") (raw "") cleaned ;;
  Ok cleaned.

(** [clean_field_data] on a value that may be [None]. *)
Definition clean_field_data_of (data : option str) : res str :=
  match data with
  | Some d => clean_field_data d
  | None => _ <- strip_of None ;; Ok []
  end.

(** The loop of [extract_field] over the patterns of one field type. *)
Fixpoint extract_field_loop (text : str) (patterns : list str) : res str :=
  match patterns with
  | [] => Ok []
  | pattern :: rest =>
      m <- Re.search pattern text field_flags ;;
      match m with
      | Some mo =>
          result <- strip_of (Re.group1 mo) ;;
          if truthy result then clean_field_data result
          else extract_field_loop text rest
      | None => extract_field_loop text rest
      end
  end.

Definition extract_field (text : str) (field_type : string) : res str :=
  extract_field_loop text (FieldPatterns.get_patterns field_type).

Definition extract_bol_number (text : str) : res str :=
  extract_field text "bol_number".

(** The local function of [extract_parties]. *)
Definition split_name_address (text : str) : str * str :=
  if negb (truthy text) then ([], [])
  else
    let lines := split nl text in
    let name := strip (hd [] lines) in
    let address :=
      if Nat.ltb 1 (List.length lines) then strip (join [nl] (tl lines))
      else [] in
    (name, address).

Definition extract_parties (text : str)
  : res (str * str * str * str * str * str) :=
  shipper_text <- extract_field text "shipper" ;;
  consignee_text <- extract_field text "consignee" ;;
  notify_text <- extract_field text "notify_party" ;;
  let '(shipper_name, shipper_address) := split_name_address shipper_text in
  let '(consignee_name, consignee_address) := split_name_address consignee_text in
  let '(notify_name, notify_address) := split_name_address notify_text in
  Ok (shipper_name, shipper_address, consignee_name,
      consignee_address, notify_name, notify_address).

Definition extract_vessel_info (text : str) : res (str * str) :=
  vessel_name <- extract_field text "vessel" ;;
  voyage_number <- extract_field text "voyage" ;;
  Ok (vessel_name, voyage_number).

Definition extract_ports (text : str) : res (str * str) :=
  port_load <- extract_field text "port_of_load" ;;
  port_discharge <- extract_field text "port_of_discharge" ;;
  Ok (port_load, port_discharge).

Fixpoint extract_dates_loop (text : str) (patterns : list str) : res str :=
  match patterns with
  | [] => Ok []
  | pattern :: rest =>
      matches <- Re.findall pattern text ignorecase ;;
      match matches with
      | first :: _ => Ok first
      | [] => extract_dates_loop text rest
      end
  end.

Definition extract_dates (text : str) : res str :=
  extract_dates_loop text (FieldPatterns.get_patterns "date_patterns").

(** The weight loop, threading [gross_weight] and [net_weight]. *)
Fixpoint weights_loop (text : str) (patterns : list str)
    (gross_weight net_weight : str) : res (str * str) :=
  match patterns with
  | [] => Ok (gross_weight, net_weight)
  | pattern :: rest =>
      matches <- Re.findall pattern text ignorecase ;;
      match matches with
      | first :: _ =>
          if contains (raw "GROSS") (upper pattern) then
            weights_loop text rest first net_weight
          else if contains (raw "NET") (upper pattern) then
            weights_loop text rest gross_weight first
          else if negb (truthy gross_weight) then
            weights_loop text rest first net_weight
          else weights_loop text rest gross_weight net_weight
      | [] => weights_loop text rest gross_weight net_weight
      end
  end.

(** The quantity loop: the first pattern that matches decides. *)
Fixpoint quantity_loop (text : str) (patterns : list str) : res str :=
  match patterns with
  | [] => Ok []
  | pattern :: rest =>
      m <- Re.search pattern text ignorecase ;;
      match m with
      | Some mo => strip_of (Re.group1 mo)
      | None => quantity_loop text rest
      end
  end.

Definition extract_weights_quantities (text : str) : res (str * str * str) :=
  let weight_patterns := FieldPatterns.get_patterns "weight_patterns" in
  let quantity_patterns := FieldPatterns.get_patterns "quantity_patterns" in
  '(gross_weight, net_weight) <- weights_loop text weight_patterns [] [] ;;
  quantity <- quantity_loop text quantity_patterns ;;
  Ok (gross_weight, net_weight, quantity).

Definition extract_freight_terms (text : str) : res str :=
  extract_field text "freight_terms".

Definition goods_patterns : list str :=
  [ raw "(?:DESCRIPTION\s*OF\s*GOODS\.?\s*:?\s*)(.*?)(?=\n\s*(?:[A-Z]+:|$))";
    raw "(?:GOODS\.?\s*:?\s*)(.*?)(?=\n\s*(?:[A-Z]+:|$))";
    raw "(?:CARGO\.?\s*:?\s*)(.*?)(?=\n\s*(?:[A-Z]+:|$))" ].

(** The methods [extract_all_fields] reaches through [self] (and through
    the [TableParser] it builds): an instance, a subclass or a patched
    object answers with its own. *)
Record methods := Methods {
  call_extract_bol_number : str -> res str;
  call_extract_parties : str -> res (str * str * str * str * str * str);
  call_extract_vessel_info : str -> res (str * str);
  call_extract_ports : str -> res (str * str);
  call_extract_dates : str -> res str;
  call_extract_weights_quantities : str -> res (str * str * str);
  call_extract_freight_terms : str -> res str;
  call_parse_cargo_description_table : list data_frame -> res str;
  call_clean_field_data : option str -> res str
}.

(** The methods as the class defines them. *)
Definition self : methods :=
  Methods extract_bol_number extract_parties extract_vessel_info
          extract_ports extract_dates extract_weights_quantities
          extract_freight_terms TableParser.parse_cargo_description_table
          clean_field_data_of.

(** A statement of the [try] block: it updates the record and either
    completes or raises, leaving the record as it is at that point. *)
Definition stmt := BOLData -> BOLData * option exn.

Definition skip : stmt := fun b => (b, None).

(** [target = call]: nothing is assigned when the call raises. *)
Definition assign {A} (setter : A -> BOLData -> BOLData) (value : res A) : stmt :=
  fun b =>
    match value with
    | Ok v => (setter v b, None)
    | Raise e => (b, Some e)
    end.

Definition seq (s1 s2 : stmt) : stmt :=
  fun b =>
    match s1 b with
    | (b', None) => s2 b'
    | (b', Some e) => (b', Some e)
    end.

Notation "s1 ;;; s2" := (seq s1 s2) (at level 62, right associativity).

(** The loop over [goods_patterns]: the first pattern that matches decides. *)
Fixpoint goods_loop (this : methods) (text : str) (patterns : list str) : stmt :=
  match patterns with
  | [] => skip
  | pattern :: rest =>
      fun b =>
        match Re.search pattern text field_flags with
        | Raise e => (b, Some e)
        | Ok (Some mo) =>
            assign set_description_of_goods
                   (call_clean_field_data this (Re.group1 mo)) b
        | Ok None => goods_loop this text rest b
        end
  end.

(** The statements of the [try] block of [extract_all_fields], in order. *)
Definition body (this : methods) (text : str) (tables : list data_frame)
  : list stmt :=
  [ assign set_bol_number (call_extract_bol_number this text);
    assign set_parties (call_extract_parties this text);
    assign set_vessel_info (call_extract_vessel_info this text);
    assign set_ports (call_extract_ports this text);
    assign set_date_of_issue (call_extract_dates this text);
    assign set_weights_quantities (call_extract_weights_quantities this text);
    assign set_freight_terms (call_extract_freight_terms this text);
    match tables with
    | _ :: _ => assign set_description_of_goods
                       (call_parse_cargo_description_table this tables)
    | [] => skip
    end;
    fun b => if negb (truthy (description_of_goods b))
             then goods_loop this text goods_patterns b
             else skip b ].

(** Statements run one after the other until one raises. *)
Fixpoint run_stmts (l : list stmt) : stmt :=
  match l with
  | [] => skip
  | s :: rest => s ;;; run_stmts rest
  end.

Definition try_body (this : methods) (text : str) (tables : list data_frame)
  : stmt :=
  run_stmts (body this text tables).

(** The [except Exception as e] handler. *)
Definition handler (e : exn) (b : BOLData) : BOLData :=
  set_processing_notes (py "Extraction error: " ++ exn_str e)
    (set_extraction_failed true b).

(** [extract_all_fields], for any receiver. *)
Definition extract_all_fields_on (this : methods) (text : str)
    (tables : list data_frame) (fname : str) : BOLData :=
  let bol_data := set_filename fname BOLData_new in
  match try_body this text tables bol_data with
  | (b, None) => b
  | (b, Some e) => handler e b
  end.

Definition extract_all_fields (text : str) (tables : list data_frame)
    (fname : str) : BOLData :=
  extract_all_fields_on self text tables fname.

End BOLDataExtractor.

(* ================================================================= *)
(** ** [class ExcelExporter] *)

Module ExcelExporter.

(** A value in a frame. *)
Inductive cell :=
| CStr (s : str)
| CBool (b : bool).

(** A [DataFrame] as the exporter builds it: the column labels and, per
    row, one value per column ([None] where a row has no value). *)
Record frame := Frame { columns : list string; rows : list (list (option cell)) }.

(** [self.column_order] *)
Definition column_order : list string :=
  [ "filename"; "bol_number"; "shipper_name"; "shipper_address";
    "consignee_name"; "consignee_address"; "notify_party_name";
    "notify_party_address"; "vessel_name"; "voyage_number"; "port_of_load";
    "port_of_discharge"; "description_of_goods"; "quantity_packages";
    "gross_weight"; "net_weight"; "freight_terms"; "date_of_issue";
    "extraction_method"; "extraction_confidence"; "processing_notes";
    "extraction_failed" ].

(** The [data_dict] of [create_dataframe], keys in insertion order. *)
Definition data_dict (bol_data : BOLData) : list (string * cell) :=
  [ ("filename", CStr (filename bol_data));
    ("bol_number", CStr (bol_number bol_data));
    ("shipper_name", CStr (shipper_name bol_data));
    ("shipper_address", CStr (shipper_address bol_data));
    ("consignee_name", CStr (consignee_name bol_data));
    ("consignee_address", CStr (consignee_address bol_data));
    ("notify_party_name", CStr (notify_party_name bol_data));
    ("notify_party_address", CStr (notify_party_address bol_data));
    ("vessel_name", CStr (vessel_name bol_data));
    ("voyage_number", CStr (voyage_number bol_data));
    ("port_of_load", CStr (port_of_load bol_data));
    ("port_of_discharge", CStr (port_of_discharge bol_data));
    ("description_of_goods", CStr (description_of_goods bol_data));
    ("quantity_packages", CStr (quantity_packages bol_data));
    ("gross_weight", CStr (gross_weight bol_data));
    ("net_weight", CStr (net_weight bol_data));
    ("freight_terms", CStr (freight_terms bol_data));
    ("date_of_issue", CStr (date_of_issue bol_data));
    ("extraction_method", CStr (raw (extraction_method bol_data)));
    ("extraction_confidence", CStr (raw (extraction_confidence bol_data)));
    ("processing_notes", CStr (processing_notes bol_data));
    ("extraction_failed", CBool (extraction_failed bol_data)) ].

(** [d.get(key)] *)
Definition dict_get (d : list (string * cell)) (key : string) : option cell :=
  match find (fun kv => String.eqb (fst kv) key) d with
  | Some kv => Some (snd kv)
  | None => None
  end.

(** The keys of the dictionaries, each once, in order of first appearance. *)
Fixpoint key_union (seen : list string) (dicts : list (list (string * cell)))
  : list string :=
  match dicts with
  | [] => seen
  | d :: rest =>
      key_union
        (fold_left (fun acc k => if existsb (String.eqb k) acc then acc
                                 else acc ++ [k])
                   (map fst d) seen)
        rest
  end.

(** [pd.DataFrame(data_dicts)] for a list of dictionaries. *)
Definition DataFrame (data_dicts : list (list (string * cell))) : frame :=
  let cols := key_union [] data_dicts in
  Frame cols (map (fun d => map (dict_get d) cols) data_dicts).

Fixpoint index_of (key : string) (cols : list string) : option nat :=
  match cols with
  | [] => None
  | c :: rest =>
      if String.eqb c key then Some 0
      else match index_of key rest with
           | Some i => Some (S i)
           | None => None
           end
  end.

(** [df[labels]]: the listed columns, in the listed order; a label that
    is not a column raises [KeyError]. *)
Definition select (df : frame) (labels : list string) : res frame :=
  if forallb (fun l => match index_of l (columns df) with
                       | Some _ => true
                       | None => false
                       end) labels
  then
    Ok (Frame labels
          (map (fun row =>
                  map (fun l => match index_of l (columns df) with
                                | Some i => nth i row None
                                | None => None
                                end) labels)
               (rows df)))
  else Raise (Exn "KeyError" (raw "not in index")).

Definition create_dataframe (bol_data_list : list BOLData) : res frame :=
  let data_dicts := map data_dict bol_data_list in
  let df := DataFrame data_dicts in
  select df column_order.

(** The [Count] column of the summary sheet of [export_to_excel]. *)
Definition summary_counts (bol_data_list : list BOLData) : list nat :=
  [ List.length bol_data_list;
    List.length (filter (fun x => negb (extraction_failed x)) bol_data_list);
    List.length (filter (fun x => extraction_failed x) bol_data_list);
    List.length (filter (fun x => String.eqb (extraction_method x) "text")
                        bol_data_list);
    List.length (filter (fun x => contains (raw "ocr") (raw (extraction_method x)))
                        bol_data_list);
    List.length (filter (fun x => String.eqb (extraction_confidence x) "high")
                        bol_data_list);
    List.length (filter (fun x => String.eqb (extraction_confidence x) "medium")
                        bol_data_list);
    List.length (filter (fun x => String.eqb (extraction_confidence x) "low")
                        bol_data_list) ].

End ExcelExporter.

(* ================================================================= *)
(** ** [class BOLOCRApp] *)

(** An uploaded file: what the text and OCR collaborators answer for it,
    and what [tabula.read_pdf] answers. *)
Record upload := Upload { up_pdf : pdf_file; up_tables : res (list data_frame) }.

Module BOLOCRApp.

(** The three calls of [process_single_pdf], as the objects held by the
    application answer them; a patched object may raise. *)
Record components := Components {
  call_process_pdf : upload -> str -> res (str * string * string);
  call_extract_tables : upload -> res (list data_frame);
  call_extract_all_fields : str -> list data_frame -> str -> res BOLData
}.

(** [process_single_pdf], for any components. *)
Definition process_single_pdf_on (c : components) (pdf : upload) (fname : str)
  : BOLData :=
  match
    ('(text_content, extraction_method, confidence) <-
        call_process_pdf c pdf fname ;;
     tables <- call_extract_tables c pdf ;;
     bol_data <- call_extract_all_fields c text_content tables fname ;;
     Ok (set_extraction_confidence confidence
           (set_extraction_method extraction_method bol_data)))
  with
  | Ok bol_data => bol_data
  | Raise e =>
      set_processing_notes (py "Processing error: " ++ exn_str e)
        (set_extraction_failed true (set_filename fname BOLData_new))
  end.

(** The application: its [PDFProcessor]; the other objects have no state. *)
Record t := Build { pdf_processor : PDFProcessor.t }.

(** [BOLOCRApp()] *)
Definition new : t := Build PDFProcessor.new.

(** The components as the classes define them. *)
Definition components_of (self : t) : components :=
  Components
    (fun pdf _ => Ok (fst (PDFProcessor.process_pdf (pdf_processor self) (up_pdf pdf))))
    (fun pdf => Ok (TableParser.extract_tables (up_tables pdf)))
    (fun text tables fname =>
       Ok (BOLDataExtractor.extract_all_fields text tables fname)).

Definition process_single_pdf (self : t) (pdf : upload) (fname : str) : BOLData :=
  process_single_pdf_on (components_of self) pdf fname.

(** [process_batch_pdfs]: one call of [process_single_pdf] per file, the
    results appended in turn. *)
Definition process_batch_pdfs_on (single : upload -> str -> BOLData)
    (files : list (upload * str)) : list BOLData :=
  map (fun f => single (fst f) (snd f)) files.

Definition process_batch_pdfs (self : t) (files : list (upload * str))
  : list BOLData :=
  process_batch_pdfs_on (process_single_pdf self) files.

End BOLOCRApp.

(* ================================================================= *)
(** ** Plain counterparts of the regular-expression calls *)

Module Plain.

Import Re.

(** The positions a greedy run of characters passing [p] can stop at,
    the longest run first and the empty run last. *)
Fixpoint greedy_states (p : ascii -> bool) (prev : option ascii) (t : str)
    (cap : option str) : list mstate :=
  match t with
  | c :: t' =>
      if p c then greedy_states p (Some c) t' cap ++ [MState prev t cap]
      else [MState prev t cap]
  | [] => [MState prev t cap]
  end.

(** The character before the place where the longest run stops. *)
Fixpoint last_prev (p : ascii -> bool) (prev : option ascii) (t : str)
  : option ascii :=
  match t with
  | c :: t' => if p c then last_prev p (Some c) t' else prev
  | [] => prev
  end.

Definition head_space (t : str) : bool :=
  match t with c :: _ => isspace c | [] => false end.

(** Every run of white space becomes one blank: [re.sub(r'\s+', ' ', t)]. *)
Fixpoint collapse (t : str) : str :=
  match t with
  | [] => []
  | c :: t' =>
      if isspace c then
        if head_space t' then collapse t' else " "%char :: collapse t'
      else c :: collapse t'
  end.

(** A repetition of a one-character test, by recursion on the subject:
    what [repeat_loop] computes when every round eats one character. *)
Fixpoint rep_atom (p : ascii -> bool) (greedy : bool) (lo : nat)
    (hi : option nat) (prev : option ascii) (t : str) (cap : option str)
  : list mstate :=
  match lo with
  | S lo' =>
      match t with
      | c :: t' =>
          if p c then rep_atom p greedy lo' (hi_pred hi) (Some c) t' cap else []
      | [] => []
      end
  | 0 =>
      if hi_zero hi then [MState prev t cap]
      else
        let more :=
          match t with
          | c :: t' =>
              if p c then rep_atom p greedy 0 (hi_pred hi) (Some c) t' cap else []
          | [] => []
          end in
        if greedy then more ++ [MState prev t cap] else MState prev t cap :: more
  end.

(** The test a one-character pattern makes, if [r] is one. *)
Definition atom_test (fl : flags) (r : regex) : option (ascii -> bool) :=
  match r with
  | RLit x => Some (lit_match fl x)
  | RAny => Some (any_match fl)
  | RSet neg items => Some (set_match fl neg items)
  | _ => None
  end.

(** [run], with the repetitions of one-character patterns computed by
    [rep_atom]. *)
Fixpoint run_direct (fl : flags) (r : regex) (s : mstate) : list mstate :=
  match r with
  | REmpty => [s]
  | RLit x => eat (lit_match fl x) s
  | RAny => eat (any_match fl) s
  | RSet neg items => eat (set_match fl neg items) s
  | RBol => if at_bol fl s then [s] else []
  | REol => if at_eol fl s then [s] else []
  | RSeq a b => flat_map (run_direct fl b) (run_direct fl a s)
  | RAlt a b => run_direct fl a s ++ run_direct fl b s
  | RRep greedy lo hi a =>
      match atom_test fl a with
      | Some p => rep_atom p greedy lo hi (m_prev s) (m_rest s) (m_cap s)
      | None =>
          repeat_loop (run_direct fl a) greedy
                      (S (lo + List.length (m_rest s))) lo hi s
      end
  | RGroup a =>
      map (fun s' => MState (m_prev s') (m_rest s')
                            (Some (between (m_rest s) (m_rest s'))))
          (run_direct fl a s)
  | RLook a =>
      match run_direct fl a s with
      | s' :: _ => [MState (m_prev s) (m_rest s) (m_cap s')]
      | [] => []
      end
  end.

(** The character before the place reached after reading [pre]. *)
Definition prev_at (prev : option ascii) (pre : str) : option ascii :=
  fold_left (fun _ c => Some c) pre prev.

(** [r] matches at no position inside [pre], the subject being
    [pre ++ rest] and [prev] the character before it. *)
Definition nowhere_in (fl : flags) (r : regex) (prev : option ascii)
    (pre rest : str) : Prop :=
  forall a c b, pre = a ++ c :: b ->
    run fl r (MState (prev_at prev a) (c :: b ++ rest) None) = [].

(** [nowhere_in], decided by trying every position of [pre]. *)
Fixpoint nowhere_inb (fl : flags) (r : regex) (prev : option ascii)
    (pre rest : str) : bool :=
  match pre with
  | [] => true
  | c :: pre' =>
      match run fl r (MState prev (pre ++ rest) None) with
      | [] => nowhere_inb fl r (Some c) pre' rest
      | _ :: _ => false
      end
  end.

(** The parsed form of a pattern that parses. *)
Definition ast_of (pattern : str) : regex :=
  match compile pattern with
  | Ok r => r
  | Raise _ => REmpty
  end.

(** A right-nested sequence continued by [b]. *)
Fixpoint seq_app (a b : regex) : regex :=
  match a with
  | REmpty => b
  | RSeq x y => RSeq x (seq_app y b)
  | _ => RSeq a b
  end.

(** [NET\s*], what the NET pattern has before the generic WEIGHT pattern. *)
Definition net_lead : regex :=
  RSeq (RLit "N") (RSeq (RLit "E") (RSeq (RLit "T")
    (RSeq (RRep true 0 None (RSet false [CSpace])) REmpty))).

(** The first character of [t] passes [p]. *)
Definition head_passes (p : ascii -> bool) (t : str) : bool :=
  match t with c :: _ => p c | [] => false end.

(** The characters of the set [[:\-\s]]. *)
Definition separator (c : ascii) : bool :=
  Ascii.eqb c ":" || Ascii.eqb c "-" || isspace c.

(** What [clean_field_data] computes. *)
Definition cleaned (data : str) : str :=
  drop_trailing separator (dropwhile separator (collapse (strip data))).

(** White space occurs only as single blanks. *)
Fixpoint tidy (t : str) : bool :=
  match t with
  | [] => true
  | c :: t' =>
      (if isspace c then Ascii.eqb c " " && negb (head_space t') else true)
      && tidy t'
  end.

(** The three patterns of [clean_field_data], parsed. *)
Definition ws_plus : regex := RSeq (RRep true 1 None (RSet false [CSpace])) REmpty.
Definition sep_set : list citem := [CLit ":"; CLit "-"; CSpace].
Definition sep_head : regex :=
  RSeq RBol (RSeq (RRep true 1 None (RSet false sep_set)) REmpty).
Definition sep_tail : regex :=
  RSeq (RRep true 1 None (RSet false sep_set)) (RSeq REol REmpty).

(** The least number of characters a match of [r] spans. *)
Fixpoint min_len (r : regex) : nat :=
  match r with
  | RLit _ | RAny | RSet _ _ => 1
  | RSeq a b => min_len a + min_len b
  | RAlt a b => Nat.min (min_len a) (min_len b)
  | RRep _ lo _ a => lo * min_len a
  | RGroup a => min_len a
  | _ => 0
  end.

(** [Some k] when every match of [r] leaves group 1 set, to a text of at
    least [k] characters. *)
Fixpoint cap_min (r : regex) : option nat :=
  match r with
  | RGroup a => Some (min_len a)
  | RSeq a b =>
      match cap_min b with
      | Some k => Some k
      | None => if Nat.eqb (count_groups b) 0 then cap_min a else None
      end
  | RAlt a b =>
      match cap_min a, cap_min b with
      | Some k, Some l => Some (Nat.min k l)
      | _, _ => None
      end
  | RRep _ (S _) _ a => cap_min a
  | RLook a => cap_min a
  | _ => None
  end.

(** The capture is set, to at least [k] characters. *)
Definition captured (k : nat) (c : option str) : Prop :=
  exists g, c = Some g /\ k <= List.length g.

(** The patterns of the catalog, all field types together. *)
Definition catalog : list str := flat_map snd FieldPatterns.patterns.

Definition compiles_with_group (pattern : str) : bool :=
  match compile pattern with
  | Ok r => match cap_min r with Some _ => true | None => false end
  | Raise _ => false
  end.

End Plain.

(* ================================================================= *)
(** ** Vocabulary of the specification *)

Module Spec.

Import PDFProcessor.

(** [keyword] occurs in [text] when case is ignored. *)
Definition occurs_ignoring_case (keyword text : str) : Prop :=
  exists before middle after,
    text = before ++ middle ++ after /\ upper middle = upper keyword.

(** The text names at least one of SHIPPER, CONSIGNEE, VESSEL, B/L, BOL. *)
Definition has_keywords (text : str) : Prop :=
  exists keyword, In keyword keywords /\ occurs_ignoring_case keyword text.

(** The text has more than five newline characters. *)
Definition has_structure (text : str) : Prop := 5 < count nl text.

(** The text each stage hands to the selector (empty when the stage
    raised), and the confidence of step 2. *)
Definition native_text (self : PDFProcessor.t) (pdf : pdf_file) : str :=
  fst (extract_text_pdfplumber self pdf).
Definition ocr_text (self : PDFProcessor.t) (pdf : pdf_file) : str :=
  fst (extract_text_ocr self pdf).
Definition native_confidence (self : PDFProcessor.t) (pdf : pdf_file) : string :=
  assess_text_quality (native_text self pdf).

(** The OCR stage ran to its end without raising. *)
Definition ocr_completed (pdf : pdf_file) : Prop :=
  exists text, (_ <- import_fitz pdf ;;
                pages <- plumber_ocr pdf ;;
                ocr_pages pages []) = Ok text.

(** [r] and [b] agree on every attribute but the failure flag and the
    notes. *)
Definition same_fields (r b : BOLData) : Prop :=
  filename r = filename b /\
  bol_number r = bol_number b /\
  shipper_name r = shipper_name b /\
  shipper_address r = shipper_address b /\
  consignee_name r = consignee_name b /\
  consignee_address r = consignee_address b /\
  notify_party_name r = notify_party_name b /\
  notify_party_address r = notify_party_address b /\
  vessel_name r = vessel_name b /\
  voyage_number r = voyage_number b /\
  port_of_load r = port_of_load b /\
  port_of_discharge r = port_of_discharge b /\
  description_of_goods r = description_of_goods b /\
  quantity_packages r = quantity_packages b /\
  gross_weight r = gross_weight b /\
  net_weight r = net_weight b /\
  freight_terms r = freight_terms b /\
  date_of_issue r = date_of_issue b /\
  extraction_method r = extraction_method b /\
  extraction_confidence r = extraction_confidence b.

(** [pattern] matches somewhere in [text] and its group holds [g], which
    is not blank. *)
Definition matches_with (text pattern g : str) : Prop :=
  exists mo, Re.search pattern text BOLDataExtractor.field_flags = Ok (Some mo) /\
             Re.group1 mo = Some g /\ strip g <> [].

(** [pattern] matches nowhere in [text], or its group is blank. *)
Definition no_result (text pattern : str) : Prop :=
  Re.search pattern text BOLDataExtractor.field_flags = Ok None \/
  exists mo g, Re.search pattern text BOLDataExtractor.field_flags = Ok (Some mo) /\
               Re.group1 mo = Some g /\ strip g = [].

(** The three weight patterns of the catalog. *)
Definition gross_pattern : str :=
  raw "(?:GROSS\s*WEIGHT\.?\s*:?\s*)([0-9,.\s]+(?:KG|LBS|MT|TON))".
Definition net_pattern : str :=
  raw "(?:NET\s*WEIGHT\.?\s*:?\s*)([0-9,.\s]+(?:KG|LBS|MT|TON))".
Definition weight_pattern : str :=
  raw "(?:WEIGHT\.?\s*:?\s*)([0-9,.\s]+(?:KG|LBS|MT|TON))".

(** The label and the value part of the generic WEIGHT pattern. *)
Definition weight_label : Re.regex :=
  match Plain.ast_of weight_pattern with Re.RSeq a _ => a | _ => Re.REmpty end.
Definition weight_value : Re.regex :=
  match Plain.ast_of weight_pattern with Re.RSeq _ b => b | _ => Re.REmpty end.

(** [pattern] matches at no position inside [pre], the subject being
    [pre ++ rest]: [pattern.match(text, i)] is [None] for every [i] below
    [len(pre)]. *)
Definition no_match_inside (pattern : str) (fl : Re.flags) (pre rest : str)
  : Prop :=
  exists r, Re.compile pattern = Ok r /\ Plain.nowhere_in fl r None pre rest.

End Spec.

(* ================================================================= *)
(** ** Vocabulary for the remaining methods *)

Module Cover.

(** What the page loop of [extract_text_pdfplumber] collects from pages
    that answer: the text of each page that has some, each followed by a
    newline. *)
Definition page_texts (pages : list (option str)) : str :=
  flat_map (fun page => match page with
                        | Some txt => if truthy txt then txt ++ [nl] else []
                        | None => []
                        end) pages.

(** What the page loop of [extract_text_ocr] collects: the text read on
    each page, followed by a newline. *)
Definition ocr_texts (pages : list str) : str :=
  flat_map (fun txt => txt ++ [nl]) pages.

(** The labels of the columns [parse_cargo_description_table] reads in a
    table. *)
Definition description_labels (table : data_frame) : list str :=
  filter TableParser.is_description (map fst table).

(** No two of those columns carry the same label. *)
Definition distinct_labels (table : data_frame) : Prop :=
  NoDup (description_labels table).

(** The values of the columns that carry a given label. *)
Definition cells_of (table : data_frame) (label : str) : list str :=
  flat_map (fun c => if str_eqb (fst c) label then TableParser.dropna (snd c)
                     else []) table.

(** All the values [parse_cargo_description_table] collects. *)
Definition cargo_cells (tables : list data_frame) : list str :=
  flat_map (fun table => flat_map (cells_of table) (description_labels table))
           tables.

(** [a] and [b] agree on the attributes no statement of the [try] block
    of [extract_all_fields] writes. *)
Definition untouched (a b : BOLData) : Prop :=
  filename a = filename b /\
  extraction_method a = extraction_method b /\
  extraction_confidence a = extraction_confidence b /\
  processing_notes a = processing_notes b /\
  extraction_failed a = extraction_failed b.

(** What the description columns of the tables hold, joined. *)
Definition table_description (tables : list data_frame) : str :=
  join (raw "; ") (cargo_cells tables).

(** The records of a batch that carry a given method label. *)
Definition with_method (label : string) (l : list BOLData) : list BOLData :=
  filter (fun x => String.eqb (extraction_method x) label) l.

(** Reading a record back from a row of the exported frame. *)
Definition record_of_row (row : list (option ExcelExporter.cell))
  : option BOLData :=
  match map (fun c => match c with
                      | Some (ExcelExporter.CStr s) => Some s
                      | _ => None
                      end) (firstn 21 row),
        skipn 21 row with
  | [Some a0; Some a1; Some a2; Some a3; Some a4; Some a5; Some a6; Some a7;
     Some a8; Some a9; Some a10; Some a11; Some a12; Some a13; Some a14;
     Some a15; Some a16; Some a17; Some a18; Some a19; Some a20],
    [Some (ExcelExporter.CBool a21)] =>
      Some (mkBOLData a0 a1 a2 a3 a4 a5 a6 a7 a8 a9 a10 a11 a12 a13 a14 a15
              a16 a17 (string_of_list_ascii a18) (string_of_list_ascii a19)
              a20 a21)
  | _, _ => None
  end.

(** Every character there is. *)
Definition all_ascii : list ascii := map ascii_of_nat (seq 0 256).

(** Every character that passes [test] passes [p]. *)
Definition only (test p : ascii -> bool) : bool :=
  forallb (fun c => implb (test c) (p c)) all_ascii.

(** Every character a match of [r] consumes passes [p]. *)
Fixpoint eats (fl : Re.flags) (p : ascii -> bool) (r : Re.regex) : bool :=
  match r with
  | Re.RLit x => only (Re.lit_match fl x) p
  | Re.RAny => only (Re.any_match fl) p
  | Re.RSet neg items => only (Re.set_match fl neg items) p
  | Re.RSeq a b | Re.RAlt a b => eats fl p a && eats fl p b
  | Re.RRep _ _ _ a | Re.RGroup a => eats fl p a
  | _ => true
  end.

(** Every character the group of [r] captures passes [p]. *)
Fixpoint cap_eats (fl : Re.flags) (p : ascii -> bool) (r : Re.regex) : bool :=
  match r with
  | Re.RGroup a => eats fl p a
  | Re.RSeq a b | Re.RAlt a b => cap_eats fl p a && cap_eats fl p b
  | Re.RRep _ _ _ a | Re.RLook a => cap_eats fl p a
  | _ => true
  end.

(** The capture, when set, holds only characters that pass [p]. *)
Definition cap_passes (p : ascii -> bool) (c : option str) : Prop :=
  forall g, c = Some g -> forallb p g = true.

(** From [s] to [s'] the subject holds only characters that pass [p]. *)
Definition spans (p : ascii -> bool) (s s' : Re.mstate) : Prop :=
  exists w, Re.m_rest s = w ++ Re.m_rest s' /\ forallb p w = true.


(** The characters of a quantity. *)
Definition quantity_char (c : ascii) : bool :=
  isdigit c || Ascii.eqb c "," || Ascii.eqb c "." || isspace c.

(** The characters of a date. *)
Definition date_char (c : ascii) : bool :=
  Re.is_alnum c || Ascii.eqb c "/" || Ascii.eqb c "-" || Ascii.eqb c ","
  || isspace c.





(** The form of a cleaned text: its only white space is single blanks, and
    it neither starts nor ends with a colon, a hyphen or white space. *)
Definition clean_form (v : str) : Prop :=
  (forall c, In c v -> isspace c = true -> c = " "%char) /\
  (forall pre a b post, v = pre ++ a :: b :: post ->
     isspace a = true -> isspace b = false) /\
  (forall c rest, v = c :: rest -> Plain.separator c = false) /\
  (forall pre c, v = pre ++ [c] -> Plain.separator c = false).

(** The record the handler of [process_single_pdf] builds. *)
Definition blank_failure (fname : str) (e : exn) : BOLData :=
  mkBOLData fname [] [] [] [] [] [] [] [] [] [] [] [] [] [] [] [] []
            "" "medium" (py "Processing error: " ++ exn_str e) true.

End Cover.

(* ================================================================= *)
(** * Proofs *)

(** ** The quality assessor and the method selector *)

Section Selector.

Import PDFProcessor Spec.

Lemma startswith_app (p s : str) :
  startswith p s = true <-> exists rest, s = p ++ rest.
Proof.
  revert s; induction p as [|a p IH]; intros s; simpl.
  - split; [intros _; exists s; reflexivity | reflexivity].
  - destruct s as [|b s]; simpl.
    + split; [discriminate | intros [r Hr]; discriminate].
    + rewrite andb_true_iff, Ascii.eqb_eq, IH. split.
      * intros [-> [r ->]]. exists r; reflexivity.
      * intros [r Hr]. injection Hr as -> ->. split; [reflexivity | exists r; reflexivity].
Qed.

Lemma contains_app (needle hay : str) :
  contains needle hay = true <-> exists before after, hay = before ++ needle ++ after.
Proof.
  induction hay as [|c hay IH]; simpl.
  - rewrite orb_false_r, startswith_app. split.
    + intros [r Hr]. exists [], r. exact Hr.
    + intros [b [a Ha]]. destruct b as [|x b]; [exists a; exact Ha | discriminate].
  - rewrite orb_true_iff, startswith_app, IH. split.
    + intros [[r Hr] | [b [a Ha]]].
      * exists [], r. exact Hr.
      * exists (c :: b), a. simpl. rewrite Ha. reflexivity.
    + intros [b [a Ha]]. destruct b as [|x b].
      * left. exists a. exact Ha.
      * right. injection Ha as _ Ha. exists b, a. exact Ha.
Qed.

(** The test [keyword in text.upper()] finds exactly the case-blind
    occurrences of a keyword written in capitals. *)
Lemma keyword_in_upper (keyword text : str) :
  upper keyword = keyword ->
  contains keyword (upper text) = true <-> occurs_ignoring_case keyword text.
Proof.
  intros Hk. rewrite contains_app. unfold occurs_ignoring_case, upper in *. split.
  - intros [b [a Hba]].
    apply map_eq_app in Hba as [b' [r [-> [Hb Hr]]]].
    apply map_eq_app in Hr as [m' [a' [-> [Hm Ha]]]].
    exists b', m', a'. split; [reflexivity | congruence].
  - intros [b [m [a [-> Hm]]]].
    exists (map upper_char b), (map upper_char a).
    rewrite !map_app. congruence.
Qed.

Lemma has_structured_fields_spec (text : str) :
  has_structured_fields text = true <-> has_keywords text.
Proof.
  unfold has_structured_fields, has_keywords. rewrite existsb_exists. split.
  - intros [k [Hin Hc]]. exists k. split; [exact Hin|].
    apply keyword_in_upper; [|exact Hc].
    simpl in Hin. decompose [or] Hin; subst; try reflexivity; contradiction.
  - intros [k [Hin Hc]]. exists k. split; [exact Hin|].
    apply keyword_in_upper; [|exact Hc].
    simpl in Hin. decompose [or] Hin; subst; try reflexivity; contradiction.
Qed.

Lemma has_addresses_spec (text : str) :
  has_addresses text = true <-> has_structure text.
Proof. unfold has_addresses, has_structure. apply Nat.ltb_lt. Qed.

(** C5. For every text, [assess_text_quality] answers [low] when the
    trimmed text has fewer than 50 characters; otherwise [high] when the
    text both names a keyword (SHIPPER, CONSIGNEE, VESSEL, B/L, BOL, case
    ignored) and has more than five newlines, [medium] when exactly one of
    the two holds, and [low] when neither does. *)
Theorem assess_text_quality_rule (text : str) :
  (List.length (strip text) < 50 -> assess_text_quality text = "low") /\
  (50 <= List.length (strip text) ->
     (has_keywords text /\ has_structure text ->
        assess_text_quality text = "high") /\
     ((has_keywords text /\ ~ has_structure text) \/
      (~ has_keywords text /\ has_structure text) ->
        assess_text_quality text = "medium") /\
     (~ has_keywords text /\ ~ has_structure text ->
        assess_text_quality text = "low")).
Proof.
  unfold assess_text_quality.
  pose proof (has_structured_fields_spec text) as Hk.
  pose proof (has_addresses_spec text) as Hs.
  destruct (Nat.ltb_spec (List.length (strip text)) 50) as [Hlt|Hge].
  - split; [reflexivity | intros; lia].
  - split; [intros; lia | intros _].
    assert (Hk' : has_structured_fields text = false -> ~ has_keywords text)
      by (intros E X; apply Hk in X; congruence).
    assert (Hs' : has_addresses text = false -> ~ has_structure text)
      by (intros E X; apply Hs in X; congruence).
    destruct (has_structured_fields text), (has_addresses text); simpl;
      (repeat split; [ try reflexivity .. ]);
      try (specialize (Hk' eq_refl)); try (specialize (Hs' eq_refl));
      try (assert (has_keywords text) by (apply Hk; reflexivity));
      try (assert (has_structure text) by (apply Hs; reflexivity));
      tauto.
Qed.

(** The rule at work: a five-character text, a keyword-bearing text of
    seven lines, and a long line that only names a keyword. *)
Lemma assess_text_quality_rule_witness :
  assess_text_quality (py "Short") = "low" /\
  assess_text_quality
    (py "SHIPPER: Test Company\n123 Main Street\nCONSIGNEE: Destination Corp\n456 Oak Avenue\nVESSEL: Test Ship\nB/L NUMBER: TST123456\n")
    = "high" /\
  assess_text_quality
    (py "This document contains VESSEL information and BOL details")
    = "medium".
Proof.
  split; [|split].
  - apply (proj1 (assess_text_quality_rule (py "Short"))). vm_compute. lia.
  - apply (proj2 (assess_text_quality_rule _)); [vm_compute; lia|]. split.
    + apply has_structured_fields_spec. reflexivity.
    + apply has_addresses_spec. reflexivity.
  - apply (proj2 (assess_text_quality_rule _)); [vm_compute; lia|]. left. split.
    + apply has_structured_fields_spec. reflexivity.
    + intros H. apply has_addresses_spec in H. discriminate.
Defined.

(** What the success flag of either stage says about the text it returns. *)
Lemma text_success_true (self : PDFProcessor.t) (pdf : pdf_file) :
  (min_text_threshold self <= len (strip (native_text self pdf)))%Z ->
  native_confidence self pdf <> "low" ->
  snd (extract_text_pdfplumber self pdf) = true.
Proof.
  unfold native_confidence, native_text, extract_text_pdfplumber.
  destruct (pages <- plumber_text pdf ;; text_pages pages []) as [txt|e]; simpl.
  - intros H _. apply Z.geb_le. exact H.
  - intros _ H. exfalso. apply H. reflexivity.
Qed.

Lemma text_success_false (self : PDFProcessor.t) (pdf : pdf_file) :
  (len (strip (native_text self pdf)) < min_text_threshold self)%Z ->
  snd (extract_text_pdfplumber self pdf) = false.
Proof.
  unfold native_text, extract_text_pdfplumber.
  destruct (pages <- plumber_text pdf ;; text_pages pages []) as [txt|e]; simpl.
  - intros H. rewrite Z.geb_leb. apply Z.leb_gt. exact H.
  - reflexivity.
Qed.

Lemma ocr_success_true (self : PDFProcessor.t) (pdf : pdf_file) :
  (0 < min_text_threshold self)%Z \/ ocr_completed pdf ->
  (min_text_threshold self <= len (strip (ocr_text self pdf)))%Z ->
  snd (extract_text_ocr self pdf) = true.
Proof.
  unfold ocr_completed, ocr_text, extract_text_ocr.
  destruct (_ <- import_fitz pdf ;; pages <- plumber_ocr pdf ;; ocr_pages pages [])
    as [txt|e]; simpl.
  - intros _ H. apply Z.geb_le. exact H.
  - intros [Hpos | [txt Htxt]] H; [|discriminate].
    unfold len in H. simpl in H. lia.
Qed.

Lemma ocr_success_false (self : PDFProcessor.t) (pdf : pdf_file) :
  (len (strip (ocr_text self pdf)) < min_text_threshold self)%Z ->
  snd (extract_text_ocr self pdf) = false.
Proof.
  unfold ocr_text, extract_text_ocr.
  destruct (_ <- import_fitz pdf ;; pages <- plumber_ocr pdf ;; ocr_pages pages [])
    as [txt|e]; simpl.
  - intros H. rewrite Z.geb_leb. apply Z.leb_gt. exact H.
  - reflexivity.
Qed.

Lemma truthy_nonempty (s : str) : s <> [] -> truthy s = true.
Proof. destruct s; [congruence | reflexivity]. Qed.

(** [process_pdf] in terms of the two success flags. *)
Lemma process_pdf_unfold (self : PDFProcessor.t) (pdf : pdf_file) :
  process_pdf self pdf =
  let native := native_text self pdf in
  let confidence := native_confidence self pdf in
  if negb (snd (extract_text_pdfplumber self pdf)) || String.eqb confidence "low"
  then
    if snd (extract_text_ocr self pdf) then
      ((ocr_text self pdf, "ocr", assess_text_quality (ocr_text self pdf)),
       [CallText; CallOCR])
    else if truthy native then
      ((native, "text_fallback", confidence), [CallText; CallOCR])
    else ((native, "text", confidence), [CallText; CallOCR])
  else ((native, "text", confidence), [CallText]).
Proof.
  unfold process_pdf, native_confidence, native_text, ocr_text.
  destruct (extract_text_pdfplumber self pdf) as [t b].
  destruct (extract_text_ocr self pdf) as [o c]. reflexivity.
Qed.

(** C4. The cascade of [process_pdf], for every processor and document:
    (i) when the trimmed native text reaches the threshold and its
    confidence is not [low], OCR is not called and the native text is
    returned with method [text]; (ii) when the trimmed native text is
    below the threshold or the confidence is [low], OCR is called, and an
    OCR text whose trimmed length reaches the threshold is adopted with
    method [ocr] and the confidence of the OCR text; (iii) when OCR falls
    short and the native text is not empty, the native text is kept with
    method [text_fallback] and the confidence of step 2.  In (ii) the
    threshold is positive, or else the OCR stage has not raised: a stage
    that raises hands over the empty text with its success flag down. *)
Theorem process_pdf_cascade (self : PDFProcessor.t) (pdf : pdf_file) :
  let threshold := min_text_threshold self in
  let native := native_text self pdf in
  let ocr := ocr_text self pdf in
  let confidence := native_confidence self pdf in
  ((threshold <= len (strip native))%Z -> confidence <> "low" ->
     process_pdf self pdf = ((native, "text", confidence), [CallText])) /\
  ((len (strip native) < threshold)%Z \/ confidence = "low" ->
     In CallOCR (snd (process_pdf self pdf)) /\
     ((0 < threshold)%Z \/ ocr_completed pdf ->
      (threshold <= len (strip ocr))%Z ->
        fst (process_pdf self pdf) = (ocr, "ocr", assess_text_quality ocr)) /\
     ((len (strip ocr) < threshold)%Z -> native <> [] ->
        fst (process_pdf self pdf) = (native, "text_fallback", confidence))).
Proof.
  intros threshold native ocr confidence. rewrite process_pdf_unfold.
  fold native confidence ocr. cbv zeta. split.
  - intros Hlen Hconf. rewrite (text_success_true self pdf Hlen Hconf).
    apply String.eqb_neq in Hconf. fold confidence in Hconf. rewrite Hconf.
    reflexivity.
  - intros Hfall.
    assert (Hcond : negb (snd (extract_text_pdfplumber self pdf))
                    || String.eqb confidence "low" = true).
    { destruct Hfall as [Hlt | Hlow].
      - rewrite (text_success_false self pdf Hlt). reflexivity.
      - rewrite Hlow. apply orb_true_r. }
    rewrite Hcond. repeat split.
    + destruct (snd (extract_text_ocr self pdf)); [|destruct (truthy native)];
        simpl; auto.
    + intros Hok Hlen. rewrite (ocr_success_true self pdf Hok Hlen). reflexivity.
    + intros Hshort Hne. rewrite (ocr_success_false self pdf Hshort).
      rewrite (truthy_nonempty native Hne). reflexivity.
Qed.

(** The three branches on three documents: three lines of native text;
    a scan whose OCR gives three lines; a single native line whose OCR
    raises. *)
Lemma process_pdf_cascade_witness :
  let line := py "SHIPPER: Some company with basic structure" in
  let good := repeat (Ok (Some line)) 3 in
  let scanned := repeat (Ok line) 3 in
  let oops := Raise (Exn "TesseractError" (py "no engine")) in
  snd (process_pdf new (PdfFile (Ok tt) (Ok good) (Ok scanned))) = [CallText] /\
  snd (fst (fst (process_pdf new (PdfFile (Ok tt) (Ok []) (Ok scanned))))) = "ocr" /\
  snd (fst (fst (process_pdf new (PdfFile (Ok tt) (Ok [Ok (Some line)]) oops))))
    = "text_fallback".
Proof.
  intros line good scanned oops. split; [|split].
  - rewrite (proj1 (process_pdf_cascade new (PdfFile (Ok tt) (Ok good) (Ok scanned)))).
    + reflexivity.
    + vm_compute. discriminate.
    + vm_compute. discriminate.
  - destruct (proj2 (process_pdf_cascade new (PdfFile (Ok tt) (Ok []) (Ok scanned))))
      as [_ [H _]].
    + left. vm_compute. reflexivity.
    + rewrite H; [reflexivity | left; reflexivity | vm_compute; discriminate].
  - destruct (proj2 (process_pdf_cascade new
                       (PdfFile (Ok tt) (Ok [Ok (Some line)]) oops)))
      as [_ [_ H]].
    + left. vm_compute. reflexivity.
    + rewrite H; [reflexivity | vm_compute; reflexivity | vm_compute; discriminate].
Defined.

(** When the native text is empty and OCR falls short, the label that
    comes back is the initial [text], with confidence [low]. *)
Lemma process_pdf_both_insufficient (self : PDFProcessor.t) (pdf : pdf_file) :
  native_text self pdf = [] ->
  snd (extract_text_ocr self pdf) = false ->
  process_pdf self pdf = (([], "text", "low"), [CallText; CallOCR]).
Proof.
  intros Hn Ho. rewrite process_pdf_unfold. unfold native_confidence.
  rewrite Hn, Ho. cbv zeta. rewrite orb_true_r. reflexivity.
Qed.

(** C2. A file without text pages whose OCR reads only [Short]: native
    text empty, OCR below the threshold of 100.  [process_pdf] answers
    with the empty text, the method label [text] and confidence [low];
    the label is not [ocr]. *)
Theorem process_pdf_both_fail_labels_text :
  let pdf := PdfFile (Ok tt) (Ok []) (Ok [Ok (py "Short")]) in
  Spec.native_text new pdf = [] /\
  (len (strip (Spec.ocr_text new pdf)) < min_text_threshold new)%Z /\
  process_pdf new pdf = (([], "text", "low"), [CallText; CallOCR]).
Proof. vm_compute. repeat split. Qed.

End Selector.

(** ** Failure containment in [extract_all_fields] *)

Section Containment.

Import BOLDataExtractor Spec.

Lemma run_stmts_app (done rest : list stmt) (b : BOLData) :
  run_stmts (done ++ rest) b =
  match run_stmts done b with
  | (b', None) => run_stmts rest b'
  | (b', Some e) => (b', Some e)
  end.
Proof.
  revert b; induction done as [|s done IH]; intros b; simpl.
  - reflexivity.
  - unfold seq. destruct (s b) as [b' [e|]]; [reflexivity | apply IH].
Qed.

Lemma assign_raises {A} (setter : A -> BOLData -> BOLData) (value : res A)
    (b : BOLData) (e : exn) :
  snd (assign setter value b) = Some e -> fst (assign setter value b) = b.
Proof. unfold assign. destruct value; simpl; [discriminate | reflexivity]. Qed.

Lemma goods_loop_raises (this : methods) (text : str) (patterns : list str)
    (b : BOLData) (e : exn) :
  snd (goods_loop this text patterns b) = Some e ->
  fst (goods_loop this text patterns b) = b.
Proof.
  induction patterns as [|p ps IH]; simpl.
  - discriminate.
  - destruct (Re.search p text field_flags) as [[mo|]|e']; simpl.
    + apply assign_raises.
    + exact IH.
    + reflexivity.
Qed.

(** A statement of the block that raises leaves the record as it found it. *)
Lemma body_stmt_raises (this : methods) (text : str) (tables : list data_frame)
    (s : stmt) (b : BOLData) (e : exn) :
  In s (body this text tables) -> snd (s b) = Some e -> fst (s b) = b.
Proof.
  intros Hin. unfold body in Hin. cbn [In] in Hin.
  repeat (destruct Hin as [<- | Hin]; [try apply assign_raises|]);
    try contradiction.
  - destruct tables; [discriminate | apply assign_raises].
  - destruct (negb (truthy (description_of_goods b)));
      [apply goods_loop_raises | discriminate].
Qed.

Lemma handler_fields (e : exn) (b : BOLData) :
  extraction_failed (handler e b) = true /\
  processing_notes (handler e b) = py "Extraction error: " ++ exn_str e /\
  same_fields (handler e b) b.
Proof. destruct b. unfold same_fields. simpl. repeat split. Qed.

Lemma contains_suffix (a b : str) : contains b (a ++ b) = true.
Proof.
  apply contains_app. exists a, []. rewrite app_nil_r. reflexivity.
Qed.

(** C7. Whatever the receiver's methods do: when the statements [done] of
    the [try] block have completed, leaving the record [b1], and the next
    statement raises [e], [extract_all_fields] still returns a record; its
    failure flag is set, its notes are ["Extraction error: " + str(e)]
    (not empty, and containing [str(e)]), and every other attribute is as
    in [b1], that is, as assigned before the exception. *)
Theorem extract_all_fields_contains_failure
    (this : methods) (text : str) (tables : list data_frame) (fname : str)
    (done rest : list stmt) (s : stmt) (b1 : BOLData) (e : exn) :
  body this text tables = done ++ s :: rest ->
  run_stmts done (set_filename fname BOLData_new) = (b1, None) ->
  snd (s b1) = Some e ->
  let r := extract_all_fields_on this text tables fname in
  extraction_failed r = true /\
  processing_notes r = py "Extraction error: " ++ exn_str e /\
  processing_notes r <> [] /\
  contains (exn_str e) (processing_notes r) = true /\
  same_fields r b1.
Proof.
  intros Hbody Hdone Hraise r.
  assert (Hs : fst (s b1) = b1).
  { apply (body_stmt_raises this text tables s b1 e); [|exact Hraise].
    rewrite Hbody. apply in_elt. }
  assert (Hr : r = handler e b1).
  { unfold r, extract_all_fields_on, try_body.
    rewrite Hbody, run_stmts_app, Hdone. simpl. unfold seq.
    destruct (s b1) as [b' o]. simpl in *. subst. reflexivity. }
  rewrite Hr. destruct (handler_fields e b1) as [Hf [Hn Hsame]].
  split; [exact Hf|]. split; [exact Hn|].
  split; [rewrite Hn; discriminate|].
  split; [rewrite Hn; apply contains_suffix | exact Hsame].
Qed.

(** A table in which two columns carry the label [Goods] makes
    [parse_cargo_description_table] raise after the text fields are in
    place: the record comes back flagged, with the fields kept. *)
Lemma extract_all_fields_contains_failure_witness :
  let text := py "B/L NUMBER: TABLE001\nVESSEL: MV Test" in
  let tables := [[(py "Goods", [Some (py "Steel")]);
                  (py "Goods", [Some (py "Parts")])]] in
  let r := extract_all_fields text tables (py "t.pdf") in
  extraction_failed r = true /\
  processing_notes r =
    py "Extraction error: 'DataFrame' object has no attribute 'tolist'" /\
  bol_number r = py "TABLE001" /\
  vessel_name r = py "MV Test".
Proof.
  intros text tables r.
  pose (b0 := set_filename (py "t.pdf") BOLData_new).
  pose (done := firstn 7 (body self text tables)).
  pose (e := Exn "AttributeError"
               (raw "'DataFrame' object has no attribute 'tolist'")).
  destruct (extract_all_fields_contains_failure self text tables (py "t.pdf")
              done (skipn 8 (body self text tables))
              (nth 7 (body self text tables) skip)
              (fst (run_stmts done b0)) e)
    as [Hf [Hn [_ [_ Hsame]]]].
  - reflexivity.
  - vm_compute. reflexivity.
  - vm_compute. reflexivity.
  - unfold same_fields in Hsame.
    destruct Hsame as [_ [Hb [_ [_ [_ [_ [_ [_ [Hv _]]]]]]]]].
    split; [exact Hf|]. split; [exact Hn|].
    split; (etransitivity; [eassumption | vm_compute; reflexivity]).
Defined.

End Containment.

(** ** Pattern order in [extract_field] *)

Section Precedence.

Import BOLDataExtractor Spec.

Lemma extract_field_loop_skip (text pattern : str) (rest : list str) :
  no_result text pattern ->
  extract_field_loop text (pattern :: rest) = extract_field_loop text rest.
Proof.
  intros [Hnone | [mo [g [Hs [Hg He]]]]]; simpl.
  - rewrite Hnone. reflexivity.
  - rewrite Hs. simpl. rewrite Hg. simpl. rewrite He. reflexivity.
Qed.

Lemma extract_field_loop_hit (text pattern g : str) (rest : list str) :
  matches_with text pattern g ->
  extract_field_loop text (pattern :: rest) = clean_field_data (strip g).
Proof.
  intros [mo [Hs [Hg He]]]. simpl. rewrite Hs. simpl. rewrite Hg. simpl.
  rewrite (truthy_nonempty _ He). reflexivity.
Qed.

(** The loop answers with the first pattern that has a result. *)
Lemma extract_field_loop_first (text : str) (patterns : list str) :
  forall (i : nat) (p g : str),
    nth_error patterns i = Some p ->
    matches_with text p g ->
    (forall k q, k < i -> nth_error patterns k = Some q -> no_result text q) ->
    extract_field_loop text patterns = clean_field_data (strip g).
Proof.
  induction patterns as [|q qs IH]; intros i p g Hi Hm Hskip.
  - destruct i; discriminate.
  - destruct i as [|i].
    + injection Hi as ->. apply extract_field_loop_hit. exact Hm.
    + rewrite extract_field_loop_skip.
      * apply (IH i p g); [exact Hi | exact Hm |].
        intros k r Hk Hr. apply (Hskip (S k) r); [lia | exact Hr].
      * apply (Hskip 0 q); [lia | reflexivity].
Qed.

Lemma extract_field_loop_none (text : str) (patterns : list str) :
  (forall q, In q patterns -> no_result text q) ->
  extract_field_loop text patterns = Ok [].
Proof.
  induction patterns as [|q qs IH]; intros H.
  - reflexivity.
  - rewrite extract_field_loop_skip; [|apply H; left; reflexivity].
    apply IH. intros r Hr. apply H. right. exact Hr.
Qed.

(** C9. For every field type and text: (a) when two patterns of the
    field type's list, at places [i < j], both match with a group that is
    not blank, and no pattern before [i] has a result, [extract_field]
    returns the cleaned group of the pattern at [i], the earlier one;
    (b) patterns that do not match or whose group is blank after trimming
    are passed over: the answer is the cleaned group of the first pattern
    with a result; (c) when no pattern has a result the answer is the
    empty string. *)
Theorem extract_field_first_pattern_wins (field_type : string) (text : str) :
  let patterns := FieldPatterns.get_patterns field_type in
  (forall i j pi pj gi gj,
     i < j ->
     nth_error patterns i = Some pi -> nth_error patterns j = Some pj ->
     matches_with text pi gi -> matches_with text pj gj ->
     (forall k q, k < i -> nth_error patterns k = Some q -> no_result text q) ->
     extract_field text field_type = clean_field_data (strip gi)) /\
  (forall i p g,
     nth_error patterns i = Some p -> matches_with text p g ->
     (forall k q, k < i -> nth_error patterns k = Some q -> no_result text q) ->
     extract_field text field_type = clean_field_data (strip g)) /\
  ((forall q, In q patterns -> no_result text q) ->
     extract_field text field_type = Ok []).
Proof.
  intros patterns. unfold extract_field. fold patterns. repeat split.
  - intros i j pi pj gi gj _ Hi _ Hmi _ Hskip.
    exact (extract_field_loop_first text patterns i pi gi Hi Hmi Hskip).
  - intros i p g Hi Hm Hskip.
    exact (extract_field_loop_first text patterns i p g Hi Hm Hskip).
  - apply extract_field_loop_none.
Qed.

(** Two synonyms in one text: the earlier pattern decides.  A label with
    a blank value: the pattern is passed over and a later one decides. *)
Lemma extract_field_first_pattern_wins_witness :
  extract_field (py "B/L NO: BOL001 and also BOL NO: BOL002") "bol_number"
    = Ok (py "BOL001") /\
  extract_field (py "SHIP NAME: Atlantic\nVESSEL:  ") "vessel"
    = Ok (py "Atlantic").
Proof.
  split.
  - destruct (extract_field_first_pattern_wins "bol_number"
                (py "B/L NO: BOL001 and also BOL NO: BOL002")) as [H _].
    rewrite (H 0 1 (raw "(?:B/L\s*(?:No|Number|#)\.?\s*:?\s*)([A-Z0-9\-]+)")
               (raw "(?:BOL\s*(?:No|Number|#)\.?\s*:?\s*)([A-Z0-9\-]+)")
               (py "BOL001") (py "BOL002")).
    + vm_compute. reflexivity.
    + lia.
    + reflexivity.
    + reflexivity.
    + eexists. split; [vm_compute; reflexivity|].
      split; [reflexivity | vm_compute; discriminate].
    + eexists. split; [vm_compute; reflexivity|].
      split; [reflexivity | vm_compute; discriminate].
    + intros k q Hk. lia.
  - destruct (extract_field_first_pattern_wins "vessel"
                (py "SHIP NAME: Atlantic\nVESSEL:  ")) as [_ [H _]].
    rewrite (H 2 (raw "(?:SHIP\s*NAME\.?\s*:?\s*)([^\n]+)") (py "Atlantic")).
    + vm_compute. reflexivity.
    + reflexivity.
    + eexists. split; [vm_compute; reflexivity|].
      split; [reflexivity | vm_compute; discriminate].
    + intros k q Hk Hq.
      destruct k as [|[|k]]; [| |lia]; injection Hq as <-;
        right; eexists; exists (py " ");
        (split; [vm_compute; reflexivity | split; reflexivity]).
Defined.

End Precedence.

(** ** The matcher on sets of characters *)

Section Runs.

Import Re Plain.

Lemma mstate_eta (s : mstate) : MState (m_prev s) (m_rest s) (m_cap s) = s.
Proof. destruct s; reflexivity. Qed.

Lemma flat_map_unit {A} (l : list A) : flat_map (fun x => [x]) l = l.
Proof. induction l as [|x l IH]; simpl; [|rewrite IH]; reflexivity. Qed.

Lemma run_then_empty (fl : flags) (a : regex) (s : mstate) :
  run fl (RSeq a REmpty) s = run fl a s.
Proof. simpl. apply flat_map_unit. Qed.

Lemma flat_map_filter {A} (f : A -> bool) (l : list A) :
  flat_map (fun x => if f x then [x] else []) l = filter f l.
Proof.
  induction l as [|x l IH]; simpl; [reflexivity|].
  rewrite IH. destruct (f x); reflexivity.
Qed.

Lemma run_then_eol (fl : flags) (a : regex) (s : mstate) :
  run fl (RSeq a (RSeq REol REmpty)) s = filter (at_eol fl) (run fl a s).
Proof.
  simpl. rewrite <- flat_map_filter. apply flat_map_ext. intros x.
  destruct (at_eol fl x); reflexivity.
Qed.

(** A greedy star over one-character steps. *)
Lemma repeat_star_eat (p : ascii -> bool) (fuel : nat) :
  forall s, List.length (m_rest s) < fuel ->
    repeat_loop (eat p) true fuel 0 None s =
    greedy_states p (m_prev s) (m_rest s) (m_cap s).
Proof.
  induction fuel as [|fuel IH]; intros [prev t cap] Hlen; [inversion Hlen|].
  cbn [repeat_loop hi_zero hi_pred m_prev m_rest m_cap] in *.
  unfold eat. cbn [m_rest m_cap]. destruct t as [|c t].
  - reflexivity.
  - cbn [greedy_states]. destruct (p c); [|reflexivity].
    cbn [filter]. unfold shorter at 1. cbn [m_rest].
    rewrite (proj2 (Nat.ltb_lt (List.length t) (List.length (c :: t))))
      by (simpl; lia).
    cbn [flat_map]. rewrite app_nil_r.
    rewrite IH by (simpl in *; lia). reflexivity.
Qed.

(** A greedy plus over a set of characters. *)
Lemma run_plus_set (fl : flags) (neg : bool) (items : list citem) (s : mstate) :
  run fl (RRep true 1 None (RSet neg items)) s =
  match m_rest s with
  | c :: t =>
      if set_match fl neg items c
      then greedy_states (set_match fl neg items) (Some c) t (m_cap s)
      else []
  | [] => []
  end.
Proof.
  destruct s as [prev t cap]. cbn [run m_rest m_cap]. cbn [repeat_loop hi_pred].
  unfold eat at 2. cbn [m_rest m_cap]. destruct t as [|c t]; [reflexivity|].
  destruct (set_match fl neg items c); [|reflexivity].
  cbn [flat_map]. rewrite app_nil_r.
  apply (repeat_star_eat (set_match fl neg items)). simpl. lia.
Qed.

Lemma greedy_states_head (p : ascii -> bool) (t : str) :
  forall prev cap, exists more,
    greedy_states p prev t cap =
    MState (last_prev p prev t) (dropwhile p t) cap :: more.
Proof.
  induction t as [|c t IH]; intros prev cap; simpl.
  - exists []. reflexivity.
  - destruct (p c).
    + destruct (IH (Some c) cap) as [more ->]. eexists. reflexivity.
    + exists []. reflexivity.
Qed.

(** Every stop of a run that does not reach the end of the text has a
    character that fails [p] ahead of it. *)
Lemma greedy_states_not_all (p : ascii -> bool) (t : str) :
  forallb p t = false ->
  forall prev cap s, In s (greedy_states p prev t cap) ->
    forallb p (m_rest s) = false.
Proof.
  induction t as [|c t IH]; intros Hall prev cap s Hin; [discriminate|].
  simpl in *. destruct (p c) eqn:Hc; simpl in *.
  - apply in_app_or in Hin as [Hin | [<- | []]].
    + exact (IH Hall _ _ _ Hin).
    + simpl. rewrite Hc. exact Hall.
  - destruct Hin as [<- | []]. simpl. rewrite Hc. reflexivity.
Qed.

Lemma dropwhile_all (p : ascii -> bool) (t : str) :
  forallb p t = true -> dropwhile p t = [].
Proof.
  induction t as [|c t IH]; simpl; [reflexivity|].
  destruct (p c); simpl; [exact IH | discriminate].
Qed.

End Runs.

(** ** The three substitutions of [clean_field_data] *)

Section Substitutions.

Import Re Plain.

Lemma length_dropwhile (p : ascii -> bool) (t : str) :
  List.length (dropwhile p t) <= List.length t.
Proof.
  induction t as [|c t IH]; simpl; [lia|]. destruct (p c); simpl; lia.
Qed.

Lemma between_self (a : str) : between a a = [].
Proof. unfold between. rewrite Nat.sub_diag. reflexivity. Qed.

Lemma between_cons (c : ascii) (a b : str) :
  List.length b <= List.length a -> between (c :: a) b = c :: between a b.
Proof.
  intros H. unfold between. simpl List.length.
  replace (S (List.length a) - List.length b)
    with (S (List.length a - List.length b)) by lia.
  reflexivity.
Qed.

Lemma between_dropwhile (q : ascii -> bool) (t : str) :
  between t (dropwhile q t) = takewhile q t.
Proof.
  induction t as [|c t IH]; simpl; [reflexivity|].
  destruct (q c).
  - rewrite between_cons by apply length_dropwhile. rewrite IH. reflexivity.
  - apply between_self.
Qed.

Lemma dropwhile_ext (p q : ascii -> bool) (t : str) :
  (forall c, p c = q c) -> dropwhile p t = dropwhile q t.
Proof.
  intros H. induction t as [|c t IH]; simpl; [reflexivity|].
  rewrite H, IH. reflexivity.
Qed.

Lemma set_match_space (c : ascii) :
  set_match no_flags false [CSpace] c = isspace c.
Proof.
  unfold set_match. simpl. rewrite !orb_false_r. reflexivity.
Qed.

Lemma set_match_separator (c : ascii) :
  set_match no_flags false [CLit ":"; CLit "-"; CSpace] c = separator c.
Proof.
  unfold set_match, separator. simpl. rewrite !orb_false_r.
  rewrite (Ascii.eqb_sym c ":"), (Ascii.eqb_sym c "-").
  rewrite orb_assoc. reflexivity.
Qed.

Lemma filter_none {A} (f : A -> bool) (l : list A) :
  (forall x, In x l -> f x = false) -> filter f l = [].
Proof.
  induction l as [|x l IH]; intros H; simpl; [reflexivity|].
  rewrite (H x) by (left; reflexivity).
  apply IH. intros y Hy. apply H. right. exact Hy.
Qed.

(** Without MULTILINE, [$] holds at the end and before a final newline. *)
Lemma at_eol_not_all (fl : flags) (p : ascii -> bool) (s : mstate) :
  MULTILINE fl = false -> p nl = true ->
  forallb p (m_rest s) = false -> at_eol fl s = false.
Proof.
  intros Hm Hnl. unfold at_eol. rewrite Hm.
  destruct (m_rest s) as [|d [|e r]]; simpl; intros H.
  - discriminate.
  - rewrite andb_true_r in *. destruct (Ascii.eqb_spec d nl); [|reflexivity].
    subst. congruence.
  - apply andb_false_r.
Qed.

Section OneSet.

Variables (fl : flags) (neg : bool) (items : list citem).

Let p : ascii -> bool := set_match fl neg items.
Let plus : regex := RRep true 1 None (RSet neg items).

(** Where [[...]+] is found first, and how far the match goes. *)
Lemma search_plus (t : str) :
  forall prev,
    search_from fl (RSeq plus REmpty) false prev t =
    match dropwhile (fun c => negb (p c)) t with
    | [] => None
    | c :: t' =>
        Some (Match (c :: t')
                (MState (last_prev p (Some c) t') (dropwhile p t') None))
    end.
Proof.
  induction t as [|c t IH]; intros prev.
  - reflexivity.
  - cbn [search_from dropwhile]. rewrite run_then_empty. unfold plus.
    rewrite run_plus_set. cbn [m_rest m_cap]. fold p.
    destruct (p c); cbn [negb].
    + destruct (greedy_states_head p t (Some c) None) as [more ->]. reflexivity.
    + apply IH.
Qed.

(** [^[...]+] is found only at the very start of the subject. *)
Lemma search_bol_plus_later (t : str) :
  forall c, MULTILINE fl = false ->
    search_from fl (RSeq RBol (RSeq plus REmpty)) false (Some c) t = None.
Proof.
  induction t as [|d t IH]; intros c Hm.
  - cbn [search_from run]. unfold at_bol. cbn [m_prev]. rewrite Hm. reflexivity.
  - cbn [search_from run]. unfold at_bol. cbn [m_prev]. rewrite Hm.
    cbn [andb flat_map]. apply IH. exact Hm.
Qed.

Lemma search_bol_plus_start (t : str) :
  search_from fl (RSeq RBol (RSeq plus REmpty)) false None t =
  match t with
  | c :: t' =>
      if p c then
        Some (Match t (MState (last_prev p (Some c) t') (dropwhile p t') None))
      else
        match MULTILINE fl with
        | false => None
        | true => search_from fl (RSeq RBol (RSeq plus REmpty)) false (Some c) t'
        end
  | [] => None
  end.
Proof.
  destruct t as [|c t].
  - reflexivity.
  - cbn [search_from]. 
    change (run fl (RSeq RBol (RSeq plus REmpty)) (MState None (c :: t) None))
      with (run fl (RSeq plus REmpty) (MState None (c :: t) None) ++ []).
    rewrite app_nil_r, run_then_empty. unfold plus. rewrite run_plus_set.
    cbn [m_rest m_cap]. fold p. destruct (p c).
    + destruct (greedy_states_head p t (Some c) None) as [more ->]. reflexivity.
    + destruct (MULTILINE fl) eqn:Hm; [reflexivity|].
      apply search_bol_plus_later. exact Hm.
Qed.

(** [[...]+$] is found where the final run of set members starts,
    provided the newline is a member. *)
Lemma search_plus_eol (t : str) :
  MULTILINE fl = false -> p nl = true ->
  forall prev,
    (search_from fl (RSeq plus (RSeq REol REmpty)) false prev t = None /\
     drop_trailing p t = t) \/
    (exists st e,
       search_from fl (RSeq plus (RSeq REol REmpty)) false prev t
         = Some (Match st e) /\
       m_rest e = [] /\ st <> [] /\
       List.length st <= List.length t /\
       between t st = drop_trailing p t).
Proof.
  intros Hm Hnl. induction t as [|c t IH]; intros prev.
  - left. split; reflexivity.
  - cbn [search_from drop_trailing]. rewrite run_then_eol. unfold plus.
    rewrite run_plus_set. cbn [m_rest m_cap]. fold p.
    destruct (forallb p (c :: t)) eqn:Hall.
    + right. simpl in Hall. apply andb_true_iff in Hall as [Hc Ht]. rewrite Hc.
      destruct (greedy_states_head p t (Some c) None) as [more ->].
      rewrite (dropwhile_all p t Ht). cbn [filter at_eol m_rest].
      eexists. eexists. split; [reflexivity|].
      split; [reflexivity|]. split; [discriminate|].
      split; [lia | apply between_self].
    + assert (Hnone :
        filter (at_eol fl)
          (if p c then greedy_states p (Some c) t None else []) = []).
      { destruct (p c) eqn:Hc; [|reflexivity].
        simpl in Hall. rewrite Hc in Hall. simpl in Hall.
        apply filter_none. intros s Hin.
        apply (at_eol_not_all fl p s Hm Hnl).
        exact (greedy_states_not_all p t Hall (Some c) None s Hin). }
      rewrite Hnone.
      destruct (IH (Some c)) as [[Hs Hd] | [st [e [Hs [He [Hst [Hlen Hb]]]]]]].
      * left. split; [exact Hs | rewrite Hd; reflexivity].
      * right. exists st, e. split; [exact Hs|]. split; [exact He|].
        split; [exact Hst|]. split; [simpl; lia|].
        rewrite between_cons by exact Hlen. rewrite Hb. reflexivity.
Qed.

End OneSet.

End Substitutions.

(** ** [clean_field_data] as a plain function *)

Section Cleaning.

Import Re Plain BOLDataExtractor.

Lemma compile_ws_plus : compile (raw "\s+") = Ok ws_plus.
Proof. reflexivity. Qed.
Lemma compile_sep_head : compile (raw "^[:\-\s]+") = Ok sep_head.
Proof. reflexivity. Qed.
Lemma compile_sep_tail : compile (raw "[:\-\s]+$") = Ok sep_tail.
Proof. reflexivity. Qed.

Lemma forallb_same (p q : ascii -> bool) (t : str) :
  (forall c, p c = q c) -> forallb p t = forallb q t.
Proof.
  intros H. induction t as [|c t IH]; simpl; [reflexivity|].
  rewrite H, IH. reflexivity.
Qed.

Lemma drop_trailing_ext (p q : ascii -> bool) (t : str) :
  (forall c, p c = q c) -> drop_trailing p t = drop_trailing q t.
Proof.
  intros H. induction t as [|c t IH]; [reflexivity|].
  cbn [drop_trailing]. rewrite IH.
  rewrite (forallb_same p q (c :: t) H). reflexivity.
Qed.

Lemma last_prev_some (p : ascii -> bool) (t : str) :
  forall c, exists d, last_prev p (Some c) t = Some d.
Proof.
  induction t as [|x t IH]; intros c; simpl.
  - exists c. reflexivity.
  - destruct (p x); [apply IH | exists c; reflexivity].
Qed.

Lemma collapse_after_space (t : str) :
  (if head_space t then collapse t else " "%char :: collapse t) =
  " "%char :: collapse (dropwhile isspace t).
Proof.
  induction t as [|d t IH]; [reflexivity|].
  cbn [head_space collapse dropwhile].
  destruct (isspace d) eqn:E; [exact IH | cbn [collapse]; rewrite E; reflexivity].
Qed.

Lemma collapse_unfold (t : str) :
  collapse t =
  takewhile (fun c => negb (isspace c)) t ++
  match dropwhile (fun c => negb (isspace c)) t with
  | [] => []
  | _ :: t' => " "%char :: collapse (dropwhile isspace t')
  end.
Proof.
  induction t as [|c t IH]; [reflexivity|].
  cbn [collapse takewhile dropwhile]. destruct (isspace c); cbn [negb].
  - apply collapse_after_space.
  - rewrite IH at 1. reflexivity.
Qed.

Lemma sub_ws_plus (fuel : nat) :
  forall t prev, List.length t < fuel ->
    sub_from fuel no_flags ws_plus (raw " ") false prev t = collapse t.
Proof.
  induction fuel as [|fuel IH]; intros t prev Hlen; [inversion Hlen|].
  cbn [sub_from]. unfold ws_plus at 1. rewrite search_plus.
  rewrite (dropwhile_ext _ (fun c => negb (isspace c)) t)
    by (intros c; rewrite set_match_space; reflexivity).
  rewrite (collapse_unfold t).
  pose proof (between_dropwhile (fun c => negb (isspace c)) t) as Hb.
  pose proof (length_dropwhile (fun c => negb (isspace c)) t) as Hl.
  destruct (dropwhile (fun c => negb (isspace c)) t) as [|c t'] eqn:E.
  - unfold between in Hb. simpl in Hb. rewrite Nat.sub_0_r, firstn_all in Hb.
    rewrite <- Hb. rewrite app_nil_r. reflexivity.
  - cbn [mo_start mo_end m_prev m_rest]. rewrite Hb. f_equal.
    pose proof (length_dropwhile (set_match no_flags false [CSpace]) t') as Hl'.
    unfold empty_match. cbn [mo_start mo_end m_rest].
    rewrite (proj2 (Nat.eqb_neq _ _)) by (simpl in *; lia).
    rewrite IH by (simpl in *; lia).
    rewrite (dropwhile_ext _ isspace t') by apply set_match_space.
    reflexivity.
Qed.

Lemma sub_sep_head_later (fuel : nat) (adv : bool) (c : ascii) (t : str) :
  adv = false ->
  sub_from fuel no_flags sep_head (raw "") adv (Some c) t = t.
Proof.
  intros ->. destruct fuel as [|fuel]; [reflexivity|].
  cbn [sub_from]. unfold sep_head. rewrite search_bol_plus_later; reflexivity.
Qed.

Lemma sub_sep_head (fuel : nat) (t : str) :
  0 < fuel ->
  sub_from fuel no_flags sep_head (raw "") false None t = dropwhile separator t.
Proof.
  destruct fuel as [|fuel]; [inversion 1|]. intros _.
  cbn [sub_from]. unfold sep_head at 1. rewrite search_bol_plus_start.
  destruct t as [|c t]; [reflexivity|].
  cbn [dropwhile]. rewrite <- set_match_separator. fold sep_set.
  destruct (set_match no_flags false sep_set c); [|reflexivity].
  cbn [mo_start mo_end m_prev m_rest]. rewrite between_self.
  destruct (last_prev_some (set_match no_flags false sep_set) t c) as [d ->].
  pose proof (length_dropwhile (set_match no_flags false sep_set) t) as Hl.
  unfold empty_match. cbn [mo_start mo_end m_rest].
  rewrite (proj2 (Nat.eqb_neq _ _)) by (simpl in *; lia).
  rewrite sub_sep_head_later by reflexivity. simpl.
  apply dropwhile_ext. apply set_match_separator.
Qed.

Lemma sub_sep_tail (fuel : nat) (t : str) (prev : option ascii) :
  0 < fuel ->
  sub_from fuel no_flags sep_tail (raw "") false prev t = drop_trailing separator t.
Proof.
  destruct fuel as [|fuel]; [inversion 1|]. intros _.
  rewrite <- (drop_trailing_ext _ _ t set_match_separator). fold sep_set.
  cbn [sub_from]. unfold sep_tail at 1.
  destruct (search_plus_eol no_flags false sep_set t eq_refl eq_refl prev)
    as [[Hs Hd] | [st [e [Hs [He [Hst [Hlen Hb]]]]]]].
  - rewrite Hs. symmetry. exact Hd.
  - rewrite Hs. cbn [mo_start mo_end]. rewrite Hb.
    unfold empty_match. cbn [mo_start mo_end]. rewrite He.
    destruct st as [|x st]; [congruence|].
    destruct fuel; simpl; rewrite app_nil_r; reflexivity.
Qed.

Lemma scan_fuel_enough (t : str) : List.length t < scan_fuel t.
Proof. unfold scan_fuel. lia. Qed.

(** [clean_field_data] never raises, and computes [cleaned]. *)
Lemma clean_field_data_cleaned (data : str) :
  clean_field_data data = Ok (cleaned data).
Proof.
  unfold clean_field_data, sub.
  rewrite compile_ws_plus, compile_sep_head, compile_sep_tail. cbn [bind].
  rewrite sub_ws_plus by apply scan_fuel_enough.
  rewrite sub_sep_head by (unfold scan_fuel; lia).
  rewrite sub_sep_tail by (unfold scan_fuel; lia).
  reflexivity.
Qed.

End Cleaning.

(** ** Idempotence of cleaning *)

Section Idempotence.

Import Re Plain BOLDataExtractor.

Lemma isspace_separator (c : ascii) : isspace c = true -> separator c = true.
Proof. unfold separator. intros ->. apply orb_true_r. Qed.

Lemma head_space_collapse (t : str) :
  head_space t = false -> head_space (collapse t) = false.
Proof.
  destruct t as [|c t]; [reflexivity|]. simpl. intros H. rewrite H. simpl. exact H.
Qed.

Lemma tidy_collapse (t : str) : tidy (collapse t) = true.
Proof.
  induction t as [|c t IH]; [reflexivity|].
  cbn [collapse]. destruct (isspace c) eqn:Hc.
  - destruct (head_space t) eqn:Hh; [exact IH|].
    cbn [tidy]. rewrite IH, (head_space_collapse t Hh). reflexivity.
  - cbn [tidy]. rewrite Hc, IH. reflexivity.
Qed.

Lemma tidy_fixed (t : str) : tidy t = true -> collapse t = t.
Proof.
  induction t as [|c t IH]; [reflexivity|].
  cbn [tidy collapse]. destruct (isspace c).
  - intros H. apply andb_true_iff in H as [H1 H2].
    apply andb_true_iff in H1 as [Hc Hh].
    apply negb_true_iff in Hh. rewrite Hh.
    apply Ascii.eqb_eq in Hc. subst c. rewrite (IH H2). reflexivity.
  - simpl. intros H. rewrite (IH H). reflexivity.
Qed.

Lemma tidy_tail (c : ascii) (t : str) : tidy (c :: t) = true -> tidy t = true.
Proof. cbn [tidy]. intros H. apply andb_true_iff in H as [_ H]. exact H. Qed.

Lemma tidy_dropwhile (p : ascii -> bool) (t : str) :
  tidy t = true -> tidy (dropwhile p t) = true.
Proof.
  induction t as [|c t IH]; [reflexivity|]. intros H. cbn [dropwhile].
  destruct (p c); [apply IH; exact (tidy_tail c t H) | exact H].
Qed.

Lemma head_space_drop_trailing (p : ascii -> bool) (t : str) :
  head_space t = false -> head_space (drop_trailing p t) = false.
Proof.
  destruct t as [|c t]; [reflexivity|]. cbn [drop_trailing].
  destruct (forallb p (c :: t)); [reflexivity | exact (fun H => H)].
Qed.

Lemma tidy_drop_trailing (p : ascii -> bool) (t : str) :
  tidy t = true -> tidy (drop_trailing p t) = true.
Proof.
  induction t as [|c t IH]; [reflexivity|]. intros H. cbn [drop_trailing].
  destruct (forallb p (c :: t)); [reflexivity|].
  cbn [tidy] in *. apply andb_true_iff in H as [H1 H2].
  rewrite (IH H2), andb_true_r.
  destruct (isspace c); [|reflexivity].
  apply andb_true_iff in H1 as [Hc Hh]. rewrite Hc. simpl.
  apply negb_true_iff in Hh. rewrite (head_space_drop_trailing p t Hh). reflexivity.
Qed.

Lemma head_passes_dropwhile (p : ascii -> bool) (t : str) :
  head_passes p (dropwhile p t) = false.
Proof.
  induction t as [|c t IH]; [reflexivity|]. cbn [dropwhile].
  destruct (p c) eqn:Hc; [exact IH | simpl; exact Hc].
Qed.

Lemma head_passes_drop_trailing (p : ascii -> bool) (t : str) :
  head_passes p t = false -> head_passes p (drop_trailing p t) = false.
Proof.
  destruct t as [|c t]; [reflexivity|]. cbn [drop_trailing].
  destruct (forallb p (c :: t)); [reflexivity | exact (fun H => H)].
Qed.

Lemma dropwhile_fixed (p : ascii -> bool) (t : str) :
  head_passes p t = false -> dropwhile p t = t.
Proof. destruct t as [|c t]; [reflexivity|]. simpl. intros ->. reflexivity. Qed.

Lemma forallb_drop_trailing (p : ascii -> bool) (t : str) :
  forallb p t = false -> forallb p (drop_trailing p t) = false.
Proof.
  induction t as [|c t IH]; [discriminate|]. intros H.
  cbn [drop_trailing]. rewrite H. cbn [forallb] in *.
  destruct (p c); [|reflexivity]. simpl in *. apply IH. exact H.
Qed.

Lemma drop_trailing_idem (p : ascii -> bool) (t : str) :
  drop_trailing p (drop_trailing p t) = drop_trailing p t.
Proof.
  induction t as [|c t IH]; [reflexivity|].
  cbn [drop_trailing]. destruct (forallb p (c :: t)) eqn:H; [reflexivity|].
  cbn [drop_trailing]. rewrite IH.
  replace (forallb p (c :: drop_trailing p t)) with false; [reflexivity|].
  symmetry. cbn [forallb] in *. destruct (p c); [|reflexivity].
  simpl in *. apply forallb_drop_trailing. exact H.
Qed.

Lemma forallb_weaken (p q : ascii -> bool) (t : str) :
  (forall c, q c = true -> p c = true) ->
  forallb p t = false -> forallb q t = false.
Proof.
  intros Hqp. induction t as [|c t IH]; [discriminate|]. cbn [forallb].
  destruct (q c) eqn:Hq; [|reflexivity]. rewrite (Hqp c Hq). simpl. exact IH.
Qed.

Lemma drop_trailing_weaken (p q : ascii -> bool) (t : str) :
  (forall c, q c = true -> p c = true) ->
  drop_trailing p t = t -> drop_trailing q t = t.
Proof.
  intros Hqp. induction t as [|c t IH]; [reflexivity|].
  cbn [drop_trailing]. destruct (forallb p (c :: t)) eqn:H; [discriminate|].
  intros E. injection E as E.
  rewrite (forallb_weaken p q (c :: t) Hqp H), (IH E). reflexivity.
Qed.

Lemma head_passes_weaken (p q : ascii -> bool) (t : str) :
  (forall c, q c = true -> p c = true) ->
  head_passes p t = false -> head_passes q t = false.
Proof.
  intros Hqp. destruct t as [|c t]; [reflexivity|]. simpl. intros H.
  destruct (q c) eqn:Hq; [|reflexivity]. rewrite (Hqp c Hq) in H. discriminate.
Qed.

(** What a cleaned text looks like. *)
Lemma cleaned_shape (data : str) :
  tidy (cleaned data) = true /\
  head_passes separator (cleaned data) = false /\
  drop_trailing separator (cleaned data) = cleaned data.
Proof.
  unfold cleaned. split; [|split].
  - apply tidy_drop_trailing, tidy_dropwhile, tidy_collapse.
  - apply head_passes_drop_trailing, head_passes_dropwhile.
  - apply drop_trailing_idem.
Qed.

(** A text of that shape is left as it is. *)
Lemma cleaned_fixed (x : str) :
  tidy x = true -> head_passes separator x = false ->
  drop_trailing separator x = x -> cleaned x = x.
Proof.
  intros Ht Hh Hd. unfold cleaned, strip, lstrip, rstrip.
  rewrite (dropwhile_fixed isspace x)
    by exact (head_passes_weaken separator isspace x isspace_separator Hh).
  rewrite (drop_trailing_weaken separator isspace x isspace_separator Hd).
  rewrite (tidy_fixed x Ht), (dropwhile_fixed separator x Hh). exact Hd.
Qed.

Lemma cleaned_idempotent (data : str) : cleaned (cleaned data) = cleaned data.
Proof.
  destruct (cleaned_shape data) as [Ht [Hh Hd]].
  exact (cleaned_fixed (cleaned data) Ht Hh Hd).
Qed.

(** C8. For every string [s], [clean_field_data s] returns a string [c]
    without raising, and cleaning [c] again returns [c] itself:
    [clean(clean(s)) == clean(s)].  The empty string is cleaned to the
    empty string. *)
Theorem clean_field_data_idempotent (s : str) :
  (exists c, clean_field_data s = Ok c /\ clean_field_data c = Ok c) /\
  clean_field_data [] = Ok [].
Proof.
  split.
  - exists (cleaned s). rewrite !clean_field_data_cleaned.
    rewrite cleaned_idempotent. split; reflexivity.
  - rewrite clean_field_data_cleaned. reflexivity.
Qed.

End Idempotence.

(** ** What every match consumes and captures *)

Section Captures.

Import Re Plain.

Variable fl : flags.

(** A round of a repetition consumes at least [m] characters, so [lo]
    compulsory rounds consume [lo * m]. *)
Lemma repeat_loop_consumes (step : mstate -> list mstate) (m : nat)
    (greedy : bool) :
  (forall s1 s2, In s2 (step s1) ->
     List.length (m_rest s2) + m <= List.length (m_rest s1)) ->
  forall fuel lo hi s s',
    In s' (repeat_loop step greedy fuel lo hi s) ->
    List.length (m_rest s') + lo * m <= List.length (m_rest s).
Proof.
  intros Hstep. induction fuel as [|fuel IH]; intros lo hi s s' Hin; [destruct Hin|].
  cbn [repeat_loop] in Hin. destruct lo as [|lo].
  - destruct (hi_zero hi).
    + destruct Hin as [<- | []]. lia.
    + assert (Hmore : forall x,
        In x (flat_map (repeat_loop step greedy fuel 0 (hi_pred hi))
                (filter (shorter s) (step s))) ->
        List.length (m_rest x) + 0 * m <= List.length (m_rest s)).
      { intros x Hx. apply in_flat_map in Hx as [s1 [H1 Hx]].
        apply filter_In in H1 as [H1 _].
        specialize (IH _ _ _ _ Hx). specialize (Hstep _ _ H1). lia. }
      destruct greedy.
      * apply in_app_or in Hin as [Hin | [<- | []]]; [apply Hmore; exact Hin | lia].
      * destruct Hin as [<- | Hin]; [lia | apply Hmore; exact Hin].
  - apply in_flat_map in Hin as [s1 [H1 Hx]].
    specialize (IH _ _ _ _ Hx). specialize (Hstep _ _ H1). simpl. lia.
Qed.

Lemma eat_consumes (p : ascii -> bool) (s s' : mstate) :
  In s' (eat p s) -> List.length (m_rest s') + 1 = List.length (m_rest s).
Proof.
  unfold eat. destruct (m_rest s) as [|c t]; [intros []|].
  destruct (p c); [|intros []]. intros [<- | []]. simpl. lia.
Qed.

(** Every match of [r] spans at least [min_len r] characters. *)
Lemma run_consumes (r : regex) :
  forall s s', In s' (run fl r s) ->
    List.length (m_rest s') + min_len r <= List.length (m_rest s).
Proof.
  induction r as [ | c | | neg items | | | a IHa b IHb | a IHa b IHb
                 | greedy lo hi a IHa | a IHa | a IHa ];
    intros s s' Hin; cbn [run min_len] in *.
  - destruct Hin as [<- | []]. lia.
  - apply eat_consumes in Hin. lia.
  - apply eat_consumes in Hin. lia.
  - apply eat_consumes in Hin. lia.
  - destruct (at_bol fl s); [destruct Hin as [<- | []]; lia | destruct Hin].
  - destruct (at_eol fl s); [destruct Hin as [<- | []]; lia | destruct Hin].
  - apply in_flat_map in Hin as [s1 [H1 H2]].
    specialize (IHa _ _ H1). specialize (IHb _ _ H2). lia.
  - apply in_app_or in Hin as [Hin | Hin];
      [specialize (IHa _ _ Hin) | specialize (IHb _ _ Hin)]; lia.
  - exact (repeat_loop_consumes (run fl a) (min_len a) greedy IHa _ lo hi s s' Hin).
  - apply in_map_iff in Hin as [s1 [<- H1]]. cbn [m_rest].
    exact (IHa _ _ H1).
  - destruct (run fl a s) as [|s1 l]; [destruct Hin|].
    destruct Hin as [<- | []]. cbn [m_rest]. lia.
Qed.

Lemma length_between (a b : str) :
  List.length (between a b) = List.length a - List.length b.
Proof. unfold between. rewrite length_firstn. lia. Qed.

(** A repetition keeps a property of the capture that every round keeps. *)
Lemma repeat_loop_keeps (step : mstate -> list mstate) (P : option str -> Prop)
    (greedy : bool) :
  (forall s1 s2, In s2 (step s1) -> P (m_cap s1) -> P (m_cap s2)) ->
  forall fuel lo hi s s',
    In s' (repeat_loop step greedy fuel lo hi s) -> P (m_cap s) -> P (m_cap s').
Proof.
  intros Hstep. induction fuel as [|fuel IH]; intros lo hi s s' Hin HP; [destruct Hin|].
  cbn [repeat_loop] in Hin. destruct lo as [|lo].
  - destruct (hi_zero hi).
    + destruct Hin as [<- | []]. exact HP.
    + assert (Hmore : forall x,
        In x (flat_map (repeat_loop step greedy fuel 0 (hi_pred hi))
                (filter (shorter s) (step s))) -> P (m_cap x)).
      { intros x Hx. apply in_flat_map in Hx as [s1 [H1 Hx]].
        apply filter_In in H1 as [H1 _].
        exact (IH _ _ _ _ Hx (Hstep _ _ H1 HP)). }
      destruct greedy.
      * apply in_app_or in Hin as [Hin | [<- | []]]; [apply Hmore; exact Hin | exact HP].
      * destruct Hin as [<- | Hin]; [exact HP | apply Hmore; exact Hin].
  - apply in_flat_map in Hin as [s1 [H1 Hx]].
    exact (IH _ _ _ _ Hx (Hstep _ _ H1 HP)).
Qed.

Lemma eat_cap (p : ascii -> bool) (s s' : mstate) :
  In s' (eat p s) -> m_cap s' = m_cap s.
Proof.
  unfold eat. destruct (m_rest s) as [|c t]; [intros []|].
  destruct (p c); [|intros []]. intros [<- | []]. reflexivity.
Qed.

(** A pattern without a group leaves the capture alone. *)
Lemma run_keeps_cap (r : regex) :
  count_groups r = 0 ->
  forall s s', In s' (run fl r s) -> m_cap s' = m_cap s.
Proof.
  induction r as [ | c | | neg items | | | a IHa b IHb | a IHa b IHb
                 | greedy lo hi a IHa | a IHa | a IHa ];
    intros Hg s s' Hin; cbn [run count_groups] in *.
  - destruct Hin as [<- | []]. reflexivity.
  - exact (eat_cap _ _ _ Hin).
  - exact (eat_cap _ _ _ Hin).
  - exact (eat_cap _ _ _ Hin).
  - destruct (at_bol fl s); [destruct Hin as [<- | []]; reflexivity | destruct Hin].
  - destruct (at_eol fl s); [destruct Hin as [<- | []]; reflexivity | destruct Hin].
  - apply in_flat_map in Hin as [s1 [H1 H2]].
    rewrite (IHb ltac:(lia) _ _ H2). exact (IHa ltac:(lia) _ _ H1).
  - apply in_app_or in Hin as [Hin | Hin];
      [exact (IHa ltac:(lia) _ _ Hin) | exact (IHb ltac:(lia) _ _ Hin)].
  - apply (repeat_loop_keeps (run fl a) (fun c => c = m_cap s) greedy) in Hin;
      [exact Hin | | reflexivity].
    intros s1 s2 H12 H1. rewrite (IHa Hg _ _ H12). exact H1.
  - discriminate.
  - destruct (run fl a s) as [|s1 l] eqn:E; [destruct Hin|].
    destruct Hin as [<- | []]. cbn [m_cap].
    apply (IHa Hg s s1). rewrite E. left. reflexivity.
Qed.

Lemma captured_weaken (k l : nat) (c : option str) :
  l <= k -> captured k c -> captured l c.
Proof. intros H [g [-> Hg]]. exists g. split; [reflexivity | lia]. Qed.

(** A repetition with a compulsory round ends on what a round sets. *)
Lemma repeat_loop_sets (step : mstate -> list mstate) (P : option str -> Prop)
    (greedy : bool) :
  (forall s1 s2, In s2 (step s1) -> P (m_cap s2)) ->
  forall fuel lo hi s s',
    In s' (repeat_loop step greedy fuel (S lo) hi s) -> P (m_cap s').
Proof.
  intros Hstep fuel lo hi s s' Hin. destruct fuel as [|fuel]; [destruct Hin|].
  cbn [repeat_loop] in Hin. apply in_flat_map in Hin as [s1 [H1 Hx]].
  apply (repeat_loop_keeps step P greedy) in Hx.
  - exact Hx.
  - intros a b Hab _. exact (Hstep _ _ Hab).
  - exact (Hstep _ _ H1).
Qed.

Lemma run_captures (r : regex) :
  forall k, cap_min r = Some k ->
  forall s s', In s' (run fl r s) -> captured k (m_cap s').
Proof.
  induction r as [ | c | | neg items | | | a IHa b IHb | a IHa b IHb
                 | greedy lo hi a IHa | a IHa | a IHa ];
    intros k Hk s s' Hin; cbn [cap_min] in Hk; try discriminate.
  - cbn [run] in Hin. apply in_flat_map in Hin as [s1 [H1 H2]].
    destruct (cap_min b) as [kb|] eqn:Eb.
    + injection Hk as <-. exact (IHb _ eq_refl _ _ H2).
    + destruct (Nat.eqb_spec (count_groups b) 0) as [Hg|]; [|discriminate].
      rewrite (run_keeps_cap b Hg _ _ H2). exact (IHa _ Hk _ _ H1).
  - cbn [run] in Hin.
    destruct (cap_min a) as [ka|]; [|discriminate].
    destruct (cap_min b) as [kb|]; [|discriminate]. injection Hk as <-.
    apply in_app_or in Hin as [Hin | Hin].
    + apply (captured_weaken ka); [lia | exact (IHa _ eq_refl _ _ Hin)].
    + apply (captured_weaken kb); [lia | exact (IHb _ eq_refl _ _ Hin)].
  - destruct lo as [|lo]; [discriminate|]. cbn [run] in Hin.
    apply (repeat_loop_sets (run fl a) (captured k) greedy) in Hin; [exact Hin|].
    intros s1 s2 H12. exact (IHa _ Hk _ _ H12).
  - cbn [run] in Hin. injection Hk as <-.
    apply in_map_iff in Hin as [s1 [<- H1]]. cbn [m_cap].
    eexists. split; [reflexivity|]. rewrite length_between.
    pose proof (run_consumes a _ _ H1). lia.
  - cbn [run] in Hin. destruct (run fl a s) as [|s1 l] eqn:E; [destruct Hin|].
    destruct Hin as [<- | []]. cbn [m_cap].
    apply (IHa _ Hk s s1). rewrite E. left. reflexivity.
Qed.

Lemma first_tried {A} (adv : bool) (f : A -> bool) (l l' : list A) (e : A) :
  (if adv then filter f l else l) = e :: l' -> In e l.
Proof.
  destruct adv; intros E.
  - assert (Hin : In e (filter f l)) by (rewrite E; left; reflexivity).
    apply filter_In in Hin as [Hin _]. exact Hin.
  - rewrite E. left. reflexivity.
Qed.

(** What [search_from] returns is a match of the pattern at the place
    where it starts. *)
Lemma search_from_run (r : regex) (t : str) :
  forall adv prev m,
    search_from fl r adv prev t = Some m ->
    exists s, In (mo_end m) (run fl r s) /\ m_rest s = mo_start m /\
              m_cap s = None /\
              List.length (mo_start m) <= List.length t.
Proof.
  induction t as [|c t IH]; intros adv prev m; cbn [search_from].
  - destruct (if adv then _ else _) as [|e l] eqn:E; [discriminate|].
    intros H. injection H as <-. exists (MState prev [] None).
    split; [exact (first_tried _ _ _ _ _ E) | repeat split; simpl; lia].
  - destruct (if adv then _ else _) as [|e l] eqn:E.
    + intros H. destruct (IH _ _ _ H) as [s [H1 [H2 [H3 H4]]]].
      exists s. repeat split; try assumption. simpl; lia.
    + intros H. injection H as <-. exists (MState prev (c :: t) None).
      split; [exact (first_tried _ _ _ _ _ E) | repeat split; simpl; lia].
Qed.

End Captures.

(** ** The matcher without fuel *)

Section Direct.

Import Re Plain.

Lemma eat_cons (p : ascii -> bool) (prev : option ascii) (c : ascii) (t : str)
    (cap : option str) :
  eat p (MState prev (c :: t) cap) =
  if p c then [MState (Some c) t cap] else [].
Proof. reflexivity. Qed.

Lemma eat_nil (p : ascii -> bool) (prev : option ascii) (cap : option str) :
  eat p (MState prev [] cap) = [].
Proof. reflexivity. Qed.

Lemma repeat_loop_eat (p : ascii -> bool) (greedy : bool) (fuel : nat) :
  forall lo hi s, lo + List.length (m_rest s) < fuel ->
    repeat_loop (eat p) greedy fuel lo hi s =
    rep_atom p greedy lo hi (m_prev s) (m_rest s) (m_cap s).
Proof.
  induction fuel as [|fuel IH]; intros lo hi [prev t cap] Hlen; [inversion Hlen|].
  cbn [repeat_loop m_prev m_rest m_cap] in *. destruct lo as [|lo].
  - destruct t as [|c t]; cbn [rep_atom]; destruct (hi_zero hi); try reflexivity.
    rewrite eat_cons. destruct (p c); [|reflexivity].
    cbn [filter]. unfold shorter. cbn [m_rest].
    rewrite (proj2 (Nat.ltb_lt (List.length t) (List.length (c :: t))))
      by (simpl; lia).
    cbn [flat_map]. rewrite app_nil_r.
    rewrite IH by (simpl in *; lia). reflexivity.
  - destruct t as [|c t]; cbn [rep_atom].
    + rewrite eat_nil. reflexivity.
    + rewrite eat_cons. destruct (p c); [|reflexivity].
      cbn [flat_map]. rewrite app_nil_r.
      rewrite IH by (simpl in *; lia). reflexivity.
Qed.

Lemma repeat_loop_ext (f g : mstate -> list mstate) (greedy : bool) :
  (forall s, f s = g s) ->
  forall fuel lo hi s,
    repeat_loop f greedy fuel lo hi s = repeat_loop g greedy fuel lo hi s.
Proof.
  intros H. induction fuel as [|fuel IH]; intros lo hi s; [reflexivity|].
  cbn [repeat_loop]. rewrite H.
  destruct lo; [destruct (hi_zero hi); [reflexivity|]|].
  - rewrite (flat_map_ext _ _ (IH 0 (hi_pred hi))). reflexivity.
  - apply flat_map_ext. intros x. apply IH.
Qed.

Lemma run_direct_eq (fl : flags) (r : regex) :
  forall s, run fl r s = run_direct fl r s.
Proof.
  induction r as [ | c | | neg items | | | a IHa b IHb | a IHa b IHb
                 | greedy lo hi a IHa | a IHa | a IHa ];
    intros s; cbn [run run_direct]; try reflexivity.
  - rewrite IHa. apply flat_map_ext. exact IHb.
  - rewrite IHa, IHb. reflexivity.
  - destruct a; cbn [atom_test];
      try (apply repeat_loop_ext; exact IHa);
      (apply repeat_loop_eat; lia).
  - rewrite IHa. reflexivity.
  - rewrite IHa. reflexivity.
Qed.

End Direct.

(** ** Leftmost matches *)

Section Scanning.

Import Re Plain.

Variable fl : flags.

Lemma prev_at_app (prev : option ascii) (a b : str) :
  prev_at prev (a ++ b) = prev_at (prev_at prev a) b.
Proof. unfold prev_at. apply fold_left_app. Qed.

Lemma nowhere_in_tail (r : regex) (prev : option ascii) (c : ascii)
    (pre rest : str) :
  nowhere_in fl r prev (c :: pre) rest -> nowhere_in fl r (Some c) pre rest.
Proof.
  intros H a d b E. specialize (H (c :: a) d b). rewrite E in H.
  exact (H eq_refl).
Qed.

(** The search passes over a prefix in which the pattern matches nowhere. *)
Lemma search_from_skip (r : regex) (pre rest : str) :
  forall prev, nowhere_in fl r prev pre rest ->
    search_from fl r false prev (pre ++ rest) =
    search_from fl r false (prev_at prev pre) rest.
Proof.
  induction pre as [|c pre IH]; intros prev H; [reflexivity|].
  cbn [app search_from]. pose proof (H [] c pre eq_refl) as H0.
  change (prev_at prev []) with prev in H0. cbn [app] in H0. rewrite H0.
  apply IH. exact (nowhere_in_tail r prev c pre rest H).
Qed.

Lemma search_from_here (r : regex) (prev : option ascii) (t : str)
    (e : mstate) (l : list mstate) :
  run fl r (MState prev t None) = e :: l ->
  search_from fl r false prev t = Some (Match t e).
Proof. intros H. destruct t; cbn [search_from]; rewrite H; reflexivity. Qed.

(** What a successful search says: the pattern matches nowhere before the
    start, and the match is the first one tried there. *)
Lemma search_from_first (r : regex) (t : str) :
  forall prev m, search_from fl r false prev t = Some m ->
    exists pre l,
      t = pre ++ mo_start m /\ nowhere_in fl r prev pre (mo_start m) /\
      run fl r (MState (prev_at prev pre) (mo_start m) None) = mo_end m :: l.
Proof.
  induction t as [|c t IH]; intros prev m; cbn [search_from].
  - destruct (run fl r (MState prev [] None)) as [|e l] eqn:E; [discriminate|].
    intros H. injection H as <-. exists [], l. cbn [mo_start mo_end app].
    split; [reflexivity|]. split; [|exact E].
    intros a d b Hab. destruct a; discriminate.
  - destruct (run fl r (MState prev (c :: t) None)) as [|e l] eqn:E.
    + intros H. destruct (IH _ _ H) as [pre [l [Ht [Hn Hr]]]].
      exists (c :: pre), l. split; [simpl; rewrite <- Ht; reflexivity|].
      split; [|exact Hr].
      intros a d b Hab. destruct a as [|x a].
      * injection Hab as <- <-. cbn [app prev_at fold_left].
        rewrite <- Ht. exact E.
      * injection Hab as <- Hab. exact (Hn a d b Hab).
    + intros H. injection H as <-. exists [], l. cbn [mo_start mo_end app].
      split; [reflexivity|]. split; [|exact E].
      intros a d b Hab. destruct a; discriminate.
Qed.

(** A place where the pattern matches bounds the start of the leftmost
    match. *)
Lemma search_from_before (r : regex) (pre rest : str) :
  forall prev e l,
    run fl r (MState (prev_at prev pre) rest None) = e :: l ->
    exists m, search_from fl r false prev (pre ++ rest) = Some m /\
              List.length rest <= List.length (mo_start m).
Proof.
  induction pre as [|c pre IH]; intros prev e l H.
  - cbn [app]. rewrite (search_from_here r prev rest e l H).
    eexists. split; [reflexivity | cbn [mo_start]; lia].
  - cbn [app search_from].
    destruct (run fl r (MState prev (c :: pre ++ rest) None)) as [|e' l'].
    + exact (IH (Some c) e l H).
    + eexists. split; [reflexivity|]. cbn [mo_start]. simpl.
      rewrite length_app. lia.
Qed.

Lemma search_none_findall (pattern text : str) (r : regex) :
  compile pattern = Ok r ->
  search_from fl r false None text = None ->
  findall pattern text fl = Ok [].
Proof.
  intros Hc Hs. unfold findall. rewrite Hc. cbn [bind].
  unfold scan_fuel. rewrite Nat.add_comm. cbn [Nat.add findall_from].
  rewrite Hs. reflexivity.
Qed.

Lemma search_some_findall (pattern text : str) (r : regex) (m : match_obj) :
  compile pattern = Ok r ->
  search_from fl r false None text = Some m ->
  exists more, findall pattern text fl = Ok (findall_item r m :: more).
Proof.
  intros Hc Hs. unfold findall. rewrite Hc. cbn [bind].
  unfold scan_fuel. rewrite Nat.add_comm. cbn [Nat.add findall_from].
  rewrite Hs. eexists. reflexivity.
Qed.

Lemma findall_nil_search (pattern text : str) (r : regex) :
  compile pattern = Ok r ->
  findall pattern text fl = Ok [] ->
  search_from fl r false None text = None.
Proof.
  intros Hc Hf. destruct (search_from fl r false None text) as [m|] eqn:Hs;
    [|reflexivity].
  destruct (search_some_findall pattern text r m Hc Hs) as [more H].
  rewrite H in Hf. discriminate.
Qed.

(** The capture of a found match, for a pattern that always captures. *)
Lemma search_from_captured (r : regex) (k : nat) (t : str)
    (prev : option ascii) (adv : bool) (m : match_obj) :
  cap_min r = Some k ->
  search_from fl r adv prev t = Some m ->
  captured k (group1 m).
Proof.
  intros Hk Hs. destruct (search_from_run fl r t adv prev m Hs) as [s [Hin _]].
  exact (run_captures fl r k Hk s (mo_end m) Hin).
Qed.

End Scanning.

(** ** Weights and quantity *)

Section Weights.

Import Re Plain BOLDataExtractor Spec.

Lemma nowhere_inb_spec (fl : flags) (r : regex) (pre rest : str) :
  forall prev, nowhere_inb fl r prev pre rest = true ->
    nowhere_in fl r prev pre rest.
Proof.
  induction pre as [|x pre IH]; intros prev H a c b E.
  - destruct a; discriminate.
  - cbn [nowhere_inb] in H.
    destruct (run fl r (MState prev ((x :: pre) ++ rest) None)) eqn:Hr;
      [|discriminate].
    destruct a as [|y a].
    + injection E as <- <-. exact Hr.
    + injection E as <- E. exact (IH (Some x) H a c b E).
Qed.

Lemma catalog_compiles : forallb compiles_with_group catalog = true.
Proof. vm_compute. reflexivity. Qed.

Lemma compiles_with_group_ast (pattern : str) :
  compiles_with_group pattern = true ->
  compile pattern = Ok (ast_of pattern) /\
  exists k, cap_min (ast_of pattern) = Some k.
Proof.
  unfold compiles_with_group, ast_of.
  destruct (compile pattern) as [r|e]; [|discriminate].
  destruct (cap_min r) as [k|]; [|discriminate].
  intros _. split; [reflexivity | exists k; reflexivity].
Qed.

Lemma get_patterns_catalog (field_type : string) (pattern : str) :
  In pattern (FieldPatterns.get_patterns field_type) -> In pattern catalog.
Proof.
  unfold FieldPatterns.get_patterns, catalog.
  destruct (find _ FieldPatterns.patterns) as [kv|] eqn:E; [|intros []].
  intros H. apply in_flat_map. exists kv. split; [|exact H].
  apply find_some in E. apply E.
Qed.

Lemma get_patterns_compile (field_type : string) (pattern : str) :
  In pattern (FieldPatterns.get_patterns field_type) ->
  compile pattern = Ok (ast_of pattern) /\
  exists k, cap_min (ast_of pattern) = Some k.
Proof.
  intros H. apply compiles_with_group_ast.
  exact (proj1 (forallb_forall _ _) catalog_compiles pattern
           (get_patterns_catalog field_type pattern H)).
Qed.

(** The quantity loop always returns. *)
Lemma quantity_loop_total (text : str) (patterns : list str) :
  (forall p, In p patterns -> compiles_with_group p = true) ->
  exists q, quantity_loop text patterns = Ok q.
Proof.
  induction patterns as [|p ps IH]; intros H.
  - exists []. reflexivity.
  - cbn [quantity_loop]. unfold search.
    destruct (compiles_with_group_ast p (H p (or_introl eq_refl)))
      as [Hc [k Hk]].
    rewrite Hc. cbn [bind].
    destruct (search_from ignorecase (ast_of p) false None text) as [mo|] eqn:Hs.
    + destruct (search_from_captured ignorecase (ast_of p) k text None false mo Hk Hs)
        as [g [Hg _]].
      rewrite Hg. exists (strip g). reflexivity.
    + apply IH. intros q Hq. apply H. right. exact Hq.
Qed.

Lemma weight_patterns_are :
  FieldPatterns.get_patterns "weight_patterns" =
  [gross_pattern; net_pattern; weight_pattern].
Proof. reflexivity. Qed.

(** [findall] with a weight pattern returns, and what it lists first is
    not empty. *)
Lemma findall_weight (pattern text : str) :
  In pattern [gross_pattern; net_pattern; weight_pattern] ->
  exists l, findall pattern text ignorecase = Ok l /\
            truthy (hd (py "x") l) = true.
Proof.
  intros Hin.
  assert (H : compile pattern = Ok (ast_of pattern) /\
              cap_min (ast_of pattern) = Some 3 /\
              count_groups (ast_of pattern) = 1).
  { simpl in Hin. decompose [or] Hin; subst; try contradiction;
      (split; [reflexivity | split; vm_compute; reflexivity]). }
  destruct H as [Hc [Hk Hg]].
  destruct (search_from ignorecase (ast_of pattern) false None text) as [m|] eqn:Hs.
  - destruct (search_some_findall ignorecase pattern text (ast_of pattern) m Hc Hs)
      as [more ->].
    eexists. split; [reflexivity|]. cbn [hd]. unfold findall_item. rewrite Hg.
    destruct (search_from_captured ignorecase (ast_of pattern) 3 text None false m Hk Hs)
      as [g [-> Hlen]].
    destruct g; [simpl in Hlen; lia | reflexivity].
  - rewrite (search_none_findall ignorecase pattern text (ast_of pattern) Hc Hs).
    eexists. split; reflexivity.
Qed.

(** The routing of the weight loop, for every text. *)
Lemma weights_routing (text : str) :
  exists G N W q,
    findall gross_pattern text ignorecase = Ok G /\
    findall net_pattern text ignorecase = Ok N /\
    findall weight_pattern text ignorecase = Ok W /\
    extract_weights_quantities text =
      Ok (match G with g :: _ => g | [] => hd [] W end, hd [] N, q).
Proof.
  destruct (findall_weight gross_pattern text) as [G [HG HGt]];
    [simpl; auto|].
  destruct (findall_weight net_pattern text) as [N [HN _]]; [simpl; auto|].
  destruct (findall_weight weight_pattern text) as [W [HW _]]; [simpl; auto|].
  destruct (quantity_loop_total text
              (FieldPatterns.get_patterns "quantity_patterns")) as [q Hq].
  { intros p Hp.
    exact (proj1 (forallb_forall _ _) catalog_compiles p
             (get_patterns_catalog "quantity_patterns" p Hp)). }
  exists G, N, W, q. repeat (split; [assumption|]).
  unfold extract_weights_quantities. rewrite weight_patterns_are, Hq.
  cbn [weights_loop]. rewrite HG, HN, HW. cbn [bind].
  change (contains (raw "GROSS") (upper gross_pattern)) with true.
  change (contains (raw "GROSS") (upper net_pattern)) with false.
  change (contains (raw "NET") (upper net_pattern)) with true.
  change (contains (raw "GROSS") (upper weight_pattern)) with false.
  change (contains (raw "NET") (upper weight_pattern)) with false.
  destruct G as [|g G]; destruct N as [|n N]; destruct W as [|w W];
    cbn [hd negb truthy bind] in *; try reflexivity.
  all: rewrite HGt; reflexivity.
Qed.

(** The first item [findall] lists, when the first match is known. *)
Lemma first_found (fl : flags) (pattern pre rest v : str)
    (e : mstate) (l : list mstate) :
  count_groups (ast_of pattern) = 1 ->
  no_match_inside pattern fl pre rest ->
  run fl (ast_of pattern) (MState (prev_at None pre) rest None) = e :: l ->
  m_cap e = Some v ->
  exists more, findall pattern (pre ++ rest) fl = Ok (v :: more).
Proof.
  intros Hg [r [Hc Hn]] Hr Hv.
  assert (Hr' : r = ast_of pattern) by (unfold ast_of; rewrite Hc; reflexivity).
  subst r.
  assert (Hs : search_from fl (ast_of pattern) false None (pre ++ rest)
               = Some (Match rest e)).
  { rewrite (search_from_skip fl (ast_of pattern) pre rest None Hn).
    exact (search_from_here fl (ast_of pattern) _ rest e l Hr). }
  destruct (search_some_findall fl pattern (pre ++ rest) (ast_of pattern) _ Hc Hs)
    as [more ->].
  exists more. unfold findall_item, group1. rewrite Hg. cbn [mo_end]. rewrite Hv.
  reflexivity.
Qed.

Ltac run_on_label :=
  rewrite run_direct_eq; eexists; cbv -[between];
  repeat (rewrite between_cons by (simpl; lia)); rewrite ?between_self;
  reflexivity.

Lemma gross_at_label (prev : option ascii) (x : str) :
  exists l,
    run ignorecase (ast_of gross_pattern)
        (MState prev (py "GROSS WEIGHT: 100 KG" ++ x) None)
    = MState (Some "G"%char) x (Some (py "100 KG")) :: l.
Proof. run_on_label. Qed.

Lemma net_at_label (prev : option ascii) (x : str) :
  exists l,
    run ignorecase (ast_of net_pattern)
        (MState prev (py "NET WEIGHT: 90 KG" ++ x) None)
    = MState (Some "G"%char) x (Some (py "90 KG")) :: l.
Proof. run_on_label. Qed.

Lemma weight_at_label (prev : option ascii) (x : str) :
  exists l,
    run ignorecase (ast_of weight_pattern)
        (MState prev (py "WEIGHT: 50 KG" ++ x) None)
    = MState (Some "G"%char) x (Some (py "50 KG")) :: l.
Proof. run_on_label. Qed.

(** C6. The weight loop routes by label.  (a) For every text, the net
    weight is the first match of the NET pattern (empty if none) and the
    gross weight is the first match of the GROSS pattern, the first match
    of the generic WEIGHT pattern being used only when the GROSS pattern
    matches nowhere: a generic match never replaces a gross weight already
    found and never fills the net weight.  (b) A text in which
    [GROSS WEIGHT: 100 KG] is the first match of the GROSS pattern and
    [NET WEIGHT: 90 KG] the first match of the NET pattern gives gross
    [100 KG] and net [90 KG].  (c) A text without a match of the GROSS or
    the NET pattern in which [WEIGHT: 50 KG] is the first match of the
    generic pattern gives gross [50 KG] and an empty net weight. *)
Theorem extract_weights_quantities_routing :
  (forall text, exists G N W q,
     findall gross_pattern text ignorecase = Ok G /\
     findall net_pattern text ignorecase = Ok N /\
     findall weight_pattern text ignorecase = Ok W /\
     extract_weights_quantities text =
       Ok (match G with g :: _ => g | [] => hd [] W end, hd [] N, q)) /\
  (forall pre mid post,
     let gross := py "GROSS WEIGHT: 100 KG" in
     let net := py "NET WEIGHT: 90 KG" in
     no_match_inside gross_pattern ignorecase pre (gross ++ mid ++ net ++ post) ->
     no_match_inside net_pattern ignorecase (pre ++ gross ++ mid) (net ++ post) ->
     exists q,
       extract_weights_quantities (pre ++ gross ++ mid ++ net ++ post)
       = Ok (py "100 KG", py "90 KG", q)) /\
  (forall pre post,
     let text := pre ++ py "WEIGHT: 50 KG" ++ post in
     findall gross_pattern text ignorecase = Ok [] ->
     findall net_pattern text ignorecase = Ok [] ->
     no_match_inside weight_pattern ignorecase pre (py "WEIGHT: 50 KG" ++ post) ->
     exists q, extract_weights_quantities text = Ok (py "50 KG", [], q)).
Proof.
  split; [exact weights_routing|]. split.
  - intros pre mid post gross net Hg Hn.
    destruct (gross_at_label (prev_at None pre) (mid ++ net ++ post)) as [lg Hrg].
    destruct (first_found ignorecase gross_pattern pre
                (gross ++ mid ++ net ++ post) (py "100 KG") _ lg
                eq_refl Hg Hrg eq_refl) as [mg HG].
    destruct (net_at_label (prev_at None (pre ++ gross ++ mid)) post) as [ln Hrn].
    destruct (first_found ignorecase net_pattern (pre ++ gross ++ mid)
                (net ++ post) (py "90 KG") _ ln
                eq_refl Hn Hrn eq_refl) as [mn HN].
    rewrite <- !app_assoc in HN.
    destruct (weights_routing (pre ++ gross ++ mid ++ net ++ post))
      as [G [N [W [q [HG' [HN' [_ H]]]]]]].
    rewrite HG in HG'. rewrite HN in HN'.
    injection HG' as <-. injection HN' as <-.
    exists q. exact H.
  - intros pre post text HG HN Hw.
    destruct (weight_at_label (prev_at None pre) post) as [lw Hrw].
    destruct (first_found ignorecase weight_pattern pre
                (py "WEIGHT: 50 KG" ++ post) (py "50 KG") _ lw
                eq_refl Hw Hrw eq_refl) as [mw HW].
    destruct (weights_routing text) as [G [N [W [q [HG' [HN' [HW' H]]]]]]].
    fold text in HW. rewrite HG in HG'. rewrite HN in HN'. rewrite HW in HW'.
    injection HG' as <-. injection HN' as <-. injection HW' as <-.
    exists q. exact H.
Qed.

(** On the two texts of the specification. *)
Lemma extract_weights_quantities_routing_witness :
  (exists q,
     extract_weights_quantities (py "GROSS WEIGHT: 100 KG\nNET WEIGHT: 90 KG")
     = Ok (py "100 KG", py "90 KG", q)) /\
  (exists q,
     extract_weights_quantities (py "WEIGHT: 50 KG") = Ok (py "50 KG", [], q)).
Proof.
  destruct extract_weights_quantities_routing as [_ [Hboth Hone]]. split.
  - destruct (Hboth [] [nl] []) as [q Hq].
    + exists (ast_of gross_pattern). split; [reflexivity|].
      apply nowhere_inb_spec. reflexivity.
    + exists (ast_of net_pattern). split; [reflexivity|].
      apply nowhere_inb_spec. vm_compute. reflexivity.
    + exists q. exact Hq.
  - destruct (Hone [] []) as [q Hq].
    + vm_compute. reflexivity.
    + vm_compute. reflexivity.
    + exists (ast_of weight_pattern). split; [reflexivity|].
      apply nowhere_inb_spec. reflexivity.
    + exists q. exact Hq.
Defined.

End Weights.

(** ** A NET label alone *)

Section NetOnly.

Import Re Plain BOLDataExtractor Spec.

Lemma flat_map_assoc {A B C} (f : A -> list B) (g : B -> list C) (l : list A) :
  flat_map g (flat_map f l) = flat_map (fun x => flat_map g (f x)) l.
Proof.
  induction l as [|x l IH]; simpl; [reflexivity|].
  rewrite flat_map_app, IH. reflexivity.
Qed.

Lemma run_seq_app (fl : flags) (a b : regex) :
  forall s, run fl (seq_app a b) s = flat_map (run fl b) (run fl a s).
Proof.
  induction a as [ | c | | neg items | | | x IHx y IHy | x IHx y IHy
                 | greedy lo hi x IHx | x IHx | x IHx ];
    intros s; cbn [seq_app]; try reflexivity.
  - cbn [run flat_map]. rewrite app_nil_r. reflexivity.
  - cbn [run]. rewrite flat_map_assoc. apply flat_map_ext. exact IHy.
Qed.

Lemma flat_map_head {A B} (f : A -> list B) (l : list A) (e : B) (l' : list B) :
  flat_map f l = e :: l' -> exists x l'', In x l /\ f x = e :: l''.
Proof.
  induction l as [|x l IH]; simpl; [discriminate|].
  destruct (f x) as [|y ys] eqn:E.
  - intros H. destruct (IH H) as [z [l'' [Hz Hf]]].
    exists z, l''. split; [right; exact Hz | exact Hf].
  - intros H. injection H as <- _. exists x, ys. split; [left; reflexivity | exact E].
Qed.

Lemma weight_ast : ast_of weight_pattern = RSeq weight_label weight_value.
Proof. vm_compute. reflexivity. Qed.

Lemma net_ast :
  ast_of net_pattern = RSeq (seq_app net_lead weight_label) weight_value.
Proof. vm_compute. reflexivity. Qed.

(** Where the NET pattern matches, the generic pattern matches after
    [NET] and the blanks that follow, with the same outcome. *)
Lemma run_net (fl : flags) (s : mstate) :
  run fl (ast_of net_pattern) s =
  flat_map (run fl (ast_of weight_pattern)) (run fl net_lead s).
Proof.
  rewrite net_ast, weight_ast. cbn [run]. rewrite run_seq_app.
  apply flat_map_assoc.
Qed.

Lemma greedy_states_in (p : ascii -> bool) (t : str) :
  forall prev cap s, In s (greedy_states p prev t cap) ->
    exists w, t = w ++ m_rest s /\ forallb p w = true /\
              m_prev s = prev_at prev w /\ m_cap s = cap.
Proof.
  induction t as [|c t IH]; intros prev cap s Hin; cbn [greedy_states] in Hin.
  - destruct Hin as [<- | []]. exists []. repeat split.
  - destruct (p c) eqn:Hc.
    + apply in_app_or in Hin as [Hin | [<- | []]].
      * destruct (IH _ _ _ Hin) as [w [Ht [Hw [Hp Hcap]]]].
        exists (c :: w). cbn [app forallb]. rewrite Hc, Hw, <- Ht.
        repeat split; assumption.
      * exists []. repeat split.
    + destruct Hin as [<- | []]. exists []. repeat split.
Qed.

Lemma run_lit_seq (fl : flags) (x : ascii) (b : regex) (prev : option ascii)
    (t : str) (cap : option str) :
  run fl (RSeq (RLit x) b) (MState prev t cap) =
  match t with
  | c :: t' => if lit_match fl x c then run fl b (MState (Some c) t' cap) else []
  | [] => []
  end.
Proof.
  cbn [run]. destruct t as [|c t]; [reflexivity|]. rewrite eat_cons.
  destruct (lit_match fl x c); cbn [flat_map]; [apply app_nil_r | reflexivity].
Qed.

(** What [NET\s*] has read when it stops. *)
Lemma net_lead_states (s s1 : mstate) :
  In s1 (run ignorecase net_lead s) ->
  exists c1 c2 c3 ws,
    m_rest s = c1 :: c2 :: c3 :: ws ++ m_rest s1 /\
    lower_char c1 = "n"%char /\ lower_char c2 = "e"%char /\
    lower_char c3 = "t"%char /\ forallb isspace ws = true /\
    m_prev s1 = prev_at (Some c3) ws /\ m_cap s1 = m_cap s.
Proof.
  destruct s as [prev t cap]. unfold net_lead. cbn [m_rest m_cap].
  rewrite run_lit_seq. destruct t as [|c1 t]; [intros []|].
  unfold lit_match at 1. cbn [IGNORECASE ignorecase].
  destruct (Ascii.eqb_spec (lower_char "N") (lower_char c1)) as [E1|]; [|intros []].
  rewrite run_lit_seq. destruct t as [|c2 t]; [intros []|].
  unfold lit_match at 1. cbn [IGNORECASE ignorecase].
  destruct (Ascii.eqb_spec (lower_char "E") (lower_char c2)) as [E2|]; [|intros []].
  rewrite run_lit_seq. destruct t as [|c3 t]; [intros []|].
  unfold lit_match at 1. cbn [IGNORECASE ignorecase].
  destruct (Ascii.eqb_spec (lower_char "T") (lower_char c3)) as [E3|]; [|intros []].
  rewrite run_then_empty. cbn [run].
  change (repeat_loop (run ignorecase (RSet false [CSpace])))
    with (repeat_loop (eat (set_match ignorecase false [CSpace]))).
  rewrite repeat_star_eat by (cbn [m_rest]; lia). cbn [m_prev m_rest m_cap].
  intros Hin. apply greedy_states_in in Hin as [w [Ht [Hw [Hp Hc]]]].
  exists c1, c2, c3, w. rewrite Ht. repeat split; try (symmetry; assumption);
    try assumption.
  rewrite <- Hw. apply forallb_same. intros c.
  unfold set_match. simpl.
  destruct (isspace c) eqn:Hs; [reflexivity|]. simpl.
  destruct (isspace (lower_char c)) eqn:Hl.
  - unfold lower_char in Hl. destruct (isupper c) eqn:Hu; [|congruence].
    clear - Hu Hl. exfalso. unfold isupper, isspace, in_range, code in *.
    rewrite N_ascii_embedding in Hl
      by (apply andb_true_iff in Hu as [_ Hu]; apply N.leb_le in Hu; lia).
    apply andb_true_iff in Hu as [Hu1 Hu2].
    apply N.leb_le in Hu1. apply N.leb_le in Hu2.
    apply orb_true_iff in Hl as [Hl | Hl];
      apply andb_true_iff in Hl as [_ Hl]; apply N.leb_le in Hl; lia.
  - simpl. unfold upper_char. destruct (islower c) eqn:Hu; [|rewrite Hs; reflexivity].
    destruct (isspace (ascii_of_N (code c - 32))) eqn:Hx; [|reflexivity].
    clear - Hu Hx. exfalso. unfold islower, isspace, in_range, code in *.
    apply andb_true_iff in Hu as [Hu1 Hu2].
    apply N.leb_le in Hu1. apply N.leb_le in Hu2.
    rewrite N_ascii_embedding in Hx by lia.
    apply orb_true_iff in Hx as [Hx | Hx];
      apply andb_true_iff in Hx as [_ Hx]; apply N.leb_le in Hx; lia.
Qed.

Lemma weight_label_head : exists b, weight_label = RSeq (RLit "W") b.
Proof. vm_compute. eexists. reflexivity. Qed.

(** The generic pattern starts on a [W]. *)
Lemma weight_needs_w (prev : option ascii) (c : ascii) (t : str) :
  lower_char c <> "w"%char ->
  run ignorecase (ast_of weight_pattern) (MState prev (c :: t) None) = [].
Proof.
  intros H. rewrite weight_ast. cbn [run].
  destruct weight_label_head as [b ->]. rewrite run_lit_seq.
  unfold lit_match. cbn [IGNORECASE ignorecase].
  destruct (Ascii.eqb_spec (lower_char "W") (lower_char c)) as [E|]; [|reflexivity].
  exfalso. apply H. rewrite <- E. reflexivity.
Qed.

Lemma isspace_not_w (c : ascii) : isspace c = true -> lower_char c <> "w"%char.
Proof.
  destruct c as [[] [] [] [] [] [] [] []]; vm_compute; congruence.
Qed.

Lemma app_eq_shorter {A} (a b c d : list A) :
  a ++ b = c ++ d -> List.length d <= List.length b ->
  exists u, b = u ++ d /\ c = a ++ u.
Proof.
  revert c. induction a as [|x a IH]; intros c H Hlen.
  - exists c. split; [exact H | reflexivity].
  - destruct c as [|y c].
    + exfalso. cbn [app] in H. rewrite <- H in Hlen. simpl in Hlen.
      rewrite length_app in Hlen. lia.
    + injection H as <- H. destruct (IH c H Hlen) as [u [Hb Hc]].
      exists u. split; [exact Hb | rewrite Hc; reflexivity].
Qed.

(** C10. A text in which the GROSS pattern matches nowhere, the NET
    pattern matches, and the generic WEIGHT pattern has no match that
    starts before the first NET match (no label of its own ahead of it):
    [extract_weights_quantities] returns the value of the NET label, which
    is not empty, both as net weight and as gross weight.  The generic
    pattern matches on the [WEIGHT] inside the NET label and fills the
    gross weight, which is still empty. *)
Theorem net_label_fills_gross (text : str) (m_net : match_obj) :
  findall gross_pattern text ignorecase = Ok [] ->
  search net_pattern text ignorecase = Ok (Some m_net) ->
  (forall m, search weight_pattern text ignorecase = Ok (Some m) ->
             start text m_net <= start text m) ->
  exists v q,
    group1 m_net = Some v /\ v <> [] /\
    extract_weights_quantities text = Ok (v, v, q).
Proof.
  intros HG Hnet Hfirst.
  assert (Hcn : compile net_pattern = Ok (ast_of net_pattern)) by reflexivity.
  assert (Hcw : compile weight_pattern = Ok (ast_of weight_pattern)) by reflexivity.
  unfold search in Hnet, Hfirst. rewrite Hcn in Hnet. rewrite Hcw in Hfirst.
  cbn [bind] in Hnet, Hfirst. injection Hnet as Hnet.
  (* where the NET pattern matches *)
  destruct (search_from_first ignorecase (ast_of net_pattern) text None m_net Hnet)
    as [pre0 [l0 [Htext [_ Hrun]]]].
  rewrite run_net in Hrun.
  destruct (flat_map_head _ _ _ _ Hrun) as [s1 [l1 [Hs1 Hw1]]].
  destruct (net_lead_states _ s1 Hs1)
    as [c1 [c2 [c3 [ws [Hrest [E1 [E2 [E3 [Hws [Hprev Hcap]]]]]]]]]].
  cbn [m_rest m_cap] in Hrest, Hcap.
  set (lead := c1 :: c2 :: c3 :: ws) in *.
  change (mo_start m_net = lead ++ m_rest s1) in Hrest.
  assert (Hs1eq : s1 = MState (prev_at None (pre0 ++ lead)) (m_rest s1) None).
  { rewrite prev_at_app. destruct s1 as [p1 r1 k1]. cbn [m_prev m_rest m_cap] in *.
    subst p1 k1. reflexivity. }
  assert (Htext' : text = (pre0 ++ lead) ++ m_rest s1).
  { rewrite Htext, Hrest. apply app_assoc. }
  (* the generic pattern matches there, so it has a first match *)
  rewrite Hs1eq in Hw1.
  destruct (search_from_before ignorecase (ast_of weight_pattern)
              (pre0 ++ lead) (m_rest s1) None _ _ Hw1) as [mg [Hsg Hlen1]].
  rewrite <- Htext' in Hsg.
  assert (Hlen2 : List.length (mo_start mg) <= List.length (mo_start m_net)).
  { specialize (Hfirst mg (f_equal Ok Hsg)). unfold start in Hfirst.
    destruct (search_from_first ignorecase _ text None mg Hsg)
      as [pg [_ [Hpg _]]].
    assert (List.length text = List.length pg + List.length (mo_start mg))
      by (rewrite Hpg at 1; apply length_app).
    assert (List.length text = List.length pre0 + List.length (mo_start m_net))
      by (rewrite Htext at 1; apply length_app).
    lia. }
  destruct (search_from_first ignorecase _ text None mg Hsg)
    as [pg [lg [Hpg [_ Hrg]]]].
  (* its start lies on the NET label: it is the WEIGHT of that label *)
  assert (Hsplit : exists u, lead ++ m_rest s1 = u ++ mo_start mg /\ pg = pre0 ++ u).
  { apply app_eq_shorter; [|rewrite <- Hrest; exact Hlen2].
    rewrite <- Hrest, <- Htext. exact Hpg. }
  destruct Hsplit as [u [Hu Hpgu]].
  symmetry in Hu.
  destruct (app_eq_shorter u (mo_start mg) lead (m_rest s1) Hu Hlen1)
    as [v [Hv Hlead]].
  assert (Hvnil : v = []).
  { destruct v as [|c v]; [reflexivity|]. exfalso.
    assert (Hc : lower_char c <> "w"%char).
    { assert (Hin : In c lead) by (rewrite Hlead; apply in_elt).
      unfold lead in Hin. cbn [In] in Hin.
      destruct Hin as [<- | [<- | [<- | Hin]]].
      - rewrite E1. discriminate.
      - rewrite E2. discriminate.
      - rewrite E3. discriminate.
      - apply isspace_not_w.
        exact (proj1 (forallb_forall _ _) Hws c Hin). }
    rewrite Hv in Hrg. cbn [app] in Hrg.
    rewrite (weight_needs_w _ c _ Hc) in Hrg. discriminate. }
  subst v. cbn [app] in Hv. rewrite app_nil_r in Hlead. subst u.
  rewrite Hv, Hpgu, Hw1 in Hrg. injection Hrg as Hend _.
  (* so both patterns list the same value first *)
  destruct (search_from_captured ignorecase (ast_of net_pattern) 3 text None false
              m_net eq_refl Hnet) as [v [Hgv Hvlen]].
  destruct (search_some_findall ignorecase net_pattern text _ m_net Hcn Hnet)
    as [moreN HN].
  destruct (search_some_findall ignorecase weight_pattern text _ mg Hcw Hsg)
    as [moreW HW].
  unfold findall_item in HN, HW.
  change (count_groups (ast_of net_pattern)) with 1 in HN.
  change (count_groups (ast_of weight_pattern)) with 1 in HW.
  unfold group1 in HW. rewrite <- Hend in HW. fold (group1 m_net) in HW.
  rewrite Hgv in HN, HW.
  destruct (weights_routing text) as [G [N [W [q [HG' [HN' [HW' H]]]]]]].
  rewrite HG in HG'. rewrite HN in HN'. rewrite HW in HW'.
  injection HG' as <-. injection HN' as <-. injection HW' as <-.
  exists v, q. split; [exact Hgv|]. split; [|exact H].
  destruct v; [simpl in Hvlen; lia | discriminate].
Qed.

(** On the text [NET WEIGHT: 90 KG]. *)
Lemma net_label_fills_gross_witness :
  exists q,
    extract_weights_quantities (py "NET WEIGHT: 90 KG")
    = Ok (py "90 KG", py "90 KG", q).
Proof.
  pose (text := py "NET WEIGHT: 90 KG").
  pose (m := Match text (MState (Some "G"%char) [] (Some (py "90 KG")))).
  destruct (net_label_fills_gross text m) as [v [q [Hv [_ H]]]].
  - vm_compute. reflexivity.
  - vm_compute. reflexivity.
  - intros m' Hm'. vm_compute in Hm'. injection Hm' as <-. vm_compute. lia.
  - injection Hv as <-. exists q. exact H.
Defined.

End NetOnly.

(** ** Parties and the whole record *)

Section Parties.

Import Re Plain BOLDataExtractor Spec.

Lemma cleaned_strip (g : str) : strip (cleaned g) = cleaned g.
Proof.
  destruct (cleaned_shape g) as [_ [Hh Hd]].
  unfold strip, lstrip, rstrip.
  rewrite (dropwhile_fixed isspace (cleaned g))
    by exact (head_passes_weaken separator isspace _ isspace_separator Hh).
  exact (drop_trailing_weaken separator isspace _ isspace_separator Hd).
Qed.

(** A tidy text is a single line. *)
Lemma tidy_one_line (t : str) : tidy t = true -> split nl t = [t].
Proof.
  induction t as [|c t IH]; [reflexivity|]. intros H.
  cbn [split]. destruct (Ascii.eqb_spec c nl) as [->|Hc].
  - cbn [tidy] in H. discriminate.
  - rewrite (IH (tidy_tail c t H)). reflexivity.
Qed.

(** After cleaning there is nothing left to split: the whole block is
    the name and the address is empty. *)
Lemma split_name_address_cleaned (g : str) :
  split_name_address (cleaned g) = (cleaned g, []).
Proof.
  unfold split_name_address.
  destruct (cleaned g) as [|c t] eqn:E; [reflexivity|]. cbn [truthy negb].
  rewrite <- E. rewrite (tidy_one_line _ (proj1 (cleaned_shape g))).
  cbn [hd tl List.length Nat.ltb Nat.leb]. rewrite cleaned_strip. reflexivity.
Qed.

(** [extract_field] always returns, either the empty string or a cleaned
    group. *)
Lemma extract_field_loop_cleaned (text : str) (patterns : list str) :
  (forall p, In p patterns -> compiles_with_group p = true) ->
  exists v, extract_field_loop text patterns = Ok v /\
            (v = [] \/ exists g, v = cleaned g).
Proof.
  induction patterns as [|p ps IH]; intros H.
  - exists []. split; [reflexivity | left; reflexivity].
  - cbn [extract_field_loop]. unfold search.
    destruct (compiles_with_group_ast p (H p (or_introl eq_refl))) as [Hc [k Hk]].
    rewrite Hc. cbn [bind].
    assert (Hps : forall q, In q ps -> compiles_with_group q = true)
      by (intros q Hq; apply H; right; exact Hq).
    destruct (search_from field_flags (ast_of p) false None text) as [mo|] eqn:Hs;
      [|exact (IH Hps)].
    destruct (search_from_captured field_flags (ast_of p) k text None false mo Hk Hs)
      as [g [Hg _]].
    rewrite Hg. cbn [strip_of bind].
    destruct (truthy (strip g)); [|exact (IH Hps)].
    rewrite clean_field_data_cleaned. eexists. split; [reflexivity|].
    right. eexists. reflexivity.
Qed.

Lemma extract_field_cleaned (text : str) (field_type : string) :
  exists v, extract_field text field_type = Ok v /\
            split_name_address v = (v, []).
Proof.
  destruct (extract_field_loop_cleaned text (FieldPatterns.get_patterns field_type))
    as [v [Hv Hshape]].
  { intros p Hp.
    exact (proj1 (forallb_forall _ _) catalog_compiles p
             (get_patterns_catalog field_type p Hp)). }
  exists v. split; [exact Hv|].
  destruct Hshape as [-> | [g ->]]; [reflexivity | apply split_name_address_cleaned].
Qed.

(** For every text, [extract_parties] returns the three cleaned blocks as
    names, with three empty addresses. *)
Lemma extract_parties_addresses_empty (text : str) :
  exists shipper consignee notify,
    extract_field text "shipper" = Ok shipper /\
    extract_field text "consignee" = Ok consignee /\
    extract_field text "notify_party" = Ok notify /\
    extract_parties text = Ok (shipper, [], consignee, [], notify, []).
Proof.
  destruct (extract_field_cleaned text "shipper") as [s [Hs Hss]].
  destruct (extract_field_cleaned text "consignee") as [c [Hc Hcs]].
  destruct (extract_field_cleaned text "notify_party") as [n [Hn Hns]].
  exists s, c, n. repeat (split; [assumption|]).
  unfold extract_parties. rewrite Hs, Hc, Hn. cbn [bind].
  rewrite Hss, Hcs, Hns. reflexivity.
Qed.

(** C1. On a text whose SHIPPER block has two lines: the shipper pattern
    captures the block [Acme Corp\n123 Main St], and the local function
    [split_name_address] would split it into name [Acme Corp] and address
    [123 Main St]; but [extract_field] has cleaned the block, newline
    included, before the split, and [extract_parties] returns the name
    [Acme Corp 123 Main St] with an empty address. *)
Theorem extract_parties_two_line_block :
  let text := py "SHIPPER: Acme Corp\n123 Main St\nCONSIGNEE: Beta Ltd\nVESSEL: X" in
  let block := py "Acme Corp\n123 Main St" in
  (exists mo,
     search (raw "(?:SHIPPER\.?\s*:?\s*)(.*?)(?=\n\s*(?:CONSIGNEE|Consignee|\n\n))")
            text field_flags = Ok (Some mo) /\
     group1 mo = Some block) /\
  split_name_address block = (py "Acme Corp", py "123 Main St") /\
  extract_parties text
    = Ok (py "Acme Corp 123 Main St", [], py "Beta Ltd", [], [], []).
Proof.
  split; [|split].
  - eexists. split; vm_compute; reflexivity.
  - vm_compute. reflexivity.
  - vm_compute. reflexivity.
Qed.

(** C3. The record [extract_all_fields] builds from the sample text of the
    specification, without tables.  Identifier, vessel, voyage, freight
    terms, weights and date are as the specification lists them and the
    failure flag is down; the shipper and consignee names carry the whole
    block, both addresses are empty, and the quantity is [100]. *)
Theorem extract_all_fields_sample (fname : str) :
  let text := py "B/L NUMBER: BOL123456789\nSHIPPER:\nABC Shipping Company\n123 Export Lane\nCONSIGNEE:\nXYZ Import Corp\n456 Harbor Blvd\nVESSEL: MV Ocean Carrier\nVOYAGE: VOY2024001\nPORT OF LOADING: Los Angeles, CA\nPORT OF DISCHARGE: New York, NY\nFREIGHT: PREPAID\nGROSS WEIGHT: 2,500 KG\nNET WEIGHT: 2,200 KG\nPACKAGES: 100 CTNS\nDATE: 15/03/2024" in
  let b := extract_all_fields text [] fname in
  bol_number b = py "BOL123456789" /\
  shipper_name b = py "ABC Shipping Company 123 Export Lane" /\
  shipper_address b = [] /\
  consignee_name b = py "XYZ Import Corp 456 Harbor Blvd" /\
  consignee_address b = [] /\
  vessel_name b = py "MV Ocean Carrier" /\
  voyage_number b = py "VOY2024001" /\
  freight_terms b = py "PREPAID" /\
  gross_weight b = py "2,500 KG" /\
  net_weight b = py "2,200 KG" /\
  quantity_packages b = py "100" /\
  date_of_issue b = py "15/03/2024" /\
  extraction_failed b = false.
Proof. vm_compute. repeat split. Qed.

End Parties.

(** ** More on the method selector *)

Section SelectorMore.

Import PDFProcessor Spec Cover.

Lemma ocr_success_meets (self : PDFProcessor.t) (pdf : pdf_file) :
  snd (extract_text_ocr self pdf) = true ->
  (min_text_threshold self <= len (strip (ocr_text self pdf)))%Z.
Proof.
  unfold ocr_text, extract_text_ocr.
  destruct (_ <- import_fitz pdf ;; pages <- plumber_ocr pdf ;; ocr_pages pages [])
    as [txt|e]; simpl; [|discriminate].
  intros H. apply Z.geb_le. exact H.
Qed.

(** What [process_pdf] returns hangs together: the confidence is that of
    the text returned; the label is one of three; [ocr] comes with the OCR
    text, which reaches the threshold; [text_fallback] comes with a native
    text that is not empty; both come only after an OCR call; and the
    native extraction is always called first. *)
Theorem process_pdf_result_coherent (self : PDFProcessor.t) (pdf : pdf_file) :
  let text := fst (fst (fst (process_pdf self pdf))) in
  let method := snd (fst (fst (process_pdf self pdf))) in
  let confidence := snd (fst (process_pdf self pdf)) in
  let calls := snd (process_pdf self pdf) in
  confidence = assess_text_quality text /\
  (method = "text" \/ method = "ocr" \/ method = "text_fallback") /\
  (method = "ocr" ->
     text = ocr_text self pdf /\ In CallOCR calls /\
     (min_text_threshold self <= len (strip text))%Z) /\
  (method = "text_fallback" ->
     text = native_text self pdf /\ In CallOCR calls /\ text <> []) /\
  (method = "text" -> text = native_text self pdf) /\
  hd_error calls = Some CallText.
Proof.
  cbv zeta. rewrite process_pdf_unfold. cbv zeta. unfold native_confidence.
  destruct (negb (snd (extract_text_pdfplumber self pdf))
            || String.eqb (assess_text_quality (native_text self pdf)) "low").
  - destruct (snd (extract_text_ocr self pdf)) eqn:Ho.
    + cbn [fst snd]. repeat split; auto; try discriminate.
      * simpl. auto.
      * exact (ocr_success_meets self pdf Ho).
    + destruct (truthy (native_text self pdf)) eqn:Ht; cbn [fst snd];
        repeat split; auto; try discriminate.
      * simpl. auto.
      * intros E. rewrite E in Ht. discriminate.
  - cbn [fst snd]. repeat split; auto; discriminate.
Qed.

Lemma text_pages_raise (pages : list (res (option str))) (e : exn) :
  In (Raise e) pages ->
  forall acc, exists e', text_pages pages acc = Raise e'.
Proof.
  induction pages as [|page pages IH]; intros Hin acc; [destruct Hin|].
  cbn [text_pages]. destruct page as [[txt|]|e0]; cbn [bind].
  - destruct Hin as [H|Hin]; [discriminate|].
    destruct (truthy txt); exact (IH Hin _).
  - destruct Hin as [H|Hin]; [discriminate|]. exact (IH Hin _).
  - exists e0. reflexivity.
Qed.

Lemma text_pages_ok (pages : list (option str)) :
  forall acc, text_pages (map Ok pages) acc = Ok (acc ++ page_texts pages).
Proof.
  induction pages as [|page pages IH]; intros acc; cbn [map text_pages bind].
  - rewrite app_nil_r. reflexivity.
  - unfold page_texts. cbn [flat_map]. fold (page_texts pages).
    destruct page as [txt|]; [destruct (truthy txt)|]; rewrite IH.
    + rewrite <- !app_assoc. reflexivity.
    + reflexivity.
    + reflexivity.
Qed.

Lemma ocr_pages_raise (pages : list (res str)) (e : exn) :
  In (Raise e) pages ->
  forall acc, exists e', ocr_pages pages acc = Raise e'.
Proof.
  induction pages as [|page pages IH]; intros Hin acc; [destruct Hin|].
  cbn [ocr_pages]. destruct page as [txt|e0]; cbn [bind].
  - destruct Hin as [H|Hin]; [discriminate|]. exact (IH Hin _).
  - exists e0. reflexivity.
Qed.

Lemma ocr_pages_ok (pages : list str) :
  forall acc, ocr_pages (map Ok pages) acc = Ok (acc ++ ocr_texts pages).
Proof.
  induction pages as [|page pages IH]; intros acc; cbn [map ocr_pages bind].
  - rewrite app_nil_r. reflexivity.
  - unfold ocr_texts. cbn [flat_map]. fold (ocr_texts pages).
    rewrite IH, <- !app_assoc. reflexivity.
Qed.

(** The native text is all or nothing: when every page answers, it is the
    text of the pages that have some, a newline after each, and the flag
    says whether its trimmed length reaches the threshold; when one page
    raises, wherever it is, the texts of all pages are dropped and the
    result is the empty text with the flag down. *)
Theorem extract_text_pdfplumber_all_or_nothing
    (self : PDFProcessor.t) (pdf : pdf_file) :
  (forall pages, plumber_text pdf = Ok (map Ok pages) ->
     extract_text_pdfplumber self pdf
     = (page_texts pages,
        Z.geb (len (strip (page_texts pages))) (min_text_threshold self))) /\
  (forall pages e, plumber_text pdf = Ok pages -> In (Raise e) pages ->
     extract_text_pdfplumber self pdf = ([], false)).
Proof.
  unfold extract_text_pdfplumber. split.
  - intros pages ->. cbn [bind]. rewrite text_pages_ok. reflexivity.
  - intros pages e -> Hin. cbn [bind].
    destruct (text_pages_raise pages e Hin []) as [e' ->]. reflexivity.
Qed.

Lemma extract_text_pdfplumber_all_or_nothing_witness :
  extract_text_pdfplumber new
    (PdfFile (Ok tt) (Ok [Ok (Some (py "page one")); Ok None;
                          Ok (Some (py "page three"))]) (Ok []))
  = (py "page one\npage three\n", false) /\
  extract_text_pdfplumber new
    (PdfFile (Ok tt)
       (Ok [Ok (Some (py "page one")); Raise (Exn "PDFSyntaxError" (py "bad page"))])
       (Ok []))
  = ([], false).
Proof.
  split.
  - match goal with |- extract_text_pdfplumber _ ?f = _ => set (pdf := f) end.
    rewrite (proj1 (extract_text_pdfplumber_all_or_nothing new pdf)
               [Some (py "page one"); None; Some (py "page three")] eq_refl).
    vm_compute. reflexivity.
  - match goal with |- extract_text_pdfplumber _ ?f = _ => set (pdf := f) end.
    exact (proj2 (extract_text_pdfplumber_all_or_nothing new pdf) _
             (Exn "PDFSyntaxError" (py "bad page")) eq_refl
             (or_intror (or_introl eq_refl))).
Defined.

(** The OCR text likewise: with [fitz] importable and every page read, it
    is the text of every page, a newline after each (so as many newlines
    as pages at least); when the import, the opening or one page raises,
    the result is the empty text with the flag down. *)
Theorem extract_text_ocr_all_or_nothing (self : PDFProcessor.t) (pdf : pdf_file) :
  (forall pages, import_fitz pdf = Ok tt -> plumber_ocr pdf = Ok (map Ok pages) ->
     extract_text_ocr self pdf
     = (ocr_texts pages,
        Z.geb (len (strip (ocr_texts pages))) (min_text_threshold self)) /\
     List.length pages <= count nl (ocr_texts pages)) /\
  (forall e, import_fitz pdf = Raise e -> extract_text_ocr self pdf = ([], false)) /\
  (forall e, plumber_ocr pdf = Raise e -> extract_text_ocr self pdf = ([], false)) /\
  (forall pages e, plumber_ocr pdf = Ok pages -> In (Raise e) pages ->
     extract_text_ocr self pdf = ([], false)).
Proof.
  unfold extract_text_ocr. repeat split.
  - rewrite H, H0. cbn [bind]. rewrite ocr_pages_ok. reflexivity.
  - clear. induction pages as [|p ps IH]; [simpl; lia|].
    unfold ocr_texts. cbn [flat_map]. fold (ocr_texts ps).
    assert (Hc : forall a b, count nl (a ++ b) = count nl a + count nl b).
    { clear. induction a as [|x a IHa]; intros b; simpl; [reflexivity|].
      rewrite IHa. lia. }
    rewrite !Hc. simpl. destruct (Ascii.eqb nl nl) eqn:E; [simpl; lia|].
    apply Ascii.eqb_neq in E. congruence.
  - intros e ->. reflexivity.
  - intros e ->. destruct (import_fitz pdf); reflexivity.
  - intros pages e -> Hin. destruct (import_fitz pdf); cbn [bind]; [|reflexivity].
    destruct (ocr_pages_raise pages e Hin []) as [e' ->]. reflexivity.
Qed.

Lemma extract_text_ocr_all_or_nothing_witness :
  extract_text_ocr new
    (PdfFile (Ok tt) (Ok []) (Ok [Ok (py "scan"); Ok []]))
  = (py "scan\n\n", false) /\
  extract_text_ocr new
    (PdfFile (Raise (Exn "ModuleNotFoundError" (py "No module named 'fitz'")))
       (Ok []) (Ok [Ok (py "scan")]))
  = ([], false).
Proof.
  split.
  - match goal with |- extract_text_ocr _ ?f = _ => set (pdf := f) end.
    rewrite (proj1 (proj1 (extract_text_ocr_all_or_nothing new pdf)
                      [py "scan"; []] eq_refl eq_refl)).
    vm_compute. reflexivity.
  - match goal with |- extract_text_ocr _ ?f = _ => set (pdf := f) end.
    exact (proj1 (proj2 (extract_text_ocr_all_or_nothing new pdf)) _ eq_refl).
Defined.

End SelectorMore.

(** ** What [extract_all_fields] leaves alone *)

Section RecordInvariants.

Import BOLDataExtractor Spec Cover.

Lemma untouched_refl (b : BOLData) : untouched b b.
Proof. repeat split. Qed.

Lemma untouched_trans (a b c : BOLData) :
  untouched a b -> untouched b c -> untouched a c.
Proof.
  unfold untouched. intros [H1 [H2 [H3 [H4 H5]]]] [K1 [K2 [K3 [K4 K5]]]].
  repeat split; congruence.
Qed.

Lemma assign_untouched {A} (setter : A -> BOLData -> BOLData) (value : res A)
    (b : BOLData) :
  (forall v b', untouched (setter v b') b') ->
  untouched (fst (assign setter value b)) b.
Proof.
  intros H. unfold assign. destruct value; cbn [fst];
    [apply H | apply untouched_refl].
Qed.

Lemma goods_loop_untouched (this : methods) (text : str) (patterns : list str)
    (b : BOLData) :
  untouched (fst (goods_loop this text patterns b)) b.
Proof.
  induction patterns as [|p ps IH]; cbn [goods_loop]; [apply untouched_refl|].
  destruct (Re.search p text field_flags) as [[mo|]|e].
  - apply assign_untouched. intros v [ ]. repeat split.
  - exact IH.
  - apply untouched_refl.
Qed.

(** No statement of the block writes the file name, the method, the
    confidence, the notes or the failure flag. *)
Lemma body_stmt_untouched (this : methods) (text : str)
    (tables : list data_frame) (s : stmt) (b : BOLData) :
  In s (body this text tables) -> untouched (fst (s b)) b.
Proof.
  intros Hin. unfold body in Hin. cbn [In] in Hin.
  repeat (destruct Hin as [<- | Hin];
          [try (apply assign_untouched; intros v [ ];
                repeat (let x := fresh in destruct v as [v x]);
                repeat split)|]);
    try contradiction.
  - destruct tables; [apply untouched_refl|].
    apply assign_untouched. intros v [ ]. repeat split.
  - destruct (negb (truthy (description_of_goods b)));
      [apply goods_loop_untouched | apply untouched_refl].
Qed.

Lemma run_stmts_untouched (l : list stmt) :
  (forall s b, In s l -> untouched (fst (s b)) b) ->
  forall b, untouched (fst (run_stmts l b)) b.
Proof.
  induction l as [|s l IH]; intros H b; cbn [run_stmts].
  - apply untouched_refl.
  - unfold seq. pose proof (H s b (or_introl eq_refl)) as Hs.
    destruct (s b) as [b' [e|]]; cbn [fst] in *; [exact Hs|].
    apply (untouched_trans _ b'); [|exact Hs].
    apply IH. intros s' b'' Hin. apply H. right. exact Hin.
Qed.

(** Whatever the receiver's methods do, the record [extract_all_fields]
    returns carries the file name it was given, an empty method and the
    default confidence [medium]; and either the failure flag is down and
    the notes are empty, or the flag is up and the notes read
    ["Extraction error: "] followed by the text of an exception. *)
Theorem extract_all_fields_record_invariants
    (this : methods) (text : str) (tables : list data_frame) (fname : str) :
  let r := extract_all_fields_on this text tables fname in
  filename r = fname /\
  extraction_method r = "" /\
  extraction_confidence r = "medium" /\
  ((extraction_failed r = false /\ processing_notes r = []) \/
   (extraction_failed r = true /\
    exists e, processing_notes r = py "Extraction error: " ++ exn_str e)).
Proof.
  cbv zeta. unfold extract_all_fields_on, try_body.
  pose proof (run_stmts_untouched (body this text tables)
                (fun s b H => body_stmt_untouched this text tables s b H)
                (set_filename fname BOLData_new)) as Hu.
  destruct (run_stmts (body this text tables) (set_filename fname BOLData_new))
    as [b [e|]]; cbn [fst] in Hu; destruct Hu as [H1 [H2 [H3 [H4 H5]]]].
  - destruct (handler_fields e b) as [Hf [Hn Hs]].
    unfold same_fields in Hs.
    destruct Hs as [K1 Hs].
    assert (Km : extraction_method (handler e b) = extraction_method b)
      by (destruct b; reflexivity).
    assert (Kc : extraction_confidence (handler e b) = extraction_confidence b)
      by (destruct b; reflexivity).
    rewrite K1, Km, Kc, H1, H2, H3. repeat split.
    right. split; [exact Hf | exists e; exact Hn].
  - rewrite H1, H2, H3. repeat split. left. rewrite H4, H5. split; reflexivity.
Qed.

End RecordInvariants.

(** ** Description columns of the tables *)

Section Tables.

Import TableParser Cover.


Lemma cells_of_filter (table : data_frame) (col : str) :
  cells_of table col
  = flat_map (fun c => dropna (snd c))
             (filter (fun c => str_eqb (fst c) col) table).
Proof.
  unfold cells_of. induction table as [|c table IH]; [reflexivity|].
  cbn [flat_map filter]. destruct (str_eqb (fst c) col); cbn [flat_map];
    rewrite IH; reflexivity.
Qed.

Lemma length_filter_label (table : data_frame) (col : str) :
  List.length (filter (fun c => str_eqb (fst c) col) table)
  = count_occ (list_eq_dec ascii_dec) (map fst table) col.
Proof.
  induction table as [|c table IH]; [reflexivity|].
  cbn [filter map count_occ]. unfold str_eqb at 1.
  destruct (list_eq_dec ascii_dec (fst c) col); cbn [List.length]; rewrite IH;
    reflexivity.
Qed.

Lemma count_occ_filter (p : str -> bool) (l : list str) (x : str) :
  count_occ (list_eq_dec ascii_dec) (filter p l) x
  = if p x then count_occ (list_eq_dec ascii_dec) l x else 0.
Proof.
  induction l as [|y l IH]; [destruct (p x); reflexivity|].
  cbn [filter count_occ]. destruct (list_eq_dec ascii_dec y x) as [->|Hne].
  - destruct (p x) eqn:E; [|exact IH].
    cbn [count_occ]. destruct (list_eq_dec ascii_dec x x); [|congruence].
    rewrite IH, ?E. reflexivity.
  - destruct (p y); [|exact IH].
    cbn [count_occ]. destruct (list_eq_dec ascii_dec y x); [congruence|exact IH].
Qed.

(** A description label selects one column exactly when it is carried
    once. *)
Lemma column_values_label (table : data_frame) (col : str) :
  In col (description_labels table) ->
  (count_occ (list_eq_dec ascii_dec) (description_labels table) col = 1 ->
   column_values table col = Ok (cells_of table col)) /\
  (count_occ (list_eq_dec ascii_dec) (description_labels table) col <> 1 ->
   column_values table col
   = Raise (Exn "AttributeError"
              (raw "'DataFrame' object has no attribute 'tolist'"))).
Proof.
  intros Hin. unfold description_labels in *.
  pose proof (proj1 (count_occ_In (list_eq_dec ascii_dec) _ _) Hin) as Hpos.
  rewrite count_occ_filter in *.
  apply filter_In in Hin. destruct Hin as [_ Hp]. rewrite Hp in *.
  rewrite <- length_filter_label in *.
  unfold column_values. rewrite cells_of_filter.
  destruct (filter (fun c => str_eqb (fst c) col) table) as [|c [|c' l]];
    cbn [List.length] in *; split; intros H; try lia.
  - cbn [flat_map]. rewrite app_nil_r. reflexivity.
  - reflexivity.
Qed.

Lemma extend_columns_ok (table : data_frame) (cols acc : list str) :
  (forall col, In col cols ->
     In col (description_labels table) /\
     count_occ (list_eq_dec ascii_dec) (description_labels table) col = 1) ->
  extend_columns table cols acc = Ok (acc ++ flat_map (cells_of table) cols).
Proof.
  revert acc. induction cols as [|col cols IH]; intros acc H; cbn [extend_columns].
  - rewrite app_nil_r. reflexivity.
  - destruct (H col (or_introl eq_refl)) as [Hin Hone].
    rewrite (proj1 (column_values_label table col Hin) Hone). cbn [bind].
    rewrite IH by (intros c Hc; apply H; right; exact Hc).
    cbn [flat_map]. rewrite app_assoc. reflexivity.
Qed.

Lemma extend_columns_raise (table : data_frame) (cols acc : list str) :
  (forall col, In col cols -> In col (description_labels table)) ->
  (exists col, In col cols /\
     count_occ (list_eq_dec ascii_dec) (description_labels table) col <> 1) ->
  extend_columns table cols acc
  = Raise (Exn "AttributeError"
             (raw "'DataFrame' object has no attribute 'tolist'")).
Proof.
  revert acc. induction cols as [|col cols IH]; intros acc Hsub [bad [Hin Hbad]];
    [destruct Hin|].
  cbn [extend_columns].
  destruct (Nat.eq_dec
              (count_occ (list_eq_dec ascii_dec) (description_labels table) col) 1)
    as [Hone|Hne].
  - rewrite (proj1 (column_values_label table col (Hsub col (or_introl eq_refl)))
               Hone).
    cbn [bind]. apply IH.
    + intros c Hc. apply Hsub. right. exact Hc.
    + exists bad. split; [|exact Hbad].
      destruct Hin as [->|Hin]; [contradiction | exact Hin].
  - rewrite (proj2 (column_values_label table col (Hsub col (or_introl eq_refl)))
               Hne).
    reflexivity.
Qed.

Lemma distinct_labels_count (table : data_frame) :
  distinct_labels table <->
  forall col, In col (description_labels table) ->
    count_occ (list_eq_dec ascii_dec) (description_labels table) col = 1.
Proof.
  unfold distinct_labels. rewrite (NoDup_count_occ (list_eq_dec ascii_dec)).
  split; intros H col.
  - intros Hin. specialize (H col).
    apply (count_occ_In (list_eq_dec ascii_dec)) in Hin. lia.
  - destruct (in_dec (list_eq_dec ascii_dec) col (description_labels table))
      as [Hin|Hnin].
    + rewrite (H col Hin). lia.
    + apply (count_occ_not_In (list_eq_dec ascii_dec)) in Hnin. lia.
Qed.

Lemma duplicate_label (table : data_frame) :
  ~ distinct_labels table ->
  exists col, In col (description_labels table) /\
    count_occ (list_eq_dec ascii_dec) (description_labels table) col <> 1.
Proof.
  intros Hn.
  destruct (Forall_Exists_dec
              (fun col => count_occ (list_eq_dec ascii_dec)
                            (description_labels table) col = 1)
              (fun col => Nat.eq_dec _ 1) (description_labels table))
    as [Hall|Hex].
  - exfalso. apply Hn. apply distinct_labels_count.
    exact (proj1 (Forall_forall _ _) Hall).
  - apply Exists_exists in Hex. exact Hex.
Qed.

Lemma scan_table_ok (table : data_frame) (acc : list str) :
  distinct_labels table ->
  extend_columns table (description_labels table) acc
  = Ok (acc ++ flat_map (cells_of table) (description_labels table)).
Proof.
  intros Hd. apply extend_columns_ok. intros col Hin.
  split; [exact Hin | exact (proj1 (distinct_labels_count table) Hd col Hin)].
Qed.

Lemma scan_table_raise (table : data_frame) (acc : list str) :
  ~ distinct_labels table ->
  extend_columns table (description_labels table) acc
  = Raise (Exn "AttributeError"
             (raw "'DataFrame' object has no attribute 'tolist'")).
Proof.
  intros Hn. apply extend_columns_raise; [auto | exact (duplicate_label table Hn)].
Qed.

Lemma distinct_labels_decide (table : data_frame) :
  distinct_labels table \/ ~ distinct_labels table.
Proof.
  destruct (Forall_Exists_dec
              (fun col => count_occ (list_eq_dec ascii_dec)
                            (description_labels table) col = 1)
              (fun col => Nat.eq_dec _ 1) (description_labels table))
    as [Hall|Hex].
  - left. apply distinct_labels_count. exact (proj1 (Forall_forall _ _) Hall).
  - right. intros Hd. apply Exists_exists in Hex. destruct Hex as [col [Hin Hne]].
    exact (Hne (proj1 (distinct_labels_count table) Hd col Hin)).
Qed.

Lemma scan_tables_ok (tables : list data_frame) :
  Forall distinct_labels tables ->
  forall acc, scan_tables tables acc = Ok (acc ++ cargo_cells tables).
Proof.
  induction 1 as [|table tables Hd _ IH]; intros acc; cbn [scan_tables].
  - unfold cargo_cells. cbn [flat_map]. rewrite app_nil_r. reflexivity.
  - fold (description_labels table). rewrite (scan_table_ok table acc Hd).
    cbn [bind]. rewrite IH. unfold cargo_cells. cbn [flat_map].
    rewrite app_assoc. reflexivity.
Qed.

Lemma scan_tables_raise (tables : list data_frame) :
  ~ Forall distinct_labels tables ->
  forall acc, scan_tables tables acc
    = Raise (Exn "AttributeError"
               (raw "'DataFrame' object has no attribute 'tolist'")).
Proof.
  induction tables as [|table tables IH]; intros Hn acc.
  - exfalso. apply Hn. constructor.
  - cbn [scan_tables]. fold (description_labels table).
    destruct (distinct_labels_decide table) as [Hd|Hd].
    + rewrite (scan_table_ok table acc Hd). cbn [bind]. apply IH.
      intros Hall. apply Hn. constructor; assumption.
    + rewrite (scan_table_raise table acc Hd). reflexivity.
Qed.

(** When no table carries a description label twice,
    [parse_cargo_description_table] returns the cells of the description
    columns, missing cells left out, table after table and column after
    column, joined with ["; "]. *)
Theorem parse_cargo_description_table_distinct (tables : list data_frame) :
  Forall distinct_labels tables ->
  parse_cargo_description_table tables = Ok (table_description tables).
Proof.
  intros H. unfold parse_cargo_description_table, table_description.
  rewrite (scan_tables_ok tables H []). reflexivity.
Qed.

Lemma parse_cargo_description_table_distinct_witness :
  parse_cargo_description_table
    [ [ (py "Marks", [Some (py "N/M")]);
        (py "Description of Goods", [Some (py "Widgets"); None; Some (py "Bolts")]);
        (py "Cargo", [Some (py "Steel")]) ];
      [ (py "Qty", [Some (py "4")]) ] ]
  = Ok (py "Widgets; Bolts; Steel").
Proof.
  match goal with |- parse_cargo_description_table ?t = _ => set (tables := t) end.
  rewrite (parse_cargo_description_table_distinct tables).
  - vm_compute. reflexivity.
  - repeat constructor; cbv; intuition discriminate.
Defined.

(** When some table carries a description label on two columns,
    [parse_cargo_description_table] raises: selecting by that label gives a
    frame, which has no [tolist].  The cells collected before are lost. *)
Theorem parse_cargo_description_table_duplicate (tables : list data_frame) :
  ~ Forall distinct_labels tables ->
  parse_cargo_description_table tables
  = Raise (Exn "AttributeError"
             (raw "'DataFrame' object has no attribute 'tolist'")).
Proof.
  intros H. unfold parse_cargo_description_table.
  rewrite (scan_tables_raise tables H []). reflexivity.
Qed.

Lemma parse_cargo_description_table_duplicate_witness :
  parse_cargo_description_table
    [ [ (py "Cargo", [Some (py "Steel")]) ];
      [ (py "Description", [Some (py "Widgets")]);
        (py "Description", [Some (py "Bolts")]) ] ]
  = Raise (Exn "AttributeError"
             (raw "'DataFrame' object has no attribute 'tolist'")).
Proof.
  apply parse_cargo_description_table_duplicate.
  intros H. inversion H as [|? ? _ H2]; subst.
  inversion H2 as [|? ? H3 _]; subst.
  unfold distinct_labels in H3. vm_compute in H3.
  inversion H3 as [|? ? Hnin _]; subst. apply Hnin. left. reflexivity.
Defined.

End Tables.

(** ** [extract_all_fields] with the methods of the class *)

Section Receiver.

Import Re Plain BOLDataExtractor Spec Cover.

Lemma dates_loop_total (text : str) (patterns : list str) :
  (forall p, In p patterns -> compiles_with_group p = true) ->
  exists d, extract_dates_loop text patterns = Ok d.
Proof.
  induction patterns as [|p ps IH]; intros H.
  - exists []. reflexivity.
  - cbn [extract_dates_loop]. unfold findall.
    destruct (compiles_with_group_ast p (H p (or_introl eq_refl))) as [Hc _].
    rewrite Hc. cbn [bind].
    destruct (findall_from _ _ _ _ _ _) as [|first rest].
    + apply IH. intros q Hq. apply H. right. exact Hq.
    + exists first. reflexivity.
Qed.

Lemma extract_dates_total (text : str) : exists d, extract_dates text = Ok d.
Proof.
  apply dates_loop_total. intros p Hp.
  exact (proj1 (forallb_forall _ _) catalog_compiles p
           (get_patterns_catalog "date_patterns" p Hp)).
Qed.

Lemma extract_field_total (text : str) (field_type : string) :
  exists v, extract_field text field_type = Ok v.
Proof.
  destruct (extract_field_cleaned text field_type) as [v [Hv _]].
  exists v. exact Hv.
Qed.

Lemma goods_patterns_compile : forallb compiles_with_group goods_patterns = true.
Proof. vm_compute. reflexivity. Qed.

(** The loop over the goods patterns completes: it leaves the record as it
    is or sets the description to a cleaned group. *)
Lemma goods_loop_self (text : str) (patterns : list str) (b : BOLData) :
  (forall p, In p patterns -> compiles_with_group p = true) ->
  goods_loop self text patterns b = (b, None) \/
  exists g, goods_loop self text patterns b
            = (set_description_of_goods (cleaned g) b, None).
Proof.
  induction patterns as [|p ps IH]; intros H.
  - left. reflexivity.
  - cbn [goods_loop]. unfold search.
    destruct (compiles_with_group_ast p (H p (or_introl eq_refl))) as [Hc [k Hk]].
    rewrite Hc. cbn [bind].
    destruct (search_from field_flags (ast_of p) false None text) as [mo|] eqn:Hs.
    + destruct (search_from_captured field_flags (ast_of p) k text None false mo Hk Hs)
        as [g [Hg _]].
      rewrite Hg. cbn [self call_clean_field_data clean_field_data_of].
      rewrite clean_field_data_cleaned. right. exists g. reflexivity.
    + apply IH. intros q Hq. apply H. right. exact Hq.
Qed.

(** The record after the seven statements that read the text. *)
Lemma text_statements (text : str) (tables : list data_frame) (fname : str) :
  exists bol s c n v y pl pd d gw nw q ft,
    let b7 := mkBOLData fname bol s [] c [] n [] v y pl pd [] q gw nw ft d
                        "" "medium" [] false in
    run_stmts (body self text tables) (set_filename fname BOLData_new)
    = run_stmts (skipn 7 (body self text tables)) b7.
Proof.
  destruct (extract_field_total text "bol_number") as [bol Hbol].
  destruct (extract_parties_addresses_empty text) as [s [c [n [_ [_ [_ Hp]]]]]].
  destruct (extract_field_total text "vessel") as [v Hv].
  destruct (extract_field_total text "voyage") as [y Hy].
  destruct (extract_field_total text "port_of_load") as [pl Hpl].
  destruct (extract_field_total text "port_of_discharge") as [pd Hpd].
  destruct (extract_dates_total text) as [d Hd].
  destruct (weights_routing text) as [G [N [W [q [_ [_ [_ Hw]]]]]]].
  destruct (extract_field_total text "freight_terms") as [ft Hft].
  exists bol, s, c, n, v, y, pl, pd, d.
  eexists. eexists. exists q, ft. cbv zeta.
  unfold body. cbn [skipn run_stmts self call_extract_bol_number
    call_extract_parties call_extract_vessel_info call_extract_ports
    call_extract_dates call_extract_weights_quantities
    call_extract_freight_terms].
  unfold extract_bol_number, extract_vessel_info, extract_ports,
    extract_freight_terms.
  rewrite Hbol, Hp, Hv, Hy, Hpl, Hpd, Hd, Hw, Hft. reflexivity.
Qed.

Lemma all_distinct_decide (tables : list data_frame) :
  Forall distinct_labels tables \/ ~ Forall distinct_labels tables.
Proof.
  induction tables as [|table tables IH]; [left; constructor|].
  destruct (distinct_labels_decide table) as [Hd|Hd].
  - destruct IH as [IH|IH].
    + left. constructor; assumption.
    + right. intros H. inversion H; contradiction.
  - right. intros H. inversion H; contradiction.
Qed.

Lemma table_description_nil : table_description [] = [].
Proof. reflexivity. Qed.

Lemma description_set (v : str) (b : BOLData) :
  description_of_goods (set_description_of_goods v b) = v.
Proof. destruct b. reflexivity. Qed.

(** The two statements that settle the description. *)
Lemma description_statements (this : methods) (text : str)
    (tables : list data_frame) (b : BOLData) :
  run_stmts (skipn 7 (body this text tables)) b
  = match tables with
    | [] => if negb (truthy (description_of_goods b))
            then goods_loop this text goods_patterns b else (b, None)
    | _ :: _ =>
        match call_parse_cargo_description_table this tables with
        | Raise e => (b, Some e)
        | Ok v => if negb (truthy v)
                  then goods_loop this text goods_patterns
                         (set_description_of_goods v b)
                  else (set_description_of_goods v b, None)
        end
    end.
Proof.
  unfold body. cbn [skipn run_stmts]. unfold seq, skip.
  destruct tables as [|table tables].
  - destruct (negb (truthy (description_of_goods b)));
      [destruct (goods_loop this text goods_patterns b) as [b' [e|]]|];
      reflexivity.
  - unfold assign.
    destruct (call_parse_cargo_description_table this (table :: tables))
      as [v|e]; [|reflexivity].
    rewrite description_set. destruct (negb (truthy v)); [|reflexivity].
    destruct (goods_loop this text goods_patterns _) as [b' [e|]]; reflexivity.
Qed.

(** What [extract_all_fields] returns, by cases on the tables. *)
Lemma extract_all_fields_cases (text : str) (tables : list data_frame)
    (fname : str) :
  exists b7 : BOLData,
    untouched b7 (set_filename fname BOLData_new) /\
    shipper_address b7 = [] /\ consignee_address b7 = [] /\
    notify_party_address b7 = [] /\ description_of_goods b7 = [] /\
    ((~ Forall distinct_labels tables /\
      extract_all_fields text tables fname
      = handler (Exn "AttributeError"
                   (raw "'DataFrame' object has no attribute 'tolist'")) b7) \/
     (Forall distinct_labels tables /\ table_description tables <> [] /\
      extract_all_fields text tables fname
      = set_description_of_goods (table_description tables) b7) \/
     (Forall distinct_labels tables /\ table_description tables = [] /\
      (extract_all_fields text tables fname = b7 \/
       exists g, extract_all_fields text tables fname
                 = set_description_of_goods (cleaned g) b7))).
Proof.
  destruct (text_statements text tables fname)
    as [bol [s [c [n [v [y [pl [pd [d [gw [nw [q [ft H]]]]]]]]]]]]].
  cbv zeta in H.
  match type of H with _ = run_stmts _ ?b => exists b end.
  split; [repeat split|].
  repeat (split; [reflexivity|]).
  unfold extract_all_fields, extract_all_fields_on, try_body. cbv zeta.
  rewrite H. clear H.
  match goal with |- context [run_stmts _ ?b] => set (b7 := b) end.
  rewrite description_statements. cbn [self call_parse_cargo_description_table].
  assert (Hgoods : forall b,
            goods_loop self text goods_patterns b = (b, None) \/
            exists g, goods_loop self text goods_patterns b
                      = (set_description_of_goods (cleaned g) b, None)).
  { intros b. apply goods_loop_self.
    exact (proj1 (forallb_forall _ _) goods_patterns_compile). }
  assert (Hset : forall g, set_description_of_goods g (set_description_of_goods [] b7)
                           = set_description_of_goods g b7) by reflexivity.
  assert (Hnil : set_description_of_goods [] b7 = b7) by reflexivity.
  destruct tables as [|table tables].
  - right. right. split; [constructor|]. split; [reflexivity|].
    change (negb (truthy (description_of_goods b7))) with true. cbv iota.
    destruct (Hgoods b7) as [-> | [g ->]]; [left | right; exists g]; reflexivity.
  - destruct (all_distinct_decide (table :: tables)) as [Hd|Hd].
    + unfold TableParser.parse_cargo_description_table.
      rewrite (scan_tables_ok _ Hd []). cbn [bind app].
      fold (table_description (table :: tables)).
      right. destruct (table_description (table :: tables)) as [|ch rest] eqn:E.
      * right. split; [exact Hd|]. split; [reflexivity|].
        cbn [truthy negb]. rewrite Hnil.
        destruct (Hgoods b7) as [-> | [g ->]];
          [left | right; exists g]; reflexivity.
      * left. split; [exact Hd|]. split; [discriminate|]. reflexivity.
    + left. split; [exact Hd|].
      unfold TableParser.parse_cargo_description_table.
      rewrite (scan_tables_raise _ Hd []). reflexivity.
Qed.

(** With the methods of the class, [extract_all_fields] marks the record
    as failed exactly when some table carries a description label on two
    columns; the notes then report the missing [tolist], the description
    is empty, and nothing else can make the extraction fail, whatever the
    text. *)
Theorem extract_all_fields_fails_on_duplicate_labels
    (text : str) (tables : list data_frame) (fname : str) :
  let r := extract_all_fields text tables fname in
  (extraction_failed r = true <-> ~ Forall distinct_labels tables) /\
  (extraction_failed r = true ->
   processing_notes r
   = py "Extraction error: 'DataFrame' object has no attribute 'tolist'" /\
   description_of_goods r = []).
Proof.
  cbv zeta.
  destruct (extract_all_fields_cases text tables fname)
    as [b7 [[_ [_ [_ [_ Hf]]]] [_ [_ [_ [Hdesc H]]]]]].
  assert (Hfalse : forall g, extraction_failed (set_description_of_goods g b7) = false)
    by (intros g; destruct b7; exact Hf).
  destruct H as [[Hd ->] | [[Hd [_ ->]] | [Hd [_ [-> | [g ->]]]]]].
  - destruct (handler_fields
                (Exn "AttributeError"
                   (raw "'DataFrame' object has no attribute 'tolist'")) b7)
      as [H1 [H2 H3]].
    split; [split; auto|]. intros _. split; [exact H2|].
    unfold same_fields in H3. decompose [and] H3. congruence.
  - rewrite Hfalse. split; [split; [discriminate | contradiction] | discriminate].
  - rewrite Hf. split; [split; [discriminate | contradiction] | discriminate].
  - rewrite Hfalse. split; [split; [discriminate | contradiction] | discriminate].
Qed.

(** A description the tables give wins: when the description columns are
    well formed and hold some text, that text is the description, whatever
    the text of the document says. *)
Theorem extract_all_fields_table_description_wins
    (text : str) (tables : list data_frame) (fname : str) :
  Forall distinct_labels tables -> table_description tables <> [] ->
  description_of_goods (extract_all_fields text tables fname)
  = table_description tables /\
  extraction_failed (extract_all_fields text tables fname) = false.
Proof.
  intros Hd Hne.
  destruct (extract_all_fields_cases text tables fname)
    as [b7 [[_ [_ [_ [_ Hf]]]] [_ [_ [_ [_ H]]]]]].
  destruct H as [[Hn _] | [[_ [_ ->]] | [_ [He _]]]]; try contradiction.
  split; [apply description_set | destruct b7; exact Hf].
Qed.

Lemma extract_all_fields_table_description_wins_witness :
  description_of_goods
    (extract_all_fields (py "DESCRIPTION OF GOODS: Paper rolls\n")
       [ [ (py "Description", [Some (py "Steel coils"); None]) ] ]
       (py "a.pdf"))
  = py "Steel coils".
Proof.
  match goal with
  | |- description_of_goods (extract_all_fields ?t ?tb ?f) = _ =>
      refine (proj1 (extract_all_fields_table_description_wins t tb f _ _))
  end.
  - repeat constructor; cbv; intuition discriminate.
  - vm_compute. discriminate.
Defined.

(** Whatever the text and the tables, the three address attributes of the
    record [extract_all_fields] returns are empty. *)
Theorem extract_all_fields_addresses_empty
    (text : str) (tables : list data_frame) (fname : str) :
  let r := extract_all_fields text tables fname in
  shipper_address r = [] /\ consignee_address r = [] /\
  notify_party_address r = [].
Proof.
  cbv zeta.
  destruct (extract_all_fields_cases text tables fname)
    as [b7 [_ [Hs [Hc [Hn [_ H]]]]]].
  assert (Hset : forall g,
            shipper_address (set_description_of_goods g b7) = [] /\
            consignee_address (set_description_of_goods g b7) = [] /\
            notify_party_address (set_description_of_goods g b7) = [])
    by (intros g; destruct b7; auto).
  destruct H as [[_ ->] | [[_ [_ ->]] | [_ [_ [-> | [g ->]]]]]]; auto.
  destruct b7; auto.
Qed.

End Receiver.

(** ** The application: one file, a batch, the summary *)

Section Application.

Import Plain PDFProcessor TableParser BOLDataExtractor ExcelExporter BOLOCRApp Spec Cover.

Lemma assess_text_quality_labels (text : str) :
  assess_text_quality text = "high" \/ assess_text_quality text = "medium" \/
  assess_text_quality text = "low".
Proof.
  unfold assess_text_quality.
  destruct (Nat.ltb _ 50); [auto|].
  destruct (has_structured_fields text && has_addresses text); [auto|].
  destruct (has_structured_fields text || has_addresses text); auto.
Qed.

Lemma process_pdf_labels (self : PDFProcessor.t) (pdf : pdf_file) :
  exists text method,
    fst (process_pdf self pdf) = (text, method, assess_text_quality text) /\
    (method = "text" \/ method = "ocr" \/ method = "text_fallback").
Proof.
  unfold process_pdf.
  destruct (extract_text_pdfplumber self pdf) as [text ok].
  destruct (negb ok || String.eqb (assess_text_quality text) "low").
  - destruct (extract_text_ocr self pdf) as [ocr ok'].
    destruct ok'; [|destruct (truthy text)]; cbn [fst]; eauto 6.
  - cbn [fst]. eauto 6.
Qed.

(** The status of the record [extract_all_fields] returns. *)
Lemma extract_all_fields_status (text : str) (tables : list data_frame)
    (fname : str) :
  let r := extract_all_fields text tables fname in
  filename r = fname /\
  (Forall distinct_labels tables ->
   extraction_failed r = false /\ processing_notes r = []) /\
  (~ Forall distinct_labels tables ->
   extraction_failed r = true /\
   processing_notes r
   = py "Extraction error: 'DataFrame' object has no attribute 'tolist'").
Proof.
  cbv zeta.
  destruct (extract_all_fields_cases text tables fname)
    as [b7 [[Hn [_ [_ [Hp Hf]]]] [_ [_ [_ [_ H]]]]]].
  assert (Hset : forall g, filename (set_description_of_goods g b7) = fname /\
                           extraction_failed (set_description_of_goods g b7) = false /\
                           processing_notes (set_description_of_goods g b7) = [])
    by (intros g; destruct b7; auto).
  destruct H as [[Hd ->] | [[Hd [_ ->]] | [Hd [_ [-> | [g ->]]]]]].
  - split; [destruct b7; exact Hn|]. split; [contradiction|].
    intros _. destruct b7; split; reflexivity.
  - destruct (Hset (table_description tables)) as [H1 [H2 H3]].
    split; [exact H1|]. split; [auto | contradiction].
  - split; [exact Hn|]. split; [auto | contradiction].
  - destruct (Hset (cleaned g)) as [H1 [H2 H3]].
    split; [exact H1|]. split; [auto | contradiction].
Qed.

Lemma process_single_pdf_eq (self : BOLOCRApp.t) (pdf : upload) (fname : str) :
  exists text method,
    fst (process_pdf (pdf_processor self) (up_pdf pdf))
    = (text, method, assess_text_quality text) /\
    (method = "text" \/ method = "ocr" \/ method = "text_fallback") /\
    process_single_pdf self pdf fname
    = set_extraction_confidence (assess_text_quality text)
        (set_extraction_method method
           (extract_all_fields text (extract_tables (up_tables pdf)) fname)).
Proof.
  destruct (process_pdf_labels (pdf_processor self) (up_pdf pdf))
    as [text [method [H Hm]]].
  exists text, method. split; [exact H|]. split; [exact Hm|].
  unfold process_single_pdf, process_single_pdf_on, components_of.
  cbn [call_process_pdf call_extract_tables call_extract_all_fields bind].
  rewrite H. reflexivity.
Qed.

Lemma labelled (method confidence : string) (r : BOLData) :
  let r' := set_extraction_confidence confidence (set_extraction_method method r) in
  filename r' = filename r /\ extraction_method r' = method /\
  extraction_confidence r' = confidence /\
  extraction_failed r' = extraction_failed r /\
  processing_notes r' = processing_notes r.
Proof. destruct r. cbn. repeat split. Qed.

(** With the objects the application builds, [process_single_pdf] never
    reaches its own handler: the record carries the file name, one of the
    three method labels and one of the three confidence labels, and it is
    marked as failed exactly when a table that [tabula] returned carries
    a description label on two columns.  No failure of the text layer, of
    the OCR or of [tabula] marks it. *)
Theorem process_single_pdf_outcome
    (self : BOLOCRApp.t) (pdf : upload) (fname : str) :
  let r := process_single_pdf self pdf fname in
  filename r = fname /\
  (extraction_method r = "text" \/ extraction_method r = "ocr" \/
   extraction_method r = "text_fallback") /\
  (extraction_confidence r = "high" \/ extraction_confidence r = "medium" \/
   extraction_confidence r = "low") /\
  (extraction_failed r = true <->
   ~ Forall distinct_labels (extract_tables (up_tables pdf))) /\
  (extraction_failed r = false -> processing_notes r = []) /\
  (extraction_failed r = true ->
   processing_notes r
   = py "Extraction error: 'DataFrame' object has no attribute 'tolist'").
Proof.
  cbv zeta.
  destruct (process_single_pdf_eq self pdf fname) as [text [method [_ [Hm ->]]]].
  destruct (labelled method (assess_text_quality text)
              (extract_all_fields text (extract_tables (up_tables pdf)) fname))
    as [H1 [H2 [H3 [H4 H5]]]].
  rewrite H1, H2, H3, H4, H5.
  destruct (extract_all_fields_status text (extract_tables (up_tables pdf)) fname)
    as [Hn [Hok Hbad]].
  split; [exact Hn|]. split; [exact Hm|].
  split; [apply assess_text_quality_labels|].
  destruct (all_distinct_decide (extract_tables (up_tables pdf))) as [Hd|Hd].
  - destruct (Hok Hd) as [-> ->].
    split; [split; [discriminate | contradiction]|].
    split; [reflexivity | discriminate].
  - destruct (Hbad Hd) as [-> ->].
    split; [split; auto|]. split; [discriminate | reflexivity].
Qed.

(** A batch gives one record per file, in the order of the files, each
    with the name of its file. *)
Theorem process_batch_pdfs_filenames
    (self : BOLOCRApp.t) (files : list (upload * str)) :
  map filename (process_batch_pdfs self files) = map snd files.
Proof.
  unfold process_batch_pdfs, process_batch_pdfs_on. rewrite map_map.
  apply map_ext. intros [pdf fname]. cbn [fst snd].
  destruct (process_single_pdf_eq self pdf fname) as [text [method [_ [_ ->]]]].
  destruct (labelled method (assess_text_quality text)
              (extract_all_fields text (extract_tables (up_tables pdf)) fname))
    as [-> _].
  exact (proj1 (extract_all_fields_status text _ fname)).
Qed.

Lemma length_filter_split {A} (p : A -> bool) (l : list A) :
  List.length (filter p l) + List.length (filter (fun x => negb (p x)) l)
  = List.length l.
Proof.
  induction l as [|x l IH]; [reflexivity|].
  cbn [filter]. destruct (p x); cbn [negb List.length]; lia.
Qed.

Lemma length_filter_three {A} (p q r : A -> bool) (l : list A) :
  (forall x, In x l ->
     (p x = true /\ q x = false /\ r x = false) \/
     (p x = false /\ q x = true /\ r x = false) \/
     (p x = false /\ q x = false /\ r x = true)) ->
  List.length (filter p l) + List.length (filter q l)
  + List.length (filter r l) = List.length l.
Proof.
  induction l as [|x l IH]; intros H; [reflexivity|].
  cbn [filter].
  pose proof (IH (fun y Hy => H y (or_intror Hy))) as IH'.
  destruct (H x (or_introl eq_refl)) as [[-> [-> ->]] | [[-> [-> ->]] | [-> [-> ->]]]];
    cbn [List.length]; lia.
Qed.

(** The counts of the summary sheet, for the records of a batch: the
    total is the number of files; successes and failures add up to it, and
    so do the three confidence counts; the text and OCR counts add up to
    it only together with the records labelled [text_fallback], which the
    sheet counts nowhere. *)
Theorem summary_counts_of_batch
    (self : BOLOCRApp.t) (files : list (upload * str)) :
  let results := process_batch_pdfs self files in
  exists ok failed text ocr high medium low,
    summary_counts results
    = [List.length files; ok; failed; text; ocr; high; medium; low] /\
    ok + failed = List.length files /\
    high + medium + low = List.length files /\
    text + ocr + List.length (with_method "text_fallback" results)
    = List.length files.
Proof.
  cbv zeta. unfold summary_counts.
  assert (Hlen : List.length (process_batch_pdfs self files) = List.length files)
    by (unfold process_batch_pdfs, process_batch_pdfs_on; apply length_map).
  assert (Hall : forall r, In r (process_batch_pdfs self files) ->
            (extraction_method r = "text" \/ extraction_method r = "ocr" \/
             extraction_method r = "text_fallback") /\
            (extraction_confidence r = "high" \/ extraction_confidence r = "medium" \/
             extraction_confidence r = "low")).
  { intros r Hin. unfold process_batch_pdfs, process_batch_pdfs_on in Hin.
    apply in_map_iff in Hin. destruct Hin as [[pdf fname] [<- _]]. cbn [fst snd].
    destruct (process_single_pdf_eq self pdf fname) as [text [method [_ [Hm ->]]]].
    destruct (labelled method (assess_text_quality text)
                (extract_all_fields text (extract_tables (up_tables pdf)) fname))
      as [_ [-> [-> _]]].
    split; [exact Hm | apply assess_text_quality_labels]. }
  rewrite Hlen. do 7 eexists. split; [reflexivity|].
  split; [|split].
  - rewrite Nat.add_comm, <- Hlen.
    apply (length_filter_split (fun x => extraction_failed x)).
  - rewrite <- Hlen. apply length_filter_three. intros r Hin.
    destruct (proj2 (Hall r Hin)) as [-> | [-> | ->]]; cbn; auto.
  - rewrite <- Hlen. unfold with_method. apply length_filter_three. intros r Hin.
    destruct (proj1 (Hall r Hin)) as [-> | [-> | ->]];
      [left | right; left | right; right]; vm_compute; auto.
Qed.

End Application.

(** ** The exported frame *)

Section ExportedFrame.

Import ExcelExporter Cover.

Lemma key_union_column_order (l : list BOLData) :
  key_union column_order (map data_dict l) = column_order.
Proof.
  induction l as [|b l IH]; [reflexivity|].
  cbn [map key_union].
  change (map fst (data_dict b)) with column_order.
  exact IH.
Qed.

Lemma record_of_row_dict (b : BOLData) :
  record_of_row (map (dict_get (data_dict b)) column_order) = Some b.
Proof.
  destruct b. cbn.
  unfold raw. rewrite !string_of_list_ascii_of_string. reflexivity.
Qed.

Lemma select_column_order (l : list BOLData) :
  select (Frame column_order
            (map (fun d => map (dict_get d) column_order) (map data_dict l)))
         column_order
  = Ok (Frame column_order
          (map (fun b => map (dict_get (data_dict b)) column_order) l)).
Proof.
  unfold select. cbn [columns rows].
  change (forallb _ column_order) with true. cbv iota.
  f_equal. f_equal. rewrite map_map. rewrite map_map.
  apply map_ext. intros b. destruct b. reflexivity.
Qed.

(** [create_dataframe] raises [KeyError] on the empty list, where the
    frame has no columns to select; on any other list it returns a frame
    whose columns are [column_order] and whose rows, in order, give back
    the records they were made from: nothing is lost or mixed up. *)
Theorem create_dataframe_round_trip (bol_data_list : list BOLData) :
  match bol_data_list with
  | [] => exists e, create_dataframe [] = Raise e /\ exn_class e = "KeyError"
  | _ :: _ =>
      exists df, create_dataframe bol_data_list = Ok df /\
                 columns df = column_order /\
                 map record_of_row (rows df) = map Some bol_data_list
  end.
Proof.
  destruct bol_data_list as [|b l].
  - eexists. split; reflexivity.
  - unfold create_dataframe, DataFrame. cbv zeta.
    cbn [map key_union].
    change (fold_left _ (map fst (data_dict b)) []) with column_order.
    rewrite key_union_column_order.
    change (map (dict_get (data_dict b)) column_order ::
            map (fun d => map (dict_get d) column_order) (map data_dict l))
      with (map (fun d => map (dict_get d) column_order) (map data_dict (b :: l))).
    rewrite select_column_order.
    eexists. split; [reflexivity|]. split; [reflexivity|].
    cbn [rows]. rewrite map_map.
    change (Some b :: map Some l) with (map Some (b :: l)).
    apply map_ext. intros r. apply record_of_row_dict.
Qed.

End ExportedFrame.

(** ** What the groups of the catalog can hold *)

Section Content.

Import Re Plain BOLDataExtractor Spec Cover.

Lemma in_all_ascii (c : ascii) : In c all_ascii.
Proof.
  unfold all_ascii. apply in_map_iff. exists (nat_of_ascii c).
  split; [apply ascii_nat_embedding|].
  apply in_seq. pose proof (nat_ascii_bounded c). lia.
Qed.

Lemma only_spec (test p : ascii -> bool) :
  only test p = true -> forall c, test c = true -> p c = true.
Proof.
  unfold only. intros H c Hc.
  pose proof (proj1 (forallb_forall _ _) H c (in_all_ascii c)) as Hi.
  cbv beta in Hi. rewrite Hc in Hi. exact Hi.
Qed.

Lemma between_app (w b : str) : between (w ++ b) b = w.
Proof.
  unfold between. rewrite length_app.
  replace (List.length w + List.length b - List.length b) with (List.length w + 0)
    by lia.
  rewrite firstn_app_2. cbn [firstn]. apply app_nil_r.
Qed.

Lemma spans_refl (p : ascii -> bool) (s : mstate) : spans p s s.
Proof. exists []. split; reflexivity. Qed.

Lemma spans_trans (p : ascii -> bool) (a b c : mstate) :
  spans p a b -> spans p b c -> spans p a c.
Proof.
  intros [w [Hw Hp]] [w' [Hw' Hp']]. exists (w ++ w'). split.
  - rewrite Hw, Hw', app_assoc. reflexivity.
  - rewrite forallb_app, Hp, Hp'. reflexivity.
Qed.

Lemma eat_spans (test p : ascii -> bool) (s s' : mstate) :
  only test p = true -> In s' (eat test s) -> spans p s s'.
Proof.
  intros Ho. unfold eat. destruct (m_rest s) as [|c t] eqn:E; [intros []|].
  destruct (test c) eqn:Hc; [|intros []]. intros [<- | []].
  exists [c]. split; [exact E|]. cbn. rewrite (only_spec test p Ho c Hc).
  reflexivity.
Qed.

(** A repetition stays within a relation that every round stays within. *)
Lemma repeat_loop_rel (step : mstate -> list mstate)
    (R : mstate -> mstate -> Prop) (greedy : bool) :
  (forall s, R s s) -> (forall a b c, R a b -> R b c -> R a c) ->
  (forall s1 s2, In s2 (step s1) -> R s1 s2) ->
  forall fuel lo hi s s',
    In s' (repeat_loop step greedy fuel lo hi s) -> R s s'.
Proof.
  intros Hrefl Htrans Hstep.
  induction fuel as [|fuel IH]; intros lo hi s s' Hin; [destruct Hin|].
  cbn [repeat_loop] in Hin. destruct lo as [|lo].
  - destruct (hi_zero hi).
    + destruct Hin as [<- | []]. apply Hrefl.
    + assert (Hmore : forall x,
        In x (flat_map (repeat_loop step greedy fuel 0 (hi_pred hi))
                (filter (shorter s) (step s))) -> R s x).
      { intros x Hx. apply in_flat_map in Hx as [s1 [H1 Hx]].
        apply filter_In in H1 as [H1 _].
        exact (Htrans _ _ _ (Hstep _ _ H1) (IH _ _ _ _ Hx)). }
      destruct greedy.
      * apply in_app_or in Hin as [Hin | [<- | []]];
          [apply Hmore; exact Hin | apply Hrefl].
      * destruct Hin as [<- | Hin]; [apply Hrefl | apply Hmore; exact Hin].
  - apply in_flat_map in Hin as [s1 [H1 Hx]].
    exact (Htrans _ _ _ (Hstep _ _ H1) (IH _ _ _ _ Hx)).
Qed.

Variable fl : flags.
Variable p : ascii -> bool.

(** What a match of [r] consumes passes [p]. *)
Lemma run_spans (r : regex) :
  eats fl p r = true ->
  forall s s', In s' (run fl r s) -> spans p s s'.
Proof.
  induction r as [ | c | | neg items | | | a IHa b IHb | a IHa b IHb
                 | greedy lo hi a IHa | a IHa | a IHa ];
    intros He s s' Hin; cbn [run eats] in *.
  - destruct Hin as [<- | []]. apply spans_refl.
  - exact (eat_spans _ p s s' He Hin).
  - exact (eat_spans _ p s s' He Hin).
  - exact (eat_spans _ p s s' He Hin).
  - destruct (at_bol fl s); [destruct Hin as [<- | []]; apply spans_refl | destruct Hin].
  - destruct (at_eol fl s); [destruct Hin as [<- | []]; apply spans_refl | destruct Hin].
  - apply andb_true_iff in He as [Ha Hb].
    apply in_flat_map in Hin as [s1 [H1 H2]].
    exact (spans_trans p _ _ _ (IHa Ha _ _ H1) (IHb Hb _ _ H2)).
  - apply andb_true_iff in He as [Ha Hb].
    apply in_app_or in Hin as [Hin | Hin]; [exact (IHa Ha _ _ Hin) | exact (IHb Hb _ _ Hin)].
  - exact (repeat_loop_rel (run fl a) (spans p) greedy (spans_refl p)
             (spans_trans p) (IHa He) _ lo hi s s' Hin).
  - apply in_map_iff in Hin as [s1 [<- H1]].
    destruct (IHa He _ _ H1) as [w [Hw Hp]]. exists w. split; assumption.
  - destruct (run fl a s) as [|s1 l]; [destruct Hin|].
    destruct Hin as [<- | []]. exists []. split; reflexivity.
Qed.

(** What the group of [r] captures passes [p]. *)
Lemma run_cap_passes (r : regex) :
  cap_eats fl p r = true ->
  forall s s', In s' (run fl r s) ->
    cap_passes p (m_cap s) -> cap_passes p (m_cap s').
Proof.
  induction r as [ | c | | neg items | | | a IHa b IHb | a IHa b IHb
                 | greedy lo hi a IHa | a IHa | a IHa ];
    intros He s s' Hin HP; cbn [run cap_eats] in *.
  - destruct Hin as [<- | []]. exact HP.
  - rewrite (eat_cap _ _ _ Hin). exact HP.
  - rewrite (eat_cap _ _ _ Hin). exact HP.
  - rewrite (eat_cap _ _ _ Hin). exact HP.
  - destruct (at_bol fl s); [destruct Hin as [<- | []]; exact HP | destruct Hin].
  - destruct (at_eol fl s); [destruct Hin as [<- | []]; exact HP | destruct Hin].
  - apply andb_true_iff in He as [Ha Hb].
    apply in_flat_map in Hin as [s1 [H1 H2]].
    exact (IHb Hb _ _ H2 (IHa Ha _ _ H1 HP)).
  - apply andb_true_iff in He as [Ha Hb].
    apply in_app_or in Hin as [Hin | Hin];
      [exact (IHa Ha _ _ Hin HP) | exact (IHb Hb _ _ Hin HP)].
  - exact (repeat_loop_keeps (run fl a) (cap_passes p) greedy (IHa He)
             _ lo hi s s' Hin HP).
  - apply in_map_iff in Hin as [s1 [<- H1]]. cbn [m_cap].
    destruct (run_spans a He _ _ H1) as [w [Hw Hp]].
    intros g Hg. injection Hg as <-. rewrite Hw, between_app. exact Hp.
  - destruct (run fl a s) as [|s1 l] eqn:E; [destruct Hin|].
    destruct Hin as [<- | []]. cbn [m_cap].
    apply (IHa He s s1); [rewrite E; left; reflexivity | exact HP].
Qed.

(** The group of a match found by [search_from] passes [p]. *)
Lemma search_from_cap_passes (r : regex) (t : str) (adv : bool)
    (prev : option ascii) (m : match_obj) :
  cap_eats fl p r = true ->
  search_from fl r adv prev t = Some m ->
  cap_passes p (group1 m).
Proof.
  intros He Hs.
  destruct (search_from_run fl r t adv prev m Hs) as [s [Hin [_ [Hcap _]]]].
  apply (run_cap_passes r He s (mo_end m) Hin).
  rewrite Hcap. intros g Hg. discriminate.
Qed.

End Content.

(** ** What the extracted fields can hold *)

Section Fields.

Import Re Plain BOLDataExtractor Spec Cover.

Lemma forallb_dropwhile (p q : ascii -> bool) (t : str) :
  forallb p t = true -> forallb p (dropwhile q t) = true.
Proof.
  induction t as [|c t IH]; [reflexivity|]. intros H.
  cbn [dropwhile]. destruct (q c); [|exact H].
  apply andb_true_iff in H as [_ H]. exact (IH H).
Qed.

Lemma forallb_drop_trailing_passes (p q : ascii -> bool) (t : str) :
  forallb p t = true -> forallb p (drop_trailing q t) = true.
Proof.
  induction t as [|c t IH]; [reflexivity|]. intros H.
  cbn [drop_trailing]. destruct (forallb q (c :: t)); [reflexivity|].
  apply andb_true_iff in H as [Hc H]. cbn [forallb]. rewrite Hc, (IH H).
  reflexivity.
Qed.

Lemma forallb_strip (p : ascii -> bool) (t : str) :
  forallb p t = true -> forallb p (strip t) = true.
Proof.
  intros H. unfold strip, rstrip, lstrip.
  apply forallb_drop_trailing_passes, forallb_dropwhile. exact H.
Qed.



Lemma drop_trailing_last (p : ascii -> bool) (t : str) :
  drop_trailing p t = t ->
  forall pre c, t = pre ++ [c] -> p c = false.
Proof.
  intros H pre. revert t H. induction pre as [|x pre IH]; intros t H c ->.
  - cbn in H. destruct (p c); [discriminate | reflexivity].
  - cbn [app drop_trailing] in H.
    destruct (forallb p _); [discriminate|].
    injection H as H. exact (IH _ H c eq_refl).
Qed.






Lemma strip_strip (t : str) : strip (strip t) = strip t.
Proof.
  unfold strip, lstrip, rstrip.
  rewrite (dropwhile_fixed isspace (drop_trailing isspace (dropwhile isspace t))).
  - apply drop_trailing_idem.
  - apply head_passes_drop_trailing, head_passes_dropwhile.
Qed.

Lemma quantity_loop_chars (text : str) (patterns : list str) :
  (forall pat, In pat patterns ->
     compiles_with_group pat = true /\
     cap_eats ignorecase quantity_char (ast_of pat) = true) ->
  exists q, quantity_loop text patterns = Ok q /\
            forallb quantity_char q = true /\ strip q = q.
Proof.
  induction patterns as [|pat ps IH]; intros H.
  - exists []. repeat split.
  - cbn [quantity_loop]. unfold search.
    destruct (H pat (or_introl eq_refl)) as [Hcg He].
    destruct (compiles_with_group_ast pat Hcg) as [Hc [k Hk]].
    rewrite Hc. cbn [bind].
    destruct (search_from ignorecase (ast_of pat) false None text) as [mo|] eqn:Hs.
    + destruct (search_from_captured ignorecase (ast_of pat) k text None false mo Hk Hs)
        as [g [Hg _]].
      pose proof (search_from_cap_passes ignorecase quantity_char (ast_of pat) text
                    false None mo He Hs g Hg) as Hp.
      rewrite Hg. exists (strip g). split; [reflexivity|].
      split; [apply forallb_strip; exact Hp | apply strip_strip].
    + apply IH. intros q Hq. apply H. right. exact Hq.
Qed.

Lemma quantity_patterns_chars (pat : str) :
  In pat (FieldPatterns.get_patterns "quantity_patterns") ->
  compiles_with_group pat = true /\
  cap_eats ignorecase quantity_char (ast_of pat) = true.
Proof.
  intros Hin. cbn in Hin.
  repeat (destruct Hin as [<- | Hin]; [split; vm_compute; reflexivity|]).
  destruct Hin.
Qed.

(** The quantity [extract_weights_quantities] returns holds only digits,
    commas, full stops and white space, with no white space at either
    end: a unit of packaging written after the number is never part of
    it.  The call does not raise. *)
Theorem extract_weights_quantities_bare_quantity (text : str) :
  exists gross_weight net_weight quantity,
    extract_weights_quantities text = Ok (gross_weight, net_weight, quantity) /\
    forallb quantity_char quantity = true /\ strip quantity = quantity.
Proof.
  destruct (weights_routing text) as [G [N [W [q0 [_ [_ [_ Hw]]]]]]].
  destruct (quantity_loop_chars text
              (FieldPatterns.get_patterns "quantity_patterns")
              quantity_patterns_chars) as [q [Hq [Hp Hs]]].
  unfold extract_weights_quantities in *. cbv zeta in *.
  destruct (weights_loop text _ [] []) as [[g n]|e]; [|discriminate].
  rewrite Hq in *. cbn [bind] in *.
  exists g, n, q. repeat split; assumption.
Qed.

Lemma dates_loop_chars (text : str) (patterns : list str) :
  (forall pat, In pat patterns ->
     compile pat = Ok (ast_of pat) /\
     (exists k, cap_min (ast_of pat) = Some k /\ 6 <= k) /\
     count_groups (ast_of pat) = 1 /\
     cap_eats ignorecase date_char (ast_of pat) = true) ->
  exists d, extract_dates_loop text patterns = Ok d /\
            (d = [] \/ (6 <= List.length d /\ forallb date_char d = true)).
Proof.
  induction patterns as [|pat ps IH]; intros H.
  - exists []. split; [reflexivity | left; reflexivity].
  - cbn [extract_dates_loop].
    destruct (H pat (or_introl eq_refl)) as [Hc [[k [Hk Hk6]] [Hg He]]].
    destruct (search_from ignorecase (ast_of pat) false None text) as [m|] eqn:Hs.
    + destruct (search_some_findall ignorecase pat text (ast_of pat) m Hc Hs)
        as [more ->].
      cbn [bind]. eexists. split; [reflexivity|]. right.
      unfold findall_item. rewrite Hg.
      destruct (search_from_captured ignorecase (ast_of pat) k text None false m Hk Hs)
        as [g [Hcap Hlen]].
      pose proof (search_from_cap_passes ignorecase date_char (ast_of pat) text
                    false None m He Hs g Hcap) as Hp.
      rewrite Hcap. split; [lia | exact Hp].
    + rewrite (search_none_findall ignorecase pat text (ast_of pat) Hc Hs).
      cbn [bind]. apply IH. intros q Hq. apply H. right. exact Hq.
Qed.

(** [extract_dates] does not raise; the date it returns is empty or has
    six characters at least, all of them letters, digits, white space,
    commas, slashes or hyphens. *)
Theorem extract_dates_characters (text : str) :
  exists d, extract_dates text = Ok d /\
            (d = [] \/ (6 <= List.length d /\ forallb date_char d = true)).
Proof.
  apply dates_loop_chars. intros pat Hin. cbn in Hin.
  repeat (destruct Hin as [<- | Hin];
          [split; [reflexivity|];
           split; [eexists; split; [vm_compute; reflexivity | lia]|];
           split; vm_compute; reflexivity|]).
  destruct Hin.
Qed.

End Fields.

(** ** Freight terms *)

Section Freight.

Import Re Plain BOLDataExtractor Spec Cover.








End Freight.

(** ** The form of a cleaned text *)

Section NormalForm.

Import Re Plain BOLDataExtractor Spec Cover.

Lemma head_space_cons (c : ascii) (t : str) : head_space (c :: t) = isspace c.
Proof. reflexivity. Qed.

Lemma tidy_clean_form (t : str) :
  tidy t = true ->
  (forall c, In c t -> isspace c = true -> c = " "%char) /\
  (forall pre a b post, t = pre ++ a :: b :: post ->
     isspace a = true -> isspace b = false).
Proof.
  induction t as [|x t IH]; intros H.
  - split; [intros c [] | intros [|y pre] a b post E; discriminate].
  - cbn [tidy] in H. apply andb_true_iff in H as [Hx Ht].
    destruct (IH Ht) as [IH1 IH2]. split.
    + intros c [<- | Hin] Hc; [|exact (IH1 c Hin Hc)].
      rewrite Hc in Hx. apply andb_true_iff in Hx as [Hx _].
      apply Ascii.eqb_eq in Hx. exact Hx.
    + intros [|y pre] a b post E Ha.
      * cbn [app] in E. injection E as -> ->.
        rewrite Ha in Hx. apply andb_true_iff in Hx as [_ Hx].
        apply negb_true_iff in Hx. exact Hx.
      * cbn [app] in E. injection E as _ E. exact (IH2 pre a b post E Ha).
Qed.

Lemma clean_form_tidy (t : str) :
  (forall c, In c t -> isspace c = true -> c = " "%char) ->
  (forall pre a b post, t = pre ++ a :: b :: post ->
     isspace a = true -> isspace b = false) ->
  tidy t = true.
Proof.
  induction t as [|x t IH]; intros H1 H2; [reflexivity|].
  cbn [tidy]. apply andb_true_iff. split.
  - destruct (isspace x) eqn:Hx; [|reflexivity].
    apply andb_true_iff. split.
    + apply Ascii.eqb_eq. exact (H1 x (or_introl eq_refl) Hx).
    + destruct t as [|y t]; [reflexivity|]. rewrite head_space_cons.
      apply negb_true_iff. exact (H2 [] x y t eq_refl Hx).
  - apply IH.
    + intros c Hc. apply H1. right. exact Hc.
    + intros pre a b post E. apply (H2 (x :: pre) a b post). rewrite E. reflexivity.
Qed.

Lemma drop_trailing_fixed (p : ascii -> bool) (t : str) :
  (forall pre c, t = pre ++ [c] -> p c = false) -> drop_trailing p t = t.
Proof.
  induction t as [|x t IH]; intros H; [reflexivity|].
  cbn [drop_trailing].
  assert (Hn : forallb p (x :: t) = false).
  { clear IH. revert x H. induction t as [|y t IHt]; intros x H.
    - cbn. rewrite (H [] x eq_refl). reflexivity.
    - change (forallb p (x :: y :: t)) with (p x && forallb p (y :: t)).
      rewrite (IHt y).
      + apply andb_false_r.
      + intros pre c E. apply (H (x :: pre) c). rewrite E. reflexivity. }
  rewrite Hn. f_equal. destruct t as [|y t]; [reflexivity|].
  apply IH. intros pre c E. apply (H (x :: pre) c). rewrite E. reflexivity.
Qed.

Lemma cleaned_clean_form (data : str) : clean_form (cleaned data).
Proof.
  destruct (cleaned_shape data) as [Ht [Hh Hd]].
  destruct (tidy_clean_form _ Ht) as [H1 H2].
  split; [exact H1|]. split; [exact H2|]. split.
  - intros c rest E. rewrite E in Hh. exact Hh.
  - exact (drop_trailing_last separator _ Hd).
Qed.

Lemma clean_form_fixed (v : str) : clean_form v -> cleaned v = v.
Proof.
  intros [H1 [H2 [H3 H4]]]. apply cleaned_fixed.
  - exact (clean_form_tidy v H1 H2).
  - destruct v as [|c rest]; [reflexivity|]. exact (H3 c rest eq_refl).
  - exact (drop_trailing_fixed separator v H4).
Qed.

Lemma length_drop_trailing (p : ascii -> bool) (t : str) :
  List.length (drop_trailing p t) <= List.length t.
Proof.
  induction t as [|c t IH]; [reflexivity|]. cbn [drop_trailing].
  destruct (forallb p (c :: t)); cbn [List.length]; lia.
Qed.

Lemma length_collapse (t : str) : List.length (collapse t) <= List.length t.
Proof.
  induction t as [|c t IH]; [reflexivity|]. cbn [collapse].
  destruct (isspace c); [destruct (head_space t)|]; cbn [List.length]; lia.
Qed.

Lemma length_cleaned (data : str) : List.length (cleaned data) <= List.length data.
Proof.
  unfold cleaned, strip, rstrip, lstrip.
  pose proof (length_drop_trailing separator
                (dropwhile separator
                   (collapse (drop_trailing isspace (dropwhile isspace data))))).
  pose proof (length_dropwhile separator
                (collapse (drop_trailing isspace (dropwhile isspace data)))).
  pose proof (length_collapse (drop_trailing isspace (dropwhile isspace data))).
  pose proof (length_drop_trailing isspace (dropwhile isspace data)).
  pose proof (length_dropwhile isspace data). lia.
Qed.

(** [clean_field_data] returns a text in clean form, no longer than its
    argument; and it leaves a text in clean form as it is, so the texts
    in clean form are exactly the texts it can return. *)
Theorem clean_field_data_normal_form (data : str) :
  exists v, clean_field_data data = Ok v /\ clean_form v /\
            List.length v <= List.length data /\
            (clean_form data -> v = data).
Proof.
  exists (cleaned data). split; [apply clean_field_data_cleaned|].
  split; [apply cleaned_clean_form|]. split; [apply length_cleaned|].
  apply clean_form_fixed.
Qed.

(** Whatever the text and the field type, known or not, [extract_field]
    returns, and what it returns is in clean form: in particular it is
    one line.  An unknown field type gives the empty text. *)
Theorem extract_field_returns_clean_form (text : str) (field_type : string) :
  exists v, extract_field text field_type = Ok v /\ clean_form v /\
            ~ In nl v /\
            (FieldPatterns.get_patterns field_type = [] -> v = []).
Proof.
  destruct (extract_field_loop_cleaned text (FieldPatterns.get_patterns field_type))
    as [v [Hv Hshape]].
  { intros p Hp.
    exact (proj1 (forallb_forall _ _) catalog_compiles p
             (get_patterns_catalog field_type p Hp)). }
  exists v. split; [exact Hv|].
  assert (Hform : clean_form v).
  { destruct Hshape as [-> | [g ->]]; [|apply cleaned_clean_form].
    change (clean_form (cleaned [])). apply cleaned_clean_form. }
  split; [exact Hform|]. split.
  - intros Hin. destruct Hform as [H1 _].
    pose proof (H1 nl Hin eq_refl) as E. discriminate.
  - intros Hnil. unfold extract_field in Hv. rewrite Hnil in Hv.
    cbn in Hv. congruence.
Qed.

(** Every pattern of the catalog, and every pattern for the description
    of goods, is a well-formed pattern with a group that takes part in
    every match: on any text and under any flags [re.search] returns, and
    [group(1)] of a match is never [None]. *)
Theorem patterns_always_capture (pattern text : str) (fl : flags) :
  In pattern (catalog ++ goods_patterns) ->
  exists m, search pattern text fl = Ok m /\
            forall mo, m = Some mo -> exists g, group1 mo = Some g.
Proof.
  intros Hin.
  assert (Hcg : compiles_with_group pattern = true).
  { apply in_app_or in Hin as [Hin | Hin].
    - exact (proj1 (forallb_forall _ _) catalog_compiles pattern Hin).
    - exact (proj1 (forallb_forall _ _) goods_patterns_compile pattern Hin). }
  destruct (compiles_with_group_ast pattern Hcg) as [Hc [k Hk]].
  unfold search. rewrite Hc. cbn [bind]. eexists. split; [reflexivity|].
  intros mo Hs.
  destruct (search_from_captured fl (ast_of pattern) k text None false mo Hk Hs)
    as [g [Hg _]].
  exists g. exact Hg.
Qed.

Lemma patterns_always_capture_witness :
  exists m, search (raw "(?:VOY\.?\s*:?\s*)([A-Z0-9\-]+)") (py "Voy. 12E")
                   field_flags = Ok m /\
            forall mo, m = Some mo -> exists g, group1 mo = Some g.
Proof.
  apply patterns_always_capture.
  apply in_or_app. left. vm_compute. tauto.
Defined.

End NormalForm.

(** ** The methods that read parties, vessel and ports *)

Section Methods.

Import Re Plain PDFProcessor BOLDataExtractor BOLOCRApp Spec Cover.

Lemma extract_field_form (text : str) (field_type : string) :
  exists v, extract_field text field_type = Ok v /\ clean_form v /\
            split_name_address v = (v, []).
Proof.
  destruct (extract_field_loop_cleaned text (FieldPatterns.get_patterns field_type))
    as [v [Hv Hshape]].
  { intros p Hp.
    exact (proj1 (forallb_forall _ _) catalog_compiles p
             (get_patterns_catalog field_type p Hp)). }
  exists v. split; [exact Hv|].
  assert (E : exists g, v = cleaned g).
  { destruct Hshape as [-> | H]; [exists []; reflexivity | exact H]. }
  destruct E as [g ->]. split; [apply cleaned_clean_form|].
  apply split_name_address_cleaned.
Qed.

(** [extract_parties], [extract_vessel_info] and [extract_ports] return for
    every text.  Each name, the vessel, the voyage and both ports are in
    clean form, so each is one line; the three addresses are empty: the
    lines after the first line of a party block end up in the name. *)
Theorem party_vessel_port_methods_clean (text : str) :
  (exists shipper consignee notify,
     extract_parties text = Ok (shipper, [], consignee, [], notify, []) /\
     clean_form shipper /\ clean_form consignee /\ clean_form notify) /\
  (exists vessel voyage,
     extract_vessel_info text = Ok (vessel, voyage) /\
     clean_form vessel /\ clean_form voyage) /\
  (exists port_load port_discharge,
     extract_ports text = Ok (port_load, port_discharge) /\
     clean_form port_load /\ clean_form port_discharge).
Proof.
  destruct (extract_field_form text "shipper") as [s [Hs [Fs Ss]]].
  destruct (extract_field_form text "consignee") as [c [Hc [Fc Sc]]].
  destruct (extract_field_form text "notify_party") as [n [Hn [Fn Sn]]].
  destruct (extract_field_form text "vessel") as [v [Hv [Fv _]]].
  destruct (extract_field_form text "voyage") as [y [Hy [Fy _]]].
  destruct (extract_field_form text "port_of_load") as [pl [Hpl [Fpl _]]].
  destruct (extract_field_form text "port_of_discharge") as [pd [Hpd [Fpd _]]].
  split; [|split].
  - exists s, c, n. split; [|auto].
    unfold extract_parties. rewrite Hs, Hc, Hn. cbn [bind].
    rewrite Ss, Sc, Sn. reflexivity.
  - exists v, y. split; [|auto].
    unfold extract_vessel_info. rewrite Hv, Hy. reflexivity.
  - exists pl, pd. split; [|auto].
    unfold extract_ports. rewrite Hpl, Hpd. reflexivity.
Qed.

(** Whichever of the three calls of [process_single_pdf] raises, nothing
    computed before it survives: the record returned has the file name,
    the flag and the note [Processing error: ...], and every other
    attribute at its default, the method empty and the confidence
    [medium]. *)
Theorem process_single_pdf_on_failure
    (c : components) (pdf : upload) (fname : str) (e : exn) :
  call_process_pdf c pdf fname = Raise e \/
  (exists text method confidence,
     call_process_pdf c pdf fname = Ok (text, method, confidence) /\
     (call_extract_tables c pdf = Raise e \/
      exists tables,
        call_extract_tables c pdf = Ok tables /\
        call_extract_all_fields c text tables fname = Raise e)) ->
  process_single_pdf_on c pdf fname = blank_failure fname e.
Proof.
  unfold process_single_pdf_on.
  intros [H | [text [method [confidence [H1 [H2 | [tables [H2 H3]]]]]]]].
  - rewrite H. reflexivity.
  - rewrite H1. cbn [bind]. rewrite H2. reflexivity.
  - rewrite H1. cbn [bind]. rewrite H2. cbn [bind]. rewrite H3. reflexivity.
Qed.

Lemma process_single_pdf_on_failure_witness :
  process_single_pdf_on
    (Components
       (fun _ _ => Ok (py "B/L No: AB12", "text", "high"))
       (fun _ => Ok [])
       (fun _ _ _ => Raise (Exn "ValueError" (py "bad field"))))
    (Upload (PdfFile (Ok tt) (Ok []) (Ok [])) (Ok [])) (py "a.pdf")
  = blank_failure (py "a.pdf") (Exn "ValueError" (py "bad field")).
Proof.
  apply process_single_pdf_on_failure.
  right. exists (py "B/L No: AB12"), "text", "high". split; [reflexivity|].
  right. exists []. split; reflexivity.
Defined.

Lemma isspace_upper_char (c : ascii) : isspace (upper_char c) = isspace c.
Proof.
  assert (H : forallb (fun c => Bool.eqb (isspace (upper_char c)) (isspace c))
                all_ascii = true) by (vm_compute; reflexivity).
  apply Bool.eqb_prop.
  exact (proj1 (forallb_forall _ _) H c (in_all_ascii c)).
Qed.

Lemma upper_char_idem (c : ascii) : upper_char (upper_char c) = upper_char c.
Proof.
  assert (H : forallb (fun c => Ascii.eqb (upper_char (upper_char c)) (upper_char c))
                all_ascii = true) by (vm_compute; reflexivity).
  apply Ascii.eqb_eq.
  exact (proj1 (forallb_forall _ _) H c (in_all_ascii c)).
Qed.

Lemma nl_upper_char (c : ascii) : Ascii.eqb (upper_char c) nl = Ascii.eqb c nl.
Proof.
  assert (H : forallb (fun c => Bool.eqb (Ascii.eqb (upper_char c) nl) (Ascii.eqb c nl))
                all_ascii = true) by (vm_compute; reflexivity).
  apply Bool.eqb_prop.
  exact (proj1 (forallb_forall _ _) H c (in_all_ascii c)).
Qed.

Lemma length_dropwhile_map (p : ascii -> bool) (f : ascii -> ascii) (t : str) :
  (forall c, p (f c) = p c) ->
  dropwhile p (map f t) = map f (dropwhile p t).
Proof.
  intros H. induction t as [|c t IH]; [reflexivity|].
  cbn [map dropwhile]. rewrite H. destruct (p c); [exact IH | reflexivity].
Qed.

Lemma drop_trailing_map (p : ascii -> bool) (f : ascii -> ascii) (t : str) :
  (forall c, p (f c) = p c) ->
  drop_trailing p (map f t) = map f (drop_trailing p t).
Proof.
  intros H. induction t as [|c t IH]; [reflexivity|].
  cbn [map drop_trailing].
  assert (E : forallb p (f c :: map f t) = forallb p (c :: t)).
  { clear IH. cbn [forallb]. rewrite H. f_equal.
    induction t as [|d t IHt]; [reflexivity|]. cbn [map forallb].
    rewrite H, IHt. reflexivity. }
  rewrite E. destruct (forallb p (c :: t)); [reflexivity|].
  cbn [map]. rewrite IH. reflexivity.
Qed.

(** The confidence does not depend on the letter case of the text. *)
Theorem assess_text_quality_ignores_case (text : str) :
  assess_text_quality (upper text) = assess_text_quality text.
Proof.
  unfold assess_text_quality, has_structured_fields, has_addresses.
  assert (Hlen : List.length (strip (upper text)) = List.length (strip text)).
  { unfold strip, rstrip, lstrip, upper.
    rewrite (length_dropwhile_map isspace upper_char text isspace_upper_char).
    rewrite (drop_trailing_map isspace upper_char _ isspace_upper_char).
    apply length_map. }
  assert (Hup : upper (upper text) = upper text).
  { unfold upper. rewrite map_map. apply map_ext. exact upper_char_idem. }
  assert (Hnl : count nl (upper text) = count nl text).
  { clear. unfold upper. induction text as [|c t IH]; [reflexivity|].
    cbn [map count]. rewrite nl_upper_char, IH. reflexivity. }
  rewrite Hlen, Hup, Hnl. reflexivity.
Qed.

End Methods.
